(** * hv: the data-access layer (database.go)

    A shallow embedding of the credential store, the session-token ledger,
    the search query builder and the import pipeline of hv, and the
    properties its specification states about them; then the reads by
    id, the tag sets, the histories of calls and the comment stripping of
    json.go, with further properties of the code.

    Go strings are byte strings and are modelled by [string]; Go's [int] is
    a 64-bit integer and is modelled by [Z], with the wrap-around written
    out where the code can overflow.  The SQLite store is a record of
    tables; every statement threads the store explicitly. *)

From Stdlib Require Import ZArith List String Ascii Bool Lia Arith.
From Stdlib Require Import Strings.Byte Permutation Sorted DecimalString DecimalPos.
From Stdlib Require Import Floats.
Import ListNotations.

Local Open Scope string_scope.
Local Open Scope Z_scope.

(** ** Constants *)

Definition PasswordSaltLength : Z := 16.
Definition SessionTokenLength : Z := 30.
Definition MaxTokensPerUser : Z := 20.

(** ** Results of fallible Go code *)

Inductive DatabaseError : Type :=
| DatabaseErrorInvalidMetadata
| DatabaseErrorInvalidSchema
| DatabaseErrorExistentUser
| DatabaseErrorInexistentUser
| DatabaseErrorInvalidPassword
| DatabaseErrorDisallowedUsername
| DatabaseErrorDisallowedPassword
| DatabaseErrorInvalidToken
| DatabaseErrorInvalidPageNumber
| DatabaseErrorInvalidId
| DatabaseErrorUnauthorized
| DatabaseErrorInvalidPageSize.

(** The numeric code of an error kind ([iota + 1]). *)
Definition DatabaseError_code (e : DatabaseError) : Z :=
  match e with
  | DatabaseErrorInvalidMetadata => 1
  | DatabaseErrorInvalidSchema => 2
  | DatabaseErrorExistentUser => 3
  | DatabaseErrorInexistentUser => 4
  | DatabaseErrorInvalidPassword => 5
  | DatabaseErrorDisallowedUsername => 6
  | DatabaseErrorDisallowedPassword => 7
  | DatabaseErrorInvalidToken => 8
  | DatabaseErrorInvalidPageNumber => 9
  | DatabaseErrorInvalidId => 10
  | DatabaseErrorUnauthorized => 11
  | DatabaseErrorInvalidPageSize => 12
  end.

(** Go [error] values the data layer produces or passes on. *)
Inductive error : Type :=
| DbError (e : DatabaseError)
| SessionTokensErrorInvalidSlice
| SessionTokensErrorInvalidString
| SessionTokensErrorUnknownToken
| sql_ErrNoRows
| SqlFailure (msg : string)       (* any other error of the SQL driver *)
| Errorf (msg : string).          (* fmt.Errorf *)

(** A call returns a value, returns an error, or panics. *)
Inductive res (A : Type) : Type :=
| Ok (a : A)
| Err (e : error)
| Panic.

Arguments Ok {A} a.
Arguments Err {A} e.
Arguments Panic {A}.

Definition res_bind {A B : Type} (r : res A) (k : A -> res B) : res B :=
  match r with
  | Ok a => k a
  | Err e => Err e
  | Panic => Panic
  end.

Notation "x <-? r ;; k" := (res_bind r (fun x => k))
  (at level 61, r at next level, right associativity).

(** ** encoding/base64, URLEncoding (with padding) *)

Definition encodeURL : string :=
  "ABCDEFGHIJKLMNOPQRSTUVWXYZabcdefghijklmnopqrstuvwxyz0123456789-_".

Definition padChar : ascii := "="%char.

(** [enc.encode[i]] for a 6-bit index. *)
Definition encode_at (i : Z) : ascii :=
  match String.get (Z.to_nat i) encodeURL with
  | Some c => c
  | None => padChar
  end.

Definition byteZ (b : byte) : Z := Z.of_N (Byte.to_N b).

Fixpoint base64_chars (src : list byte) : list ascii :=
  match src with
  | [] => []
  | [a] =>
      let val := Z.shiftl (byteZ a) 16 in
      [encode_at (Z.land (Z.shiftr val 18) 63);
       encode_at (Z.land (Z.shiftr val 12) 63);
       padChar; padChar]
  | [a; b] =>
      let val := Z.lor (Z.shiftl (byteZ a) 16) (Z.shiftl (byteZ b) 8) in
      [encode_at (Z.land (Z.shiftr val 18) 63);
       encode_at (Z.land (Z.shiftr val 12) 63);
       encode_at (Z.land (Z.shiftr val 6) 63);
       padChar]
  | a :: b :: c :: rest =>
      let val := Z.lor (Z.lor (Z.shiftl (byteZ a) 16) (Z.shiftl (byteZ b) 8))
                       (byteZ c) in
      encode_at (Z.land (Z.shiftr val 18) 63)
      :: encode_at (Z.land (Z.shiftr val 12) 63)
      :: encode_at (Z.land (Z.shiftr val 6) 63)
      :: encode_at (Z.land val 63)
      :: base64_chars rest
  end.

Definition base64encode (bytes : list byte) : string :=
  string_of_list_ascii (base64_chars bytes).

(** Characters a base64 URL encoding is made of. *)
Definition is_base64_char (c : ascii) : bool :=
  let n := N_of_ascii c in
  ((65 <=? n) && (n <=? 90) || (97 <=? n) && (n <=? 122)
   || (48 <=? n) && (n <=? 57) || (n =? 45) || (n =? 95) || (n =? 61))%N.

Definition base64_text (s : string) : bool :=
  forallb is_base64_char (list_ascii_of_string s).

(** ** Strings *)

Definition chars (s : string) : list ascii := list_ascii_of_string s.

Definition slen (s : string) : Z := Z.of_nat (String.length s).

(** ASCII case folding, as SQLite's NOCASE collation and LIKE do it: only
    the 26 upper-case letters are folded. *)
Definition tolower (c : ascii) : ascii :=
  let n := N_of_ascii c in
  if ((65 <=? n) && (n <=? 90))%N then ascii_of_N (n + 32) else c.

Definition nocase_eqb (a b : string) : bool :=
  if list_eq_dec ascii_dec (map tolower (chars a)) (map tolower (chars b))
  then true else false.

(** [path.Ext]: the backward scan for the last dot of the last path
    element; [seen] is the suffix already passed. *)
Fixpoint ext_scan (rev_path : list ascii) (seen : list ascii) : list ascii :=
  match rev_path with
  | [] => []
  | c :: r =>
      if Ascii.eqb c "/" then []
      else if Ascii.eqb c "." then c :: seen
      else ext_scan r (c :: seen)
  end.

Definition path_Ext (path : string) : string :=
  string_of_list_ascii (ext_scan (rev (chars path)) []).

Definition removeExtension (fileName : string) : string :=
  let ext := path_Ext fileName in
  if String.eqb ext "" then fileName
  else substring 0 (String.length fileName - String.length ext) fileName.

Definition is_digit (c : ascii) : bool :=
  let n := N_of_ascii c in ((48 <=? n) && (n <=? 57))%N.

Definition digit_val (c : ascii) : Z := Z.of_N (N_of_ascii c) - 48.

(** The digit loop of [strconv.ParseUint(s, 10, 32)]. *)
Fixpoint parseUint_loop (cs : list ascii) (n : Z) : option Z :=
  match cs with
  | [] => Some n
  | c :: r =>
      if is_digit c then
        let n1 := n * 10 + digit_val c in
        if n1 >? 4294967295 then None else parseUint_loop r n1
      else None
  end.

Definition strconv_ParseUint32 (s : string) : option Z :=
  match chars s with
  | [] => None
  | cs => parseUint_loop cs 0
  end.

Definition pageNameToPageNumber (fileName : string) : Z :=
  let noExtName := removeExtension fileName in
  match strconv_ParseUint32 noExtName with
  | None => -1
  | Some pageNumber => pageNumber
  end.

Definition allowedCharacters : list ascii :=
  chars "AaBbCcDdEeFfGgHhIiJjKkLlMmNnOoPpQqRrSsTtUuVvWwXxYyZz0123456789._-".

(** The loop ranges over runes; a byte outside ASCII decodes to a rune that
    is not in the list, so the test is the same byte by byte. *)
Definition isUsernameValid (username : string) : bool :=
  if slen username <? 1 then false
  else forallb (fun c => existsb (Ascii.eqb c) allowedCharacters)
               (chars username).

Definition isPasswordValid (password : string) : bool :=
  slen password >? 0.

(** [strings.NewReplacer] with three one-byte patterns. *)
Fixpoint escape_chars (cs : list ascii) : list ascii :=
  match cs with
  | [] => []
  | c :: r =>
      if Ascii.eqb c "\" || Ascii.eqb c "%" || Ascii.eqb c "_"
      then "\"%char :: c :: escape_chars r
      else c :: escape_chars r
  end.

Definition escapeSqlLike (s : string) : string :=
  string_of_list_ascii (escape_chars (chars s)).

(** SQLite's [text LIKE pattern ESCAPE esc] on byte strings: [%] matches
    any run, [_] one character, the escape character makes the next
    pattern character literal, and letters compare without case. *)
Fixpoint like_match (esc : ascii) (p : list ascii) (t : list ascii)
  {struct p} : bool :=
  match p with
  | [] => match t with [] => true | _ => false end
  | c :: p' =>
      if Ascii.eqb c "%" then
        (fix star (u : list ascii) : bool :=
           like_match esc p' u
           || match u with [] => false | _ :: u' => star u' end) t
      else if Ascii.eqb c "_" then
        match t with [] => false | _ :: t' => like_match esc p' t' end
      else if Ascii.eqb c esc then
        match p', t with
        | c2 :: p'', x :: t' =>
            Ascii.eqb (tolower x) (tolower c2) && like_match esc p'' t'
        | _, _ => false
        end
      else
        match t with
        | x :: t' => Ascii.eqb (tolower x) (tolower c) && like_match esc p' t'
        | [] => false
        end
  end.

Definition sql_like (text pattern : string) : bool :=
  like_match "\"%char (chars pattern) (chars text).

(** ** The store

    One record per table of the schema [NewDatabase] creates.  The array
    columns of a doujin and of a tag set hold [jsonEncode] of a [[]string];
    the model keeps the array ([json_each] and [json.Unmarshal] read it
    back).  [session_tokens] is kept as the text it is, because the ledger
    decodes and encodes it itself. *)

Record UserRow : Type := mkUser {
  user_id : Z;
  username : string;
  password_hash : string;
  password_salt : string;
  session_tokens : string
}.

Record DoujinRow : Type := mkDoujin {
  doujin_id : Z;
  title : string;
  subtitle : string;
  upload_date : string;
  external_rating : Z;
  tags : list string;
  characters : list string;
  artists : list string;
  groups : list string;
  languages : list string;
  pages : Z
}.

Record PageRow : Type := mkPage {
  page_id : Z;
  page_doujin_id : Z;
  page_path : string;
  page_number : Z
}.

Record TagSetRow : Type := mkTagSet {
  tagset_id : Z;
  tagset_user_id : Z;
  tagset_tags : list string;
  tagset_anti_tags : list string
}.

(** The [seq_] fields are the rows of [sqlite_sequence]: the largest id an
    AUTOINCREMENT table has ever handed out. *)
Record Database : Type := mkDatabase {
  Users : list UserRow;
  Doujins : list DoujinRow;
  DoujinPages : list PageRow;
  TagSets : list TagSetRow;
  seq_Users : Z;
  seq_Doujins : Z;
  seq_DoujinPages : Z
}.

Definition empty_database : Database :=
  mkDatabase [] [] [] [] 0 0 0.

Definition max_id (ids : list Z) : Z := fold_right Z.max 0 ids.

(** The rowid an AUTOINCREMENT insert receives. *)
Definition next_rowid (ids : list Z) (sequence : Z) : Z :=
  Z.max (max_id ids) sequence + 1.

(** The process-wide state a call can read or change: the store, the
    position in the operating system's random stream and the number of SQL
    statements issued so far. *)
Record World : Type := mkWorld {
  db : Database;
  rand_pos : nat;
  io_pos : nat
}.

Definition set_db (w : World) (d : Database) : World :=
  mkWorld d (rand_pos w) (io_pos w).

(** One more statement has been issued. *)
Definition tick (w : World) : World :=
  mkWorld (db w) (rand_pos w) (S (io_pos w)).

(** Values bound to the [?] placeholders of a statement ([[]any]). *)
Inductive SqlValue : Type :=
| SqlText (s : string)
| SqlInt (n : Z).

(** The pieces of SQL text [buildSearchQuery] writes, in writing order. *)
Inductive SqlFragment : Type :=
| SELECT_COUNT
| SELECT_COLUMNS
| FROM_Doujins_WHERE_LIKE
| AND_EXISTS_TAG
| AND_NOT_EXISTS_TAG
| ORDER_LIMIT_OFFSET.

Definition fragment_text (f : SqlFragment) : string :=
  match f with
  | SELECT_COUNT => "SELECT COUNT(*)"
  | SELECT_COLUMNS =>
      "SELECT id, title, subtitle, upload_date, external_rating, tags, characters, artists, groups, languages"
  | FROM_Doujins_WHERE_LIKE =>
      " FROM Doujins WHERE (title LIKE ? ESCAPE '\' OR subtitle LIKE ? ESCAPE '\') "
  | AND_EXISTS_TAG =>
      " AND EXISTS ( SELECT 1 FROM json_each(Doujins.tags) AS jt WHERE jt.value = ? ) "
  | AND_NOT_EXISTS_TAG =>
      " AND NOT EXISTS ( SELECT 1 FROM json_each(Doujins.tags) AS jt WHERE jt.value = ? ) "
  | ORDER_LIMIT_OFFSET =>
      " ORDER BY upload_date DESC LIMIT ? OFFSET ? "
  end.

(** Go's [int] arithmetic: 64 bits, two's complement. *)
Definition wrap64 (n : Z) : Z :=
  (n + 9223372036854775808) mod 18446744073709551616 - 9223372036854775808.

Definition buildSearchQuery (query : string) (tags antiTags : list string)
  (pageSize pageNumber : Z) (count : bool)
  : list SqlFragment * list SqlValue :=
  let sqlLikeQuery := "%" ++ escapeSqlLike query ++ "%" in
  (* Select *)
  let queryBuilder := if count then [SELECT_COUNT] else [SELECT_COLUMNS] in
  (* Basic search *)
  let queryBuilder := (queryBuilder ++ [FROM_Doujins_WHERE_LIKE])%list in
  let queryParameters := [SqlText sqlLikeQuery; SqlText sqlLikeQuery] in
  (* Tags *)
  let queryBuilder :=
    (queryBuilder ++ map (fun _ => AND_EXISTS_TAG) tags)%list in
  let queryParameters := (queryParameters ++ map SqlText tags)%list in
  (* Anti-tags *)
  let queryBuilder :=
    (queryBuilder ++ map (fun _ => AND_NOT_EXISTS_TAG) antiTags)%list in
  let queryParameters := (queryParameters ++ map SqlText antiTags)%list in
  (* Pagination *)
  if count then (queryBuilder, queryParameters)
  else ((queryBuilder ++ [ORDER_LIMIT_OFFSET])%list,
        (queryParameters
           ++ [SqlInt pageSize;
               SqlInt (wrap64 (pageSize * wrap64 (pageNumber - 1)))])%list).

(** ** SQLite on the statements of the search *)

(** [%d] and SQLite's text form of an integer. *)
Definition itoa (n : Z) : string := NilZero.string_of_int (Z.to_int n).

Definition sql_text_of (v : SqlValue) : string :=
  match v with
  | SqlText s => s
  | SqlInt n => itoa n
  end.

(** [jt.value = ?] on a text value: an integer never equals a text. *)
Definition sql_eq_text (v : SqlValue) (s : string) : bool :=
  match v with
  | SqlText t => String.eqb s t
  | SqlInt _ => false
  end.

(** A prepared search statement with its placeholders bound. *)
Record BoundQuery : Type := mkBound {
  bq_count : bool;
  bq_title_pattern : SqlValue;
  bq_subtitle_pattern : SqlValue;
  bq_filters : list (bool * SqlValue);      (* true: EXISTS, false: NOT EXISTS *)
  bq_page : option (SqlValue * SqlValue)    (* LIMIT, OFFSET *)
}.

(** The [AND ...] clauses and the optional pagination clause; every
    placeholder takes the next parameter, and none may be left over. *)
Fixpoint bind_clauses (fs : list SqlFragment) (ps : list SqlValue)
  : option (list (bool * SqlValue) * option (SqlValue * SqlValue)) :=
  match fs, ps with
  | [], [] => Some ([], None)
  | [ORDER_LIMIT_OFFSET], [lim; off] => Some ([], Some (lim, off))
  | AND_EXISTS_TAG :: fs', p :: ps' =>
      match bind_clauses fs' ps' with
      | Some (cl, pg) => Some ((true, p) :: cl, pg)
      | None => None
      end
  | AND_NOT_EXISTS_TAG :: fs', p :: ps' =>
      match bind_clauses fs' ps' with
      | Some (cl, pg) => Some ((false, p) :: cl, pg)
      | None => None
      end
  | _, _ => None
  end.

Definition bind_query (q : list SqlFragment * list SqlValue)
  : option BoundQuery :=
  match q with
  | (sel :: FROM_Doujins_WHERE_LIKE :: fs, p1 :: p2 :: ps) =>
      match sel, bind_clauses fs ps with
      | SELECT_COUNT, Some (cl, None) => Some (mkBound true p1 p2 cl None)
      | SELECT_COLUMNS, Some (cl, pg) => Some (mkBound false p1 p2 cl pg)
      | _, _ => None
      end
  | _ => None
  end.

(** The WHERE clause on one row of Doujins. *)
Definition filter_holds (d : DoujinRow) (f : bool * SqlValue) : bool :=
  let present := existsb (sql_eq_text (snd f)) (tags d) in
  if fst f then present else negb present.

Definition where_holds (q : BoundQuery) (d : DoujinRow) : bool :=
  (sql_like (title d) (sql_text_of (bq_title_pattern q))
   || sql_like (subtitle d) (sql_text_of (bq_subtitle_pattern q)))
  && forallb (filter_holds d) (bq_filters q).

(** ORDER BY upload_date DESC, rows with equal dates staying in table
    order. *)
Fixpoint insert_desc (x : DoujinRow) (l : list DoujinRow) : list DoujinRow :=
  match l with
  | [] => [x]
  | y :: l' =>
      if String.leb (upload_date y) (upload_date x) then x :: l
      else y :: insert_desc x l'
  end.

Definition order_by_upload_date_desc (l : list DoujinRow) : list DoujinRow :=
  fold_right insert_desc [] l.

(** LIMIT and OFFSET: a negative limit is no limit, a negative offset is
    none; a bound value that is not an integer is a datatype mismatch. *)
Definition limit_offset (pg : option (SqlValue * SqlValue))
  (rows : list DoujinRow) : option (list DoujinRow) :=
  match pg with
  | None => Some rows
  | Some (SqlInt lim, SqlInt off) =>
      let rest := skipn (Z.to_nat off) rows in
      Some (if lim <? 0 then rest else firstn (Z.to_nat lim) rest)
  | Some _ => None
  end.

(** The rows a bound SELECT yields on a table. *)
Definition select_rows (q : BoundQuery) (table : list DoujinRow)
  : option (list DoujinRow) :=
  let matching := filter (where_holds q) table in
  match bq_page q with
  | None => Some matching
  | pg => limit_offset pg (order_by_upload_date_desc matching)
  end.

Definition count_rows (q : BoundQuery) (table : list DoujinRow) : Z :=
  Z.of_nat (List.length (filter (where_holds q) table)).

(** ** The values the operations return *)

Record Doujin : Type := mkDoujinResult {
  Id : Z;
  Title : string;
  Subtitle : string;
  UploadDate : string;
  ExternalRating : Z;
  Tags : list string;
  Characters : list string;
  Artists : list string;
  Groups : list string;
  Languages : list string;
  Pages : list (list Z)
}.

Record SearchResult : Type := mkSearchResult {
  Entries : list Doujin;
  TotalPages : Z
}.

(** [SearchResult{}] *)
Definition SearchResult_zero : SearchResult := mkSearchResult [] 0.

(** ** float64 arithmetic of the page count

    [int(math.Ceil(float64(resultsCount) / float64(pageSize)))] is computed
    in IEEE-754 binary64.  A positive finite double is kept as a pair
    (mantissa, exponent) standing for [mantissa * 2^exponent]; conversion
    and division round to nearest, ties to even, on 53 significant bits.
    Both operands are positive where the code evaluates the expression, and
    a quotient of two 64-bit integers is far from overflow and underflow. *)

(** [floor (log2 (n / d))] for positive [n] and [d]. *)
Definition ilog2_ratio (n d : Z) : Z :=
  if d <=? n then Z.log2 (n / d) else - Z.log2_up (- ((- d) / n)).

(** Round the positive rational [n / d] to the nearest double. *)
Definition round_ratio (n d : Z) : Z * Z :=
  let e := ilog2_ratio n d - 52 in
  let N := n * 2 ^ Z.max 0 (- e) in
  let D := d * 2 ^ Z.max 0 e in
  let m0 := N / D in
  let r := N mod D in
  let m :=
    match 2 * r ?= D with
    | Lt => m0
    | Gt => m0 + 1
    | Eq => if Z.even m0 then m0 else m0 + 1
    end in
  (m, e).

Definition float64_of_int (n : Z) : Z * Z := round_ratio n 1.

Definition float64_div (a b : Z * Z) : Z * Z :=
  let '(m1, e1) := a in
  let '(m2, e2) := b in
  round_ratio (m1 * 2 ^ Z.max 0 (e1 - e2)) (m2 * 2 ^ Z.max 0 (e2 - e1)).

Definition math_Ceil_to_int (a : Z * Z) : Z :=
  let '(m, e) := a in
  if 0 <=? e then m * 2 ^ e else - ((- m) / 2 ^ (- e)).

Definition float64_ceil_div (count pageSize : Z) : Z :=
  math_Ceil_to_int (float64_div (float64_of_int count) (float64_of_int pageSize)).

(** The same quotient in the kernel's own binary64 numbers, for comparison
    on samples. *)
Definition machine_quotient (a b : Z) : spec_float :=
  Prim2SF (PrimFloat.div (PrimFloat.of_uint63 (Uint63.of_Z a))
                         (PrimFloat.of_uint63 (Uint63.of_Z b))).

Definition same_double (x : spec_float) (y : Z * Z) : bool :=
  match x with
  | S754_finite false m e =>
      let lo := Z.min e (snd y) in
      Z.pos m * 2 ^ (e - lo) =? fst y * 2 ^ (snd y - lo)
  | _ => false
  end.

(** ** The folder an import reads *)

Record DoujinImportMetadata : Type := mkMeta {
  meta_Title : string;
  meta_Subtitle : string;
  meta_ExternalRating : Z;
  meta_UploadDate : string;     (* the time.Time, as RFC 3339 renders it *)
  meta_Characters : list string;
  meta_Tags : list string;
  meta_Artists : list string;
  meta_Groups : list string;
  meta_Languages : list string;
  meta_Pages : Z
}.

Record DirEntry : Type := mkEntry {
  entry_Name : string;
  entry_IsDir : bool
}.

(** What [os.Open] and the JSON decoder make of [metadata.json]. *)
Inductive MetadataFile : Type :=
| OpenFails (oserr : string)
| DecodeFails (jsonerr : string)
| Decoded (m : DoujinImportMetadata).

(** What [os.ReadDir] returns: the entries sorted by file name. *)
Inductive DirListing : Type :=
| ReadDirFails (oserr : string)
| Listing (entries : list DirEntry).

Record Folder : Type := mkFolder {
  folder_metadata : MetadataFile;
  folder_listing : DirListing
}.

(** [sort.Ints] *)
Fixpoint insert_int (x : Z) (l : list Z) : list Z :=
  match l with
  | [] => [x]
  | y :: l' => if x <=? y then x :: l else y :: insert_int x l'
  end.

Definition sort_Ints (l : list Z) : list Z := fold_right insert_int [] l.

(** The loop that checks the sorted page numbers against 1, 2, ...: the
    first position [i] (from [start]) whose value is not [i + 1]. *)
Fixpoint first_gap (i : Z) (sorted : list Z) : option (Z * Z) :=
  match sorted with
  | [] => None
  | pageNumber :: rest =>
      if negb (i + 1 =? pageNumber) then Some (i + 1, pageNumber)
      else first_gap (i + 1) rest
  end.

(** * The data layer

    What the program takes from outside is a parameter of the model: the
    bytes [crypto/rand] delivers, the two hash functions, [encoding/json] on
    the [[][]string] of a session-token list, [path.Join], and the SQL
    statements the driver fails on (with the driver's message). *)

Section DataLayer.

Variable entropy : nat -> byte.
Variable sha256_Sum256 : list byte -> list byte.
Variable argon2_IDKey : list byte -> list byte -> Z -> Z -> Z -> Z -> list byte.
Variable json_Marshal : list (list string) -> string.
Variable json_Unmarshal : string -> option (list (list string)).
Variable path_Join : string -> string -> string.
Variable io_fault : nat -> option string.

Definition jsonEncode (v : list (list string)) : string := json_Marshal v.

(** [rand.Read] fills the buffer with the next [n] bytes of the stream; the
    operating system's generator does not fail, so the panic on its error
    has no counterpart here. *)
Definition randomString (n : Z) (pos : nat) : string * nat :=
  (base64encode (map entropy (seq pos (Z.to_nat n))), (pos + Z.to_nat n)%nat).

Definition hashPassword (password salt : string) : string :=
  let iterations := 3 in
  let memory := 65536 in
  let parallelism := 4 in
  let keyLen := 32 in
  base64encode (argon2_IDKey (list_byte_of_string password)
                             (list_byte_of_string salt)
                             iterations memory parallelism keyLen).

Definition hashToken (token salt : string) : string :=
  base64encode (sha256_Sum256 (list_byte_of_string (token ++ salt))).

(** ** SessionTokens *)

Definition SessionTokens : Type := string.

Definition NewSessionTokens (slice : list (list string)) : res SessionTokens :=
  if forallb (fun x => (List.length x =? 2)%nat) slice
  then Ok (jsonEncode slice)
  else Err SessionTokensErrorInvalidSlice.

Definition ToSlice (tokens : SessionTokens) : res (list (list string)) :=
  if String.eqb tokens "" then Ok []
  else match json_Unmarshal tokens with
       | Some tokensSlice => Ok tokensSlice
       | None => Err SessionTokensErrorInvalidString
       end.

(** [hashToken(token, t[1]) == t[0]]; indexing a shorter entry panics. *)
Definition entry_matches (token : string) (t : list string) : res bool :=
  match t with
  | hash :: salt :: _ => Ok (String.eqb (hashToken token salt) hash)
  | _ => Panic
  end.

(** The result of [AppendNew]: the new raw token and the new value of the
    receiver.  On an error the receiver keeps its value. *)
Definition AppendNew (tokens : SessionTokens) (pos : nat)
  : res (string * SessionTokens) * nat :=
  match ToSlice tokens with
  | Ok tokensSlice =>
      let '(token, pos1) := randomString SessionTokenLength pos in
      let '(salt, pos2) := randomString PasswordSaltLength pos1 in
      let hash := hashToken token salt in
      let tokensSlice := (tokensSlice ++ [[hash; salt]])%list in
      let tokensSlice :=
        if Z.of_nat (List.length tokensSlice) >=? MaxTokensPerUser
        then tl tokensSlice else tokensSlice in
      (newTokens <-? NewSessionTokens tokensSlice ;; Ok (token, newTokens),
       pos2)
  | Err e => (Err e, pos)
  | Panic => (Panic, pos)
  end.

(** The scan of [RemoveToken]: the index of the first matching entry. *)
Fixpoint find_token (token : string) (tokensSlice : list (list string))
  (i : nat) : res (option nat) :=
  match tokensSlice with
  | [] => Ok None
  | t :: rest =>
      matches <-? entry_matches token t ;;
      if matches then Ok (Some i) else find_token token rest (S i)
  end.

(** [slices.Delete(s, i, i+1)] *)
Definition slices_Delete1 {A : Type} (s : list A) (i : nat) : list A :=
  (firstn i s ++ skipn (S i) s)%list.

Definition RemoveToken (tokens : SessionTokens) (token : string)
  : res SessionTokens :=
  tokensSlice <-? ToSlice tokens ;;
  tokenIndex <-? find_token token tokensSlice 0 ;;
  match tokenIndex with
  | None => Err SessionTokensErrorUnknownToken
  | Some i => NewSessionTokens (slices_Delete1 tokensSlice i)
  end.

Fixpoint has_match (token : string) (tokensSlice : list (list string))
  : res bool :=
  match tokensSlice with
  | [] => Ok false
  | t :: rest =>
      matches <-? entry_matches token t ;;
      if matches then Ok true else has_match token rest
  end.

Definition HasToken (tokens : SessionTokens) (token : string) : res bool :=
  tokensSlice <-? ToSlice tokens ;;
  has_match token tokensSlice.

(** ** Statements on the store *)

Definition M (A : Type) : Type := World -> res A * World.

Definition ret {A : Type} (a : A) : M A := fun w => (Ok a, w).

Definition fail {A : Type} (e : error) : M A := fun w => (Err e, w).

Definition bind {A B : Type} (c : M A) (k : A -> M B) : M B :=
  fun w =>
    match c w with
    | (Ok a, w1) => k a w1
    | (Err e, w1) => (Err e, w1)
    | (Panic, w1) => (Panic, w1)
    end.

Notation "x <- c ;; k" := (bind c (fun x => k))
  (at level 61, c at next level, right associativity).

Definition lift {A : Type} (r : res A) : M A := fun w => (r, w).

(** Replace the error [from] of [c] by [to]. *)
Definition rename_error {A : Type} (is_from : error -> bool) (to : error)
  (c : M A) : M A :=
  fun w =>
    match c w with
    | (Err e, w1) => (Err (if is_from e then to else e), w1)
    | r => r
    end.

Definition is_ErrNoRows (e : error) : bool :=
  match e with sql_ErrNoRows => true | _ => false end.

(** Every statement sent to the driver either fails there or runs. *)
Definition statement : M unit :=
  fun w =>
    match io_fault (io_pos w) with
    | Some msg => (Err (SqlFailure msg), tick w)
    | None => (Ok tt, tick w)
    end.

(** [db.QueryRow(...).Scan(...)]: the first row of the result. *)
Definition QueryRow {R : Type} (rows : Database -> list R) : M R :=
  _ <- statement ;;
  fun w =>
    match rows (db w) with
    | [] => (Err sql_ErrNoRows, w)
    | r :: _ => (Ok r, w)
    end.

(** [Exec] of a statement that changes the store. *)
Definition Exec (change : Database -> Database) : M unit :=
  _ <- statement ;;
  fun w => (Ok tt, set_db w (change (db w))).

(** [sqlExec] puts the statement's text in front of the driver's error. *)
Definition sqlExec (query : string) (change : Database -> Database) : M unit :=
  fun w =>
    match Exec change w with
    | (Err (SqlFailure msg), w1) =>
        (Err (Errorf ("`" ++ query ++ "`: " ++ msg)), w1)
    | r => r
    end.

(** [WHERE username = ? COLLATE NOCASE] *)
Definition users_named (name : string) (d : Database) : list UserRow :=
  filter (fun u => nocase_eqb (username u) name) (Users d).

Definition insert_user (name hash salt tokens : string) (d : Database)
  : Database :=
  let id := next_rowid (map user_id (Users d)) (seq_Users d) in
  mkDatabase (Users d ++ [mkUser id name hash salt tokens])%list
             (Doujins d) (DoujinPages d) (TagSets d)
             id (seq_Doujins d) (seq_DoujinPages d).

(** [UPDATE Users SET session_tokens = ? WHERE username = ? COLLATE NOCASE] *)
Definition update_session_tokens (tokens name : string) (d : Database)
  : Database :=
  mkDatabase
    (map (fun u =>
            if nocase_eqb (username u) name
            then mkUser (user_id u) (username u) (password_hash u)
                        (password_salt u) tokens
            else u) (Users d))
    (Doujins d) (DoujinPages d) (TagSets d)
    (seq_Users d) (seq_Doujins d) (seq_DoujinPages d).

(** ** Credentials *)

Definition authenticateUser (name token : string) : M Z :=
  row <- rename_error is_ErrNoRows (DbError DatabaseErrorInexistentUser)
           (QueryRow (users_named name)) ;;
  hasToken <- lift (HasToken (session_tokens row) token) ;;
  if negb hasToken then fail (DbError DatabaseErrorInvalidToken)
  else ret (user_id row).

Definition RegisterUser (name password : string) : M unit :=
  if negb (isUsernameValid name) then
    fail (DbError DatabaseErrorDisallowedUsername)
  else if negb (isPasswordValid password) then
    fail (DbError DatabaseErrorDisallowedPassword)
  else fun w =>
    match QueryRow (users_named name) w with
    | (Ok _, w1) => (Err (DbError DatabaseErrorExistentUser), w1)
    | (Err sql_ErrNoRows, w1) =>
        let '(passwordSalt, pos) := randomString PasswordSaltLength (rand_pos w1) in
        let passwordHash := hashPassword password passwordSalt in
        sqlExec
          "INSERT INTO Users (username, password_hash, password_salt, session_tokens) VALUES (?, ?, ?, ?)"
          (insert_user name passwordHash passwordSalt "")
          (mkWorld (db w1) pos (io_pos w1))
    | (Err e, w1) => (Err e, w1)
    | (Panic, w1) => (Panic, w1)
    end.

Definition LoginUser (name password : string) : M string :=
  row <- rename_error is_ErrNoRows (DbError DatabaseErrorInexistentUser)
           (QueryRow (users_named name)) ;;
  if negb (String.eqb (hashPassword password (password_salt row))
                      (password_hash row))
  then fail (DbError DatabaseErrorInvalidPassword)
  else
    r <- (fun w =>
            let '(r, pos) := AppendNew (session_tokens row) (rand_pos w) in
            (r, mkWorld (db w) pos (io_pos w))) ;;
    let '(token, sessionTokens) := r in
    _ <- sqlExec
           "UPDATE Users SET session_tokens = ? WHERE username = ? COLLATE NOCASE"
           (update_session_tokens sessionTokens name) ;;
    ret token.

Definition GetUsername (name token : string) : M string :=
  userId <- authenticateUser name token ;;
  row <- QueryRow (fun d => filter (fun u => user_id u =? userId) (Users d)) ;;
  ret (username row).

Definition IsAuthDataValid (name token : string) : M bool :=
  fun w =>
    match authenticateUser name token w with
    | (Err (DbError DatabaseErrorInexistentUser), w1)
    | (Err (DbError DatabaseErrorInvalidToken), w1) => (Ok false, w1)
    | (Err e, w1) => (Err e, w1)
    | (Panic, w1) => (Panic, w1)
    | (Ok _, w1) => (Ok true, w1)
    end.

Definition LogoutUser (name token : string) : M unit :=
  row <- rename_error is_ErrNoRows (DbError DatabaseErrorInexistentUser)
           (QueryRow (users_named name)) ;;
  sessionTokens <-
    rename_error
      (fun e => match e with SessionTokensErrorUnknownToken => true | _ => false end)
      (DbError DatabaseErrorInvalidToken)
      (lift (RemoveToken (session_tokens row) token)) ;;
  sqlExec
    "UPDATE Users SET session_tokens = ? WHERE username = ? COLLATE NOCASE"
    (update_session_tokens sessionTokens name).

(** ** Search *)

(** [QueryRow(countQuery, ...).Scan(&resultsCount)] *)
Definition query_count (q : list SqlFragment * list SqlValue) : M Z :=
  _ <- statement ;;
  fun w =>
    match bind_query q with
    | Some b =>
        if bq_count b then (Ok (count_rows b (Doujins (db w))), w)
        else (Err (SqlFailure "sql: expected 10 destination arguments in Scan, not 1"), w)
    | None => (Err (SqlFailure "sql: statement cannot be prepared or bound"), w)
    end.

(** [Query(searchQuery, ...)] and the rows it iterates over. *)
Definition query_rows (q : list SqlFragment * list SqlValue)
  : M (list DoujinRow) :=
  _ <- statement ;;
  fun w =>
    match bind_query q with
    | Some b =>
        if bq_count b
        then (Err (SqlFailure "sql: expected 1 destination arguments in Scan, not 10"), w)
        else match select_rows b (Doujins (db w)) with
             | Some rows => (Ok rows, w)
             | None => (Err (SqlFailure "datatype mismatch"), w)
             end
    | None => (Err (SqlFailure "sql: statement cannot be prepared or bound"), w)
    end.

(** [SELECT id FROM DoujinPages WHERE doujin_id = ? AND page_number = 1] *)
Definition cover_pages (id : Z) (d : Database) : list Z :=
  map page_id
      (filter (fun p => (page_doujin_id p =? id) && (page_number p =? 1))
              (DoujinPages d)).

Definition cover_page_id (id : Z) : M Z :=
  fun w =>
    match QueryRow (cover_pages id) w with
    | (Err sql_ErrNoRows, w1) => (Ok 0, w1)
    | r => r
    end.

Definition shape_entry (row : DoujinRow) (capePageId : Z) : Doujin :=
  mkDoujinResult (doujin_id row) (title row) (subtitle row) (upload_date row)
                 (external_rating row) (tags row) (characters row)
                 (artists row) (groups row) (languages row)
                 [[1; capePageId]].

(** The loop over [rows.Next()]. *)
Fixpoint collect_entries (rows : list DoujinRow) : M (list Doujin) :=
  match rows with
  | [] => ret []
  | row :: rest =>
      capePageId <- cover_page_id (doujin_id row) ;;
      doujins <- collect_entries rest ;;
      ret (shape_entry row capePageId :: doujins)
  end.

Definition SearchDoujins (name token query : string)
  (tags antiTags : list string) (pageSize pageNumber : Z) : M SearchResult :=
  _ <- authenticateUser name token ;;
  if (pageSize <? 1) || (pageSize >? 100) then
    fail (DbError DatabaseErrorInvalidPageSize)
  else if pageNumber <? 1 then
    fail (DbError DatabaseErrorInvalidPageNumber)
  else
    (* Count query *)
    resultsCount <-
      query_count (buildSearchQuery query tags antiTags pageSize pageNumber true) ;;
    if resultsCount <? 1 then ret SearchResult_zero
    else
      let totalPages := float64_ceil_div resultsCount pageSize in
      if pageNumber >? totalPages then
        fail (DbError DatabaseErrorInvalidPageNumber)
      else
        (* Search query *)
        rows <-
          query_rows (buildSearchQuery query tags antiTags pageSize pageNumber false) ;;
        doujins <- collect_entries rows ;;
        ret (mkSearchResult doujins totalPages).

(** ** Import *)

Definition insert_doujin (m : DoujinImportMetadata) (d : Database) : Database :=
  let id := next_rowid (map doujin_id (Doujins d)) (seq_Doujins d) in
  mkDatabase (Users d)
             (Doujins d ++ [mkDoujin id (meta_Title m) (meta_Subtitle m)
                                     (meta_UploadDate m) (meta_ExternalRating m)
                                     (meta_Tags m) (meta_Characters m)
                                     (meta_Artists m) (meta_Groups m)
                                     (meta_Languages m) (meta_Pages m)])%list
             (DoujinPages d) (TagSets d)
             (seq_Users d) id (seq_DoujinPages d).

Definition insert_page (doujinId : Z) (pagePath : string) (pageNumber : Z)
  (d : Database) : Database :=
  let id := next_rowid (map page_id (DoujinPages d)) (seq_DoujinPages d) in
  mkDatabase (Users d) (Doujins d)
             (DoujinPages d ++ [mkPage id doujinId pagePath pageNumber])%list
             (TagSets d)
             (seq_Users d) (seq_Doujins d) id.

(** [db.Begin()], the body, and the deferred [tx.Rollback()], which undoes
    the body's changes unless the body ended with a [tx.Commit()] that
    succeeded. *)
Definition in_transaction {A : Type} (body : M A) : M A :=
  _ <- statement ;;
  fun w =>
    match body w with
    | (Ok a, w1) => (Ok a, w1)
    | (Err e, w1) => (Err e, set_db w1 (db w))
    | (Panic, w1) => (Panic, set_db w1 (db w))
    end.

Definition tx_Commit : M unit := statement.

(** The loop over the directory entries. *)
Fixpoint import_entries (folderPath : string) (doujinId : Z)
  (entries : list DirEntry) (importedPages : list Z) : M (list Z) :=
  match entries with
  | [] => ret importedPages
  | e :: rest =>
      let pageNumber := pageNameToPageNumber (entry_Name e) in
      if entry_IsDir e || (pageNumber =? -1) then
        import_entries folderPath doujinId rest importedPages
      else
        _ <- Exec (insert_page doujinId (path_Join folderPath (entry_Name e))
                               pageNumber) ;;
        import_entries folderPath doujinId rest
                       (importedPages ++ [pageNumber])%list
  end.

Definition RegisterDoujin (folderPath : string) (folder : Folder) : M unit :=
  let filePath := path_Join folderPath "metadata.json" in
  match folder_metadata folder with
  | OpenFails oserr =>
      fail (Errorf ("Failed to open file `" ++ filePath ++ "`: " ++ oserr))
  | DecodeFails jsonerr =>
      fail (Errorf ("Failed to decode JSON file `" ++ filePath ++ "`: " ++ jsonerr))
  | Decoded doujinMeta =>
      doujinId <-
        (fun w =>
           let id := next_rowid (map doujin_id (Doujins (db w)))
                                (seq_Doujins (db w)) in
           match sqlExec
                   "INSERT INTO Doujins (title, subtitle, upload_date, external_rating, tags, characters, artists, groups, languages, pages) VALUES (?, ?, ?, ?, ?, ?, ?, ?, ?, ?)"
                   (insert_doujin doujinMeta) w with
           | (Ok _, w1) => (Ok id, w1)
           | (Err e, w1) => (Err e, w1)
           | (Panic, w1) => (Panic, w1)
           end) ;;
      match folder_listing folder with
      | ReadDirFails oserr =>
          fail (Errorf ("Failed to read directory `" ++ folderPath ++ "`: " ++ oserr))
      | Listing entries =>
          in_transaction (
            importedPages <- import_entries folderPath doujinId entries [] ;;
            let found := Z.of_nat (List.length importedPages) in
            if found <? meta_Pages doujinMeta then
              fail (Errorf ("Some pages are missing in the folder (found "
                            ++ itoa found ++ " out of "
                            ++ itoa (meta_Pages doujinMeta) ++ ")"))
            else if found >? meta_Pages doujinMeta then
              fail (Errorf ("The folder contains to many pages (found "
                            ++ itoa found ++ " out of "
                            ++ itoa (meta_Pages doujinMeta) ++ ")"))
            else
              match first_gap 0 (sort_Ints importedPages) with
              | Some (expected, pageNumber) =>
                  fail (Errorf ("The pages in the folder are not sequential (expected page "
                                ++ itoa expected ++ ", found "
                                ++ itoa pageNumber ++ ")"))
              | None => tx_Commit
              end)
      end
  end.

(** * Properties *)

(** ** base64 *)

Lemma encode_at_base64 (i : Z) : is_base64_char (encode_at (Z.land i 63)) = true.
Proof.
  assert (Hr : 0 <= Z.land i 63 < 64).
  { change 63 with (Z.ones 6). rewrite Z.land_ones by lia.
    apply Z.mod_pos_bound. reflexivity. }
  assert (Hall : forallb (fun n => is_base64_char (encode_at (Z.of_nat n)))
                         (seq 0 64) = true) by reflexivity.
  rewrite forallb_forall in Hall.
  specialize (Hall (Z.to_nat (Z.land i 63))).
  rewrite Z2Nat.id in Hall by lia.
  apply Hall. apply in_seq. lia.
Qed.

(** Induction three bytes at a time, as the encoder consumes its input. *)
Lemma triples_ind (P : list byte -> Prop) :
  P [] -> (forall a, P [a]) -> (forall a b, P [a; b]) ->
  (forall a b c rest, P rest -> P (a :: b :: c :: rest)) ->
  forall l, P l.
Proof.
  intros H0 H1 H2 H3 l.
  assert (H : P l /\ (forall a, P (a :: l)) /\ (forall a b, P (a :: b :: l))).
  { induction l as [| c l IH].
    - repeat split; auto.
    - destruct IH as (IHa & IHb & IHc). repeat split; auto. }
  apply H.
Qed.

Lemma base64_chars_alphabet (bs : list byte) :
  forallb is_base64_char (base64_chars bs) = true.
Proof.
  induction bs as [| a | a b | a b c rest IH] using triples_ind.
  - reflexivity.
  - cbn [base64_chars forallb]. rewrite !encode_at_base64. reflexivity.
  - cbn [base64_chars forallb]. rewrite !encode_at_base64. reflexivity.
  - cbn [base64_chars forallb]. rewrite !encode_at_base64, IH. reflexivity.
Qed.

Lemma base64encode_text (bs : list byte) : base64_text (base64encode bs) = true.
Proof.
  unfold base64_text, base64encode, chars.
  rewrite list_ascii_of_string_of_list_ascii. apply base64_chars_alphabet.
Qed.

(** The encoding of [n] bytes is [4 * ceil (n / 3)] characters long. *)
Lemma base64_chars_length (bs : list byte) :
  Z.of_nat (List.length (base64_chars bs))
  = 4 * ((Z.of_nat (List.length bs) + 2) / 3).
Proof.
  induction bs as [| a | a b | a b c rest IH] using triples_ind.
  - reflexivity.
  - reflexivity.
  - reflexivity.
  - cbn [base64_chars List.length].
    rewrite !Nat2Z.inj_succ, IH.
    replace (Z.succ (Z.succ (Z.succ (Z.of_nat (List.length rest)))) + 2)
      with (Z.of_nat (List.length rest) + 2 + 1 * 3) by lia.
    rewrite Z.div_add by lia. lia.
Qed.

Lemma string_of_list_ascii_length (l : list ascii) :
  String.length (string_of_list_ascii l) = List.length l.
Proof. induction l as [| c l IH]; simpl; congruence. Qed.

Lemma base64encode_length (bs : list byte) :
  slen (base64encode bs) = 4 * ((Z.of_nat (List.length bs) + 2) / 3).
Proof.
  unfold slen, base64encode. rewrite string_of_list_ascii_length.
  apply base64_chars_length.
Qed.

(** ** The session-token ledger *)

(** What the model asks of [encoding/json]: a list of lists of base64 text
    is read back as it was written, and no encoding is the empty text. *)
Hypothesis json_roundtrip :
  forall l : list (list string),
    Forall (Forall (fun s => base64_text s = true)) l ->
    json_Unmarshal (json_Marshal l) = Some l.

Hypothesis json_Marshal_nonempty :
  forall l : list (list string), json_Marshal l <> "".

(** An entry as [AppendNew] writes it: a (hash, salt) pair of base64 text. *)
Definition entry_ok (t : list string) : Prop :=
  List.length t = 2%nat /\ Forall (fun s => base64_text s = true) t.

(** The (hash, salt) pair and the raw token [AppendNew] makes when the
    random stream stands at [pos]. *)
Definition fresh_token (pos : nat) : string :=
  fst (randomString SessionTokenLength pos).

Definition fresh_entry (pos : nat) : list string :=
  let '(token, pos1) := randomString SessionTokenLength pos in
  let '(salt, _) := randomString PasswordSaltLength pos1 in
  [hashToken token salt; salt].

(** One step of a history of the ledger; a failed call leaves the receiver
    as it was. *)
Inductive ledger_op : Type :=
| OpAppendNew
| OpRemoveToken (token : string).

Definition run_op (st : SessionTokens * nat) (op : ledger_op)
  : SessionTokens * nat :=
  match op with
  | OpAppendNew =>
      match AppendNew (fst st) (snd st) with
      | (Ok (_, newTokens), pos) => (newTokens, pos)
      | (_, pos) => (fst st, pos)
      end
  | OpRemoveToken token =>
      match RemoveToken (fst st) token with
      | Ok newTokens => (newTokens, snd st)
      | _ => (fst st, snd st)
      end
  end.

Definition run_ops (ops : list ledger_op) (st : SessionTokens * nat)
  : SessionTokens * nat :=
  fold_left run_op ops st.

Lemma ToSlice_jsonEncode (l : list (list string)) :
  Forall entry_ok l -> ToSlice (jsonEncode l) = Ok l.
Proof.
  intros Hl. unfold ToSlice, jsonEncode.
  destruct (String.eqb_spec (json_Marshal l) "") as [E | _].
  - now apply json_Marshal_nonempty in E.
  - rewrite json_roundtrip; [reflexivity |].
    eapply Forall_impl; [| exact Hl]. intros t Ht. apply Ht.
Qed.

Lemma NewSessionTokens_ok (l : list (list string)) :
  Forall entry_ok l -> NewSessionTokens l = Ok (jsonEncode l).
Proof.
  intros Hl. unfold NewSessionTokens.
  replace (forallb _ l) with true; [reflexivity |].
  symmetry. apply forallb_forall. intros t Ht.
  rewrite Forall_forall in Hl. destruct (Hl t Ht) as [E _].
  now apply Nat.eqb_eq.
Qed.

Lemma fresh_entry_ok (pos : nat) : entry_ok (fresh_entry pos).
Proof.
  unfold fresh_entry, randomString, hashToken. split; [reflexivity |].
  repeat constructor; apply base64encode_text.
Qed.

Lemma entry_matches_fresh (pos : nat) :
  entry_matches (fresh_token pos) (fresh_entry pos) = Ok true.
Proof.
  unfold fresh_entry, fresh_token, randomString, entry_matches. cbn [fst].
  now rewrite String.eqb_refl.
Qed.

(** The list [AppendNew] stores, given the list it read. *)
Definition appended (l : list (list string)) (pos : nat) : list (list string) :=
  let l' := (l ++ [fresh_entry pos])%list in
  if Z.of_nat (List.length l') >=? MaxTokensPerUser then tl l' else l'.

Lemma appended_ok (l : list (list string)) (pos : nat) :
  Forall entry_ok l -> Forall entry_ok (appended l pos).
Proof.
  intros Hl. unfold appended.
  assert (H : Forall entry_ok (l ++ [fresh_entry pos])).
  { apply Forall_app. split; [exact Hl |].
    constructor; [apply fresh_entry_ok | constructor]. }
  destruct (_ >=? _); [| exact H].
  destruct (l ++ [fresh_entry pos])%list; [constructor |].
  now inversion H.
Qed.

Lemma AppendNew_spec (tokens : SessionTokens) (l : list (list string)) (pos : nat) :
  ToSlice tokens = Ok l -> Forall entry_ok l ->
  AppendNew tokens pos
  = (Ok (fresh_token pos, jsonEncode (appended l pos)),
     (pos + Z.to_nat SessionTokenLength + Z.to_nat PasswordSaltLength)%nat).
Proof.
  intros Hs Hl. unfold AppendNew. rewrite Hs.
  pose proof (appended_ok l pos Hl) as Hok.
  unfold appended, fresh_entry, fresh_token in *.
  unfold randomString in *. cbn [fst] in *.
  cbv zeta in *.
  rewrite (NewSessionTokens_ok _ Hok). reflexivity.
Qed.

Lemma appended_length (l : list (list string)) (pos : nat) :
  Z.of_nat (List.length (appended l pos))
  = if Z.of_nat (List.length l) + 1 >=? MaxTokensPerUser
    then Z.of_nat (List.length l) else Z.of_nat (List.length l) + 1.
Proof.
  unfold appended. rewrite length_app. cbn [List.length].
  replace (Z.of_nat (List.length l + 1)) with (Z.of_nat (List.length l) + 1) by lia.
  destruct (_ >=? _) eqn:E.
  - destruct l; cbn [app tl List.length]; [reflexivity |].
    rewrite length_app. cbn [List.length]. lia.
  - rewrite length_app. cbn [List.length]. lia.
Qed.

(** A ledger of [MaxTokensPerUser - 1] entries, the longest [AppendNew]
    ever stores, already loses its oldest entry at the next call. *)
Lemma appended_at_longest (l : list (list string)) (pos : nat) :
  Z.of_nat (List.length l) = MaxTokensPerUser - 1 ->
  appended l pos = tl (l ++ [fresh_entry pos])
  /\ Z.of_nat (List.length (appended l pos)) = MaxTokensPerUser - 1.
Proof.
  intros H. split.
  - unfold appended. rewrite length_app. cbn [List.length].
    replace (Z.of_nat (List.length l + 1) >=? MaxTokensPerUser) with true;
      [reflexivity |].
    symmetry. apply Z.geb_le. lia.
  - rewrite appended_length.
    replace (Z.of_nat (List.length l) + 1 >=? MaxTokensPerUser) with true;
      [exact H |].
    symmetry. apply Z.geb_le. lia.
Qed.

Lemma entry_matches_ok (token : string) (t : list string) :
  entry_ok t -> exists b, entry_matches token t = Ok b.
Proof.
  intros [Hlen _]. destruct t as [| h [| s [| x t]]]; try discriminate.
  eexists. reflexivity.
Qed.

Lemma find_token_spec (token : string) (l : list (list string)) (i : nat) :
  Forall entry_ok l ->
  (find_token token l i = Ok None /\ has_match token l = Ok false)
  \/ (exists j, (i <= j < i + List.length l)%nat
                /\ find_token token l i = Ok (Some j)
                /\ has_match token l = Ok true).
Proof.
  intros Hl. revert i. induction Hl as [| t l Ht Hl IH]; intros i.
  - left. split; reflexivity.
  - destruct (entry_matches_ok token t Ht) as [b Hb].
    cbn [find_token has_match]. rewrite Hb. cbn [res_bind].
    destruct b.
    + right. exists i. cbn [List.length]. repeat split; lia.
    + destruct (IH (S i)) as [[H1 H2] | (j & Hj & H1 & H2)].
      * left. now split.
      * right. exists j. cbn [List.length]. repeat split; try lia; assumption.
Qed.

Lemma slices_Delete1_ok (l : list (list string)) (i : nat) :
  Forall entry_ok l -> Forall entry_ok (slices_Delete1 l i).
Proof.
  intros Hl. unfold slices_Delete1. apply Forall_app. split.
  - rewrite Forall_forall in *. intros t Ht. apply Hl.
    eapply In_nth_error in Ht. destruct Ht as [n Hn].
    rewrite <- (firstn_skipn i l). apply in_or_app. left.
    eapply nth_error_In. exact Hn.
  - rewrite Forall_forall in *. intros t Ht. apply Hl.
    rewrite <- (firstn_skipn (S i) l). apply in_or_app. now right.
Qed.

Lemma slices_Delete1_length {A : Type} (l : list A) (i : nat) :
  (i < List.length l)%nat ->
  S (List.length (slices_Delete1 l i)) = List.length l.
Proof.
  intros Hi. unfold slices_Delete1.
  rewrite length_app, length_firstn, length_skipn. lia.
Qed.

Lemma RemoveToken_spec (tokens : SessionTokens) (token : string)
  (l : list (list string)) :
  ToSlice tokens = Ok l -> Forall entry_ok l ->
  (RemoveToken tokens token = Err SessionTokensErrorUnknownToken
   /\ has_match token l = Ok false)
  \/ (exists i, (i < List.length l)%nat
                /\ RemoveToken tokens token = Ok (jsonEncode (slices_Delete1 l i))).
Proof.
  intros Hs Hl. unfold RemoveToken. rewrite Hs. cbn [res_bind].
  destruct (find_token_spec token l 0 Hl) as [[H1 H2] | (j & Hj & H1 & _)].
  - left. rewrite H1. now split.
  - right. exists j. rewrite H1. cbn [res_bind]. split; [lia |].
    apply NewSessionTokens_ok. now apply slices_Delete1_ok.
Qed.

(** The invariant of the ledger: the stored text decodes to at most
    [MaxTokensPerUser - 1] well-formed entries. *)
Definition ledger_ok (tokens : SessionTokens) : Prop :=
  exists l, ToSlice tokens = Ok l /\ Forall entry_ok l
            /\ Z.of_nat (List.length l) <= MaxTokensPerUser - 1.

Lemma ledger_ok_empty : ledger_ok "".
Proof. exists []. repeat split; [constructor | cbn; unfold MaxTokensPerUser; lia]. Qed.

Lemma run_op_ledger_ok (st : SessionTokens * nat) (op : ledger_op) :
  ledger_ok (fst st) -> ledger_ok (fst (run_op st op)).
Proof.
  intros (l & Hs & Hl & Hn). destruct op as [| token]; cbn [run_op].
  - rewrite (AppendNew_spec _ l _ Hs Hl). cbn [fst].
    exists (appended l (snd st)). split; [| split].
    + apply ToSlice_jsonEncode. now apply appended_ok.
    + now apply appended_ok.
    + rewrite appended_length. unfold MaxTokensPerUser in *.
      destruct (_ >=? _) eqn:E; lia.
  - destruct (RemoveToken_spec _ token l Hs Hl) as [[H _] | (i & Hi & H)];
      rewrite H; cbn [fst].
    + exists l. auto.
    + exists (slices_Delete1 l i). split; [| split].
      * apply ToSlice_jsonEncode. now apply slices_Delete1_ok.
      * now apply slices_Delete1_ok.
      * pose proof (slices_Delete1_length l i Hi). lia.
Qed.

Lemma run_ops_ledger_ok (ops : list ledger_op) (st : SessionTokens * nat) :
  ledger_ok (fst st) -> ledger_ok (fst (run_ops ops st)).
Proof.
  revert st. induction ops as [| op ops IH]; intros st H; [exact H |].
  cbn [run_ops fold_left]. apply IH. now apply run_op_ledger_ok.
Qed.

(** C2. [AppendNew] stores the list it read with the new (hash, salt) pair
    appended and, when that list has [MaxTokensPerUser] entries or more,
    without its first entry; hence from the empty ledger, after any
    sequence of [AppendNew] and [RemoveToken] calls, the stored list has at
    most [MaxTokensPerUser - 1] entries. *)
Theorem ledger_never_full :
  (forall tokens l pos,
      ToSlice tokens = Ok l -> Forall entry_ok l ->
      exists token newTokens pos',
        AppendNew tokens pos = (Ok (token, newTokens), pos')
        /\ ToSlice newTokens
           = Ok (if Z.of_nat (List.length (l ++ [fresh_entry pos])) >=? MaxTokensPerUser
                 then tl (l ++ [fresh_entry pos])
                 else (l ++ [fresh_entry pos])%list))
  /\ (forall ops pos,
         exists l, ToSlice (fst (run_ops ops (""%string, pos))) = Ok l
                   /\ Z.of_nat (List.length l) <= MaxTokensPerUser - 1).
Proof.
  split.
  - intros tokens l pos Hs Hl. do 3 eexists. split.
    + apply (AppendNew_spec _ l _ Hs Hl).
    + apply ToSlice_jsonEncode. now apply appended_ok.
  - intros ops pos.
    destruct (run_ops_ledger_ok ops (""%string, pos) ledger_ok_empty)
      as (l & Hs & _ & Hn).
    now exists l.
Qed.

(** ** Statements *)

Lemma statement_runs (w : World) :
  io_fault (io_pos w) = None -> statement w = (Ok tt, tick w).
Proof. intros H. unfold statement. now rewrite H. Qed.

Lemma statement_db (w : World) : db (snd (statement w)) = db w.
Proof. unfold statement. now destruct (io_fault (io_pos w)). Qed.

Lemma QueryRow_first {R : Type} (rows : Database -> list R) (w : World)
  (r : R) (rs : list R) :
  io_fault (io_pos w) = None -> rows (db w) = r :: rs ->
  QueryRow rows w = (Ok r, tick w).
Proof.
  intros Hf Hr. unfold QueryRow, bind. rewrite (statement_runs w Hf).
  cbn [db tick]. now rewrite Hr.
Qed.

Lemma QueryRow_no_rows {R : Type} (rows : Database -> list R) (w : World) :
  io_fault (io_pos w) = None -> rows (db w) = [] ->
  QueryRow rows w = (Err sql_ErrNoRows, tick w).
Proof.
  intros Hf Hr. unfold QueryRow, bind. rewrite (statement_runs w Hf).
  cbn [db tick]. now rewrite Hr.
Qed.

Lemma QueryRow_fault {R : Type} (rows : Database -> list R) (w : World)
  (msg : string) :
  io_fault (io_pos w) = Some msg ->
  QueryRow rows w = (Err (SqlFailure msg), tick w).
Proof. intros Hf. unfold QueryRow, bind, statement. now rewrite Hf. Qed.

Lemma Exec_runs (change : Database -> Database) (w : World) :
  io_fault (io_pos w) = None ->
  Exec change w = (Ok tt, set_db (tick w) (change (db w))).
Proof.
  intros Hf. unfold Exec, bind. now rewrite (statement_runs w Hf).
Qed.

Lemma sqlExec_runs (query : string) (change : Database -> Database) (w : World) :
  io_fault (io_pos w) = None ->
  sqlExec query change w = (Ok tt, set_db (tick w) (change (db w))).
Proof. intros Hf. unfold sqlExec. now rewrite (Exec_runs change w Hf). Qed.

(** ** Users *)

Definition with_session_tokens (tokens : string) (u : UserRow) : UserRow :=
  mkUser (user_id u) (username u) (password_hash u) (password_salt u) tokens.

Lemma users_named_update (tokens name : string) (d : Database) :
  users_named name (update_session_tokens tokens name d)
  = map (with_session_tokens tokens) (users_named name d).
Proof.
  unfold users_named, update_session_tokens. cbn [Users].
  induction (Users d) as [| u us IH]; [reflexivity |].
  cbn [map filter]. destruct (nocase_eqb (username u) name) eqn:E.
  - cbn [username]. rewrite E. cbn [map]. now rewrite IH.
  - rewrite E. exact IH.
Qed.

Lemma has_match_app_false (token : string) (l1 l2 : list (list string)) :
  has_match token l1 = Ok false ->
  has_match token (l1 ++ l2) = has_match token l2.
Proof.
  induction l1 as [| t l1 IH]; intros H; [reflexivity |].
  cbn [app has_match] in *.
  destruct (entry_matches token t) as [[|] | |]; cbn [res_bind] in *;
    try discriminate.
  now apply IH.
Qed.

Lemma has_match_app_true (token : string) (l1 l2 : list (list string)) :
  has_match token l1 = Ok true -> has_match token (l1 ++ l2) = Ok true.
Proof.
  induction l1 as [| t l1 IH]; intros H; [discriminate |].
  cbn [app has_match] in *.
  destruct (entry_matches token t) as [[|] | |]; cbn [res_bind] in *;
    try discriminate; [reflexivity |].
  now apply IH.
Qed.

Lemma authenticateUser_spec (name token : string) (w : World) (row : UserRow)
  (others : list UserRow) (b : bool) :
  io_fault (io_pos w) = None ->
  users_named name (db w) = row :: others ->
  HasToken (session_tokens row) token = Ok b ->
  authenticateUser name token w
  = (if b then Ok (user_id row) else Err (DbError DatabaseErrorInvalidToken),
     tick w).
Proof.
  intros Hf Hu Hh. unfold authenticateUser, bind, rename_error.
  rewrite (QueryRow_first _ w row others Hf Hu).
  unfold lift. rewrite Hh. now destruct b.
Qed.

Lemma LoginUser_spec (name password : string) (w : World) (row : UserRow)
  (others : list UserRow) (l : list (list string)) :
  io_fault (io_pos w) = None -> io_fault (S (io_pos w)) = None ->
  users_named name (db w) = row :: others ->
  hashPassword password (password_salt row) = password_hash row ->
  ToSlice (session_tokens row) = Ok l -> Forall entry_ok l ->
  LoginUser name password w
  = (Ok (fresh_token (rand_pos w)),
     mkWorld (update_session_tokens (jsonEncode (appended l (rand_pos w)))
                                    name (db w))
             (rand_pos w + Z.to_nat SessionTokenLength
              + Z.to_nat PasswordSaltLength)%nat
             (S (S (io_pos w)))).
Proof.
  intros Hf1 Hf2 Hu Hp Hs Hl. unfold LoginUser, bind at 1, rename_error.
  rewrite (QueryRow_first _ w row others Hf1 Hu).
  rewrite Hp, String.eqb_refl. cbn [negb]. unfold bind at 1.
  cbn [tick rand_pos db io_pos].
  rewrite (AppendNew_spec _ l _ Hs Hl). unfold bind.
  rewrite sqlExec_runs by exact Hf2. reflexivity.
Qed.


(** ** Registration *)

Lemma nocase_eqb_true (a b : string) :
  nocase_eqb a b = true <-> map tolower (chars a) = map tolower (chars b).
Proof.
  unfold nocase_eqb.
  destruct (list_eq_dec ascii_dec _ _) as [E | N]; split; intros H;
    try assumption; try reflexivity; try discriminate.
  contradiction.
Qed.

Lemma nocase_eqb_sym (a b : string) : nocase_eqb a b = nocase_eqb b a.
Proof.
  destruct (nocase_eqb a b) eqn:E1, (nocase_eqb b a) eqn:E2; try reflexivity.
  - apply nocase_eqb_true in E1. symmetry in E1.
    apply nocase_eqb_true in E1. congruence.
  - apply nocase_eqb_true in E2. symmetry in E2.
    apply nocase_eqb_true in E2. congruence.
Qed.

Definition allowed_char (c : ascii) : bool :=
  existsb (Ascii.eqb c) allowedCharacters.

(** Folding keeps a character inside or outside the allowed set. *)
Lemma allowed_char_tolower (c : ascii) :
  allowed_char (tolower c) = allowed_char c.
Proof.
  destruct c as [[|] [|] [|] [|] [|] [|] [|] [|]]; reflexivity.
Qed.

Lemma allowed_chars_nocase (l1 l2 : list ascii) :
  map tolower l1 = map tolower l2 ->
  forallb allowed_char l1 = forallb allowed_char l2.
Proof.
  revert l2. induction l1 as [| c l1 IH]; intros [| c2 l2] H;
    try discriminate; [reflexivity |].
  cbn [map] in H. injection H as Hc Hl. cbn [forallb].
  rewrite (IH l2 Hl).
  rewrite <- (allowed_char_tolower c), <- (allowed_char_tolower c2), Hc.
  reflexivity.
Qed.

Lemma chars_length (s : string) : List.length (chars s) = String.length s.
Proof. induction s as [| c s IH]; simpl; congruence. Qed.

(** A valid user name stays valid in any casing. *)
Lemma isUsernameValid_nocase (a b : string) :
  nocase_eqb a b = true -> isUsernameValid a = isUsernameValid b.
Proof.
  intros H. apply nocase_eqb_true in H. unfold isUsernameValid, slen.
  assert (Hlen : String.length a = String.length b).
  { rewrite <- !chars_length, <- (length_map tolower (chars a)), H.
    apply length_map. }
  rewrite Hlen. destruct (_ <? 1); [reflexivity |].
  now apply allowed_chars_nocase.
Qed.

Lemma users_named_insert (name name2 hash salt tokens : string) (d : Database) :
  nocase_eqb name name2 = true ->
  users_named name2 (insert_user name hash salt tokens d)
  = (users_named name2 d
     ++ [mkUser (next_rowid (map user_id (Users d)) (seq_Users d))
                name hash salt tokens])%list.
Proof.
  intros H. unfold users_named, insert_user. cbn [Users].
  rewrite filter_app. cbn [filter username]. now rewrite H.
Qed.

Lemma RegisterUser_spec (name password : string) (w : World) :
  isUsernameValid name = true -> isPasswordValid password = true ->
  users_named name (db w) = [] ->
  io_fault (io_pos w) = None -> io_fault (S (io_pos w)) = None ->
  let salt := fst (randomString PasswordSaltLength (rand_pos w)) in
  RegisterUser name password w
  = (Ok tt,
     mkWorld (insert_user name (hashPassword password salt) salt "" (db w))
             (rand_pos w + Z.to_nat PasswordSaltLength)%nat
             (S (S (io_pos w)))).
Proof.
  intros Hu Hp Hn Hf1 Hf2 salt. unfold RegisterUser.
  rewrite Hu, Hp. cbn [negb].
  rewrite (QueryRow_no_rows _ w Hf1 Hn).
  unfold randomString in *. cbn [fst] in salt.
  rewrite sqlExec_runs by exact Hf2. reflexivity.
Qed.

(** C7. With a valid name and a valid password the first registration of
    the name succeeds (the statements run); a second registration of the
    same name in any casing then returns [ExistentUser] and leaves the
    store as the first one left it. *)
Theorem register_twice_existent_user
  (w : World) (name password name2 password2 : string) :
  isUsernameValid name = true -> isPasswordValid password = true ->
  users_named name (db w) = [] ->
  nocase_eqb name2 name = true -> isPasswordValid password2 = true ->
  io_fault (io_pos w) = None -> io_fault (S (io_pos w)) = None ->
  io_fault (S (S (io_pos w))) = None ->
  exists w1 w2 row,
    RegisterUser name password w = (Ok tt, w1)
    /\ Users (db w1) = (Users (db w) ++ [row])%list
    /\ username row = name /\ session_tokens row = ""%string
    /\ RegisterUser name2 password2 w1
       = (Err (DbError DatabaseErrorExistentUser), w2)
    /\ db w2 = db w1.
Proof.
  intros Hu Hp Hn Hc Hp2 Hf1 Hf2 Hf3.
  pose proof (RegisterUser_spec name password w Hu Hp Hn Hf1 Hf2) as H1.
  cbv zeta in H1.
  eexists _, _, _. split; [exact H1 |]. cbn [db].
  split; [reflexivity |]. split; [reflexivity |]. split; [reflexivity |].
  unfold RegisterUser.
  rewrite (isUsernameValid_nocase name2 name Hc), Hu, Hp2. cbn [negb].
  erewrite QueryRow_first.
  - split; reflexivity.
  - exact Hf3.
  - cbn [db]. rewrite users_named_insert by now rewrite nocase_eqb_sym.
    rewrite nocase_eqb_sym in Hc.
    assert (E : users_named name2 (db w) = []).
    { unfold users_named in *.
      erewrite filter_ext; [exact Hn |]. intros u. cbn beta.
      destruct (nocase_eqb (username u) name) eqn:E1,
               (nocase_eqb (username u) name2) eqn:E2; try reflexivity;
        apply nocase_eqb_true in Hc;
        [apply nocase_eqb_true in E1 | apply nocase_eqb_true in E2];
        [assert (X : nocase_eqb (username u) name2 = true)
          by (apply nocase_eqb_true; congruence)
        | assert (X : nocase_eqb (username u) name = true)
          by (apply nocase_eqb_true; congruence)];
        congruence. }
    rewrite E. reflexivity.
Qed.

(** ** Logout *)

Lemma has_match_false_find (token : string) (l : list (list string)) (i : nat) :
  has_match token l = Ok false -> find_token token l i = Ok None.
Proof.
  revert i. induction l as [| t l IH]; intros i H; [reflexivity |].
  cbn [has_match find_token] in *.
  destruct (entry_matches token t) as [[|] | |]; cbn [res_bind] in *;
    try discriminate.
  now apply IH.
Qed.

(** C8. For an existing user and a token that verifies against none of the
    stored (hash, salt) entries, [LogoutUser] returns [InvalidToken] (the
    SELECT runs) and the store, the user's session-token list included, is
    the one it started from. *)
Theorem logout_unknown_token_keeps_list
  (w : World) (name token : string) (row : UserRow) (others : list UserRow)
  (l : list (list string)) :
  users_named name (db w) = row :: others ->
  ToSlice (session_tokens row) = Ok l ->
  has_match token l = Ok false ->
  io_fault (io_pos w) = None ->
  exists w',
    LogoutUser name token w = (Err (DbError DatabaseErrorInvalidToken), w')
    /\ db w' = db w
    /\ users_named name (db w') = row :: others
    /\ ToSlice (session_tokens row) = Ok l.
Proof.
  intros Hu Hs Hm Hf. eexists. split.
  - unfold LogoutUser, bind at 1, rename_error at 1.
    rewrite (QueryRow_first _ w row others Hf Hu).
    unfold bind, rename_error, lift, RemoveToken.
    rewrite Hs. cbn [res_bind].
    rewrite (has_match_false_find token l 0 Hm). cbn [res_bind].
    reflexivity.
  - cbn [db tick]. auto.
Qed.

(** ** IsAuthDataValid *)

Lemma has_match_no_error (token : string) (l : list (list string)) (e : error) :
  has_match token l <> Err e.
Proof.
  induction l as [| t l IH]; [discriminate |].
  cbn [has_match]. unfold entry_matches.
  destruct t as [| h [| s t']]; cbn [res_bind]; try discriminate.
  destruct (String.eqb _ h); [discriminate | exact IH].
Qed.

Lemma HasToken_error (tokens : SessionTokens) (token : string) (e : error) :
  HasToken tokens token = Err e ->
  e = SessionTokensErrorInvalidString
  /\ ToSlice tokens = Err SessionTokensErrorInvalidString.
Proof.
  unfold HasToken. destruct (ToSlice tokens) as [l | e' |] eqn:E;
    cbn [res_bind]; intros H.
  - now apply has_match_no_error in H.
  - injection H as <-. unfold ToSlice in E.
    destruct (String.eqb tokens ""); [discriminate |].
    destruct (json_Unmarshal tokens); [discriminate |].
    injection E as <-. split; reflexivity.
  - discriminate.
Qed.

(** C10. [IsAuthDataValid] returns false, and no error, when no user has
    the name and when the token is not in the user's ledger; it returns
    true when [authenticateUser] succeeds; and an error it returns is a
    failure of the storage: the driver failed on the SELECT, or the stored
    session-token text cannot be decoded. *)
Theorem IsAuthDataValid_total (w : World) (name token : string) :
  (io_fault (io_pos w) = None -> users_named name (db w) = [] ->
   fst (IsAuthDataValid name token w) = Ok false)
  /\ (forall row others,
         io_fault (io_pos w) = None ->
         users_named name (db w) = row :: others ->
         HasToken (session_tokens row) token = Ok false ->
         fst (IsAuthDataValid name token w) = Ok false)
  /\ (forall userId w',
         authenticateUser name token w = (Ok userId, w') ->
         IsAuthDataValid name token w = (Ok true, w'))
  /\ (forall e w',
         IsAuthDataValid name token w = (Err e, w') ->
         (exists msg, io_fault (io_pos w) = Some msg /\ e = SqlFailure msg)
         \/ (exists row others,
                users_named name (db w) = row :: others
                /\ ToSlice (session_tokens row)
                   = Err SessionTokensErrorInvalidString
                /\ e = SessionTokensErrorInvalidString)).
Proof.
  repeat split.
  - intros Hf Hn. unfold IsAuthDataValid, authenticateUser, bind, rename_error.
    rewrite (QueryRow_no_rows _ w Hf Hn). reflexivity.
  - intros row others Hf Hu Hh. unfold IsAuthDataValid.
    rewrite (authenticateUser_spec name token w row others false Hf Hu Hh).
    reflexivity.
  - intros userId w' H. unfold IsAuthDataValid. now rewrite H.
  - intros e w'. unfold IsAuthDataValid, authenticateUser, bind, rename_error.
    destruct (io_fault (io_pos w)) as [msg |] eqn:Hf.
    + rewrite (QueryRow_fault _ w msg Hf). cbn [is_ErrNoRows].
      intros H. injection H as <- _. left. now exists msg.
    + destruct (users_named name (db w)) as [| row others] eqn:Hu.
      * rewrite (QueryRow_no_rows _ w Hf Hu). cbn [is_ErrNoRows]. discriminate.
      * rewrite (QueryRow_first _ w row others Hf Hu). unfold lift.
        destruct (HasToken (session_tokens row) token) as [[|] | e' |] eqn:Hh;
          cbn [negb]; unfold fail, ret; try discriminate.
        destruct (HasToken_error _ _ _ Hh) as [-> Hs].
        intros H. injection H as <- _. right. now exists row, others.
Qed.

(** ** The register, login, getUsername scenario *)

Lemma max_id_bound (ids : list Z) (x : Z) : In x ids -> x <= max_id ids.
Proof.
  induction ids as [| y ids IH]; [intros [] |].
  intros [-> | H]; cbn [max_id fold_right]; [lia |].
  specialize (IH H). unfold max_id in IH. lia.
Qed.

Lemma next_rowid_fresh (ids : list Z) (sequence : Z) :
  ~ In (next_rowid ids sequence) ids.
Proof.
  intros H. apply max_id_bound in H. unfold next_rowid in H. lia.
Qed.

Lemma filter_none {A : Type} (f : A -> bool) (l : list A) :
  (forall x, In x l -> f x = false) -> filter f l = [].
Proof.
  induction l as [| a l IH]; intros H; [reflexivity |].
  cbn [filter]. rewrite (H a (or_introl eq_refl)).
  apply IH. intros x Hx. apply H. now right.
Qed.

Lemma fresh_token_length (pos : nat) : slen (fresh_token pos) = 40.
Proof.
  unfold fresh_token, randomString. cbn [fst].
  rewrite base64encode_length, length_map, length_seq. reflexivity.
Qed.

(** C9. Register "Ammie" with password "cats123" in a store that has no
    user of that name, log in, and ask for the user name as "ammie" with
    the token the login returned (all statements run): the token is 40
    characters long, and [GetUsername] returns "Ammie". *)
Theorem ammie_scenario (w : World) :
  users_named "Ammie" (db w) = [] ->
  (forall i, (i < 6)%nat -> io_fault (io_pos w + i)%nat = None) ->
  exists w1 token w2 w3,
    RegisterUser "Ammie" "cats123" w = (Ok tt, w1)
    /\ LoginUser "Ammie" "cats123" w1 = (Ok token, w2)
    /\ 40 <= slen token
    /\ GetUsername "ammie" token w2 = (Ok "Ammie"%string, w3).
Proof.
  intros Hn Hf.
  assert (Hf0 : io_fault (io_pos w) = None)
    by (rewrite <- (Nat.add_0_r (io_pos w)); apply Hf; lia).
  assert (Hfk : forall k, (k < 6)%nat ->
                          io_fault (Nat.iter k S (io_pos w)) = None).
  { intros k Hk. replace (Nat.iter k S (io_pos w)) with (io_pos w + k)%nat.
    - apply Hf. lia.
    - clear. induction k as [| k IH]; simpl; [lia | rewrite <- IH; lia]. }
  assert (Hf1 := Hfk 1%nat). assert (Hf2 := Hfk 2%nat).
  assert (Hf3 := Hfk 3%nat). assert (Hf4 := Hfk 4%nat).
  assert (Hf5 := Hfk 5%nat). simpl in Hf1, Hf2, Hf3, Hf4, Hf5.
  specialize (Hf1 ltac:(lia)). specialize (Hf2 ltac:(lia)).
  specialize (Hf3 ltac:(lia)). specialize (Hf4 ltac:(lia)).
  specialize (Hf5 ltac:(lia)). clear Hfk.
  pose proof (RegisterUser_spec "Ammie" "cats123" w eq_refl eq_refl Hn Hf0 Hf1) as H1.
  cbv zeta in H1.
  set (salt := fst (randomString PasswordSaltLength (rand_pos w))) in *.
  set (hash := hashPassword "cats123" salt) in *.
  set (id := next_rowid (map user_id (Users (db w))) (seq_Users (db w))).
  set (w1 := mkWorld (insert_user "Ammie" hash salt "" (db w))
                     (rand_pos w + Z.to_nat PasswordSaltLength)%nat
                     (S (S (io_pos w)))) in *.
  assert (Hrow : users_named "Ammie" (db w1) = [mkUser id "Ammie" hash salt ""]).
  { cbn [w1 db]. rewrite users_named_insert by reflexivity. now rewrite Hn. }
  pose proof (LoginUser_spec "Ammie" "cats123" w1 _ _ []
                Hf2 Hf3 Hrow eq_refl eq_refl (Forall_nil _)) as H2.
  set (stored := jsonEncode (appended [] (rand_pos w1))) in *.
  set (w2 := mkWorld (update_session_tokens stored "Ammie" (db w1))
                     (rand_pos w1 + Z.to_nat SessionTokenLength
                      + Z.to_nat PasswordSaltLength)%nat
                     (S (S (io_pos w1)))) in *.
  assert (Hrow2 : users_named "ammie" (db w2)
                  = [mkUser id "Ammie" hash salt stored]).
  { change (users_named "ammie" (db w2)) with (users_named "Ammie" (db w2)).
    cbn [w2 db]. rewrite users_named_update, Hrow. reflexivity. }
  assert (Hhas : HasToken stored (fresh_token (rand_pos w1)) = Ok true).
  { unfold HasToken, stored.
    rewrite ToSlice_jsonEncode by (apply appended_ok; constructor).
    cbn [res_bind].
    change (appended [] (rand_pos w1)) with [fresh_entry (rand_pos w1)].
    cbn [has_match]. now rewrite entry_matches_fresh. }
  exists w1, (fresh_token (rand_pos w1)), w2, (tick (tick w2)).
  split; [exact H1 |]. split; [exact H2 |]. split.
  - rewrite fresh_token_length. lia.
  - unfold GetUsername, bind at 1.
    rewrite (authenticateUser_spec "ammie" _ w2 _ _ true Hf4 Hrow2 Hhas).
    cbn [user_id]. unfold bind.
    rewrite (QueryRow_first _ _ (mkUser id "Ammie" hash salt stored) []);
      [reflexivity | exact Hf5 |].
    cbn [tick db w2 w1 update_session_tokens insert_user Users].
    fold id. rewrite map_app, filter_app. cbn [map filter username user_id].
    change (nocase_eqb "Ammie" "Ammie") with true. cbn iota.
    cbn [user_id]. rewrite Z.eqb_refl.
    rewrite filter_none; [reflexivity |].
    intros u Hu. apply in_map_iff in Hu. destruct Hu as (u0 & <- & Hu0).
    apply Z.eqb_neq. intros E.
    apply (next_rowid_fresh (map user_id (Users (db w))) (seq_Users (db w))).
    fold id. rewrite <- E. apply in_map_iff. exists u0. split; [| exact Hu0].
    destruct (nocase_eqb (username u0) "Ammie"); reflexivity.
Qed.

(** ** Import *)

(** The entries the import takes for pages, and their page numbers. *)
Definition is_page_file (e : DirEntry) : bool :=
  negb (entry_IsDir e || (pageNameToPageNumber (entry_Name e) =? -1)).

Definition page_numbers (entries : list DirEntry) : list Z :=
  map (fun e => pageNameToPageNumber (entry_Name e)) (filter is_page_file entries).

(** The store after the page rows of [entries] have been inserted. *)
Definition insert_pages (folderPath : string) (doujinId : Z)
  (entries : list DirEntry) (d : Database) : Database :=
  fold_left
    (fun d e => insert_page doujinId (path_Join folderPath (entry_Name e))
                            (pageNameToPageNumber (entry_Name e)) d)
    (filter is_page_file entries) d.

(** [a, a+1, ..., a+n-1] *)
Fixpoint count_from (a : Z) (n : nat) : list Z :=
  match n with
  | O => []
  | S n' => a :: count_from (a + 1) n'
  end.

(** The sequence 1..N. *)
Definition one_to (N : Z) : list Z := count_from 1 (Z.to_nat N).

(** What the checks after the loop answer for the collected numbers. *)
Definition page_checks (declared : Z) (importedPages : list Z) : res unit :=
  let found := Z.of_nat (List.length importedPages) in
  if found <? declared then
    Err (Errorf ("Some pages are missing in the folder (found "
                 ++ itoa found ++ " out of " ++ itoa declared ++ ")"))
  else if found >? declared then
    Err (Errorf ("The folder contains to many pages (found "
                 ++ itoa found ++ " out of " ++ itoa declared ++ ")"))
  else
    match first_gap 0 (sort_Ints importedPages) with
    | Some (expected, pageNumber) =>
        Err (Errorf ("The pages in the folder are not sequential (expected page "
                     ++ itoa expected ++ ", found " ++ itoa pageNumber ++ ")"))
    | None => Ok tt
    end.

Definition storage_works_from (n : nat) : Prop :=
  forall i, io_fault (n + i)%nat = None.

Lemma storage_works_next (n : nat) :
  storage_works_from n -> io_fault n = None /\ storage_works_from (S n).
Proof.
  intros H. split.
  - rewrite <- (Nat.add_0_r n). apply H.
  - intros i. replace (S n + i)%nat with (n + S i)%nat by lia. apply H.
Qed.

Lemma page_numbers_cons (e : DirEntry) (rest : list DirEntry) :
  page_numbers (e :: rest)
  = if is_page_file e
    then pageNameToPageNumber (entry_Name e) :: page_numbers rest
    else page_numbers rest.
Proof. unfold page_numbers. cbn [filter]. now destruct (is_page_file e). Qed.

Lemma insert_pages_cons (folderPath : string) (doujinId : Z) (e : DirEntry)
  (rest : list DirEntry) (d : Database) :
  insert_pages folderPath doujinId (e :: rest) d
  = if is_page_file e
    then insert_pages folderPath doujinId rest
           (insert_page doujinId (path_Join folderPath (entry_Name e))
                        (pageNameToPageNumber (entry_Name e)) d)
    else insert_pages folderPath doujinId rest d.
Proof. unfold insert_pages. cbn [filter]. now destruct (is_page_file e). Qed.

Lemma import_entries_runs (folderPath : string) (doujinId : Z)
  (entries : list DirEntry) (acc : list Z) (w : World) :
  storage_works_from (io_pos w) ->
  exists w',
    import_entries folderPath doujinId entries acc w
    = (Ok (acc ++ page_numbers entries)%list, w')
    /\ db w' = insert_pages folderPath doujinId entries (db w)
    /\ storage_works_from (io_pos w').
Proof.
  revert acc w. induction entries as [| e rest IH]; intros acc w Hw.
  - exists w. cbn. rewrite app_nil_r. auto.
  - cbn [import_entries]. rewrite page_numbers_cons, insert_pages_cons.
    unfold is_page_file at 1 2.
    destruct (entry_IsDir e || (pageNameToPageNumber (entry_Name e) =? -1)) eqn:E;
      cbn [negb].
    + apply IH. exact Hw.
    + destruct (storage_works_next _ Hw) as [Hf Hnext].
      unfold bind. rewrite (Exec_runs _ w Hf).
      destruct (IH (acc ++ [pageNameToPageNumber (entry_Name e)])%list
                   (set_db (tick w)
                      (insert_page doujinId (path_Join folderPath (entry_Name e))
                                   (pageNameToPageNumber (entry_Name e)) (db w))))
        as (w' & H1 & H2 & H3); [exact Hnext |].
      exists w'. rewrite H1. rewrite <- app_assoc. cbn [app].
      split; [reflexivity |]. split; [exact H2 | exact H3].
Qed.

(** The import when the storage works: the checks decide the answer, and
    only an accepted import keeps its page rows. *)
Lemma RegisterDoujin_runs (folderPath : string) (folder : Folder)
  (doujinMeta : DoujinImportMetadata) (entries : list DirEntry) (w : World) :
  folder_metadata folder = Decoded doujinMeta ->
  folder_listing folder = Listing entries ->
  storage_works_from (io_pos w) ->
  let doujinId := next_rowid (map doujin_id (Doujins (db w))) (seq_Doujins (db w)) in
  let verdict := page_checks (meta_Pages doujinMeta) (page_numbers entries) in
  exists w',
    RegisterDoujin folderPath folder w = (verdict, w')
    /\ db w'
       = match verdict with
         | Ok _ => insert_pages folderPath doujinId entries
                                (insert_doujin doujinMeta (db w))
         | _ => insert_doujin doujinMeta (db w)
         end.
Proof.
  intros Hm Hl Hw doujinId verdict. unfold RegisterDoujin. rewrite Hm, Hl.
  destruct (storage_works_next _ Hw) as [Hf0 Hw1].
  destruct (storage_works_next _ Hw1) as [Hf1 Hw2].
  unfold bind at 1. rewrite (sqlExec_runs _ _ w Hf0).
  unfold in_transaction, bind at 1.
  rewrite statement_runs by exact Hf1.
  destruct (import_entries_runs folderPath doujinId entries []
              (tick (set_db (tick w) (insert_doujin doujinMeta (db w)))))
    as (w3 & H1 & H2 & H3); [exact Hw2 |].
  unfold bind. fold doujinId. rewrite H1. cbn [app].
  unfold verdict, page_checks.
  destruct (_ <? _); [eexists; split; reflexivity |].
  destruct (_ >? _); [eexists; split; reflexivity |].
  destruct (first_gap 0 _) as [[expected pageNumber] |].
  - eexists; split; reflexivity.
  - unfold tx_Commit.
    destruct (storage_works_next _ H3) as [Hf3 _].
    rewrite statement_runs by exact Hf3.
    eexists; split; [reflexivity |]. cbn [db tick]. exact H2.
Qed.

Lemma count_from_length (a : Z) (n : nat) : List.length (count_from a n) = n.
Proof. revert a. induction n as [| n IH]; intros a; cbn; [| rewrite IH]; reflexivity. Qed.

Lemma first_gap_none (i : Z) (l : list Z) :
  first_gap i l = None <-> l = count_from (i + 1) (List.length l).
Proof.
  revert i. induction l as [| x l IH]; intros i; cbn [first_gap List.length count_from].
  - split; reflexivity.
  - destruct (i + 1 =? x) eqn:E; cbn [negb].
    + apply Z.eqb_eq in E. rewrite IH. subst x.
      split; intros H; [now rewrite <- H | now injection H].
    + apply Z.eqb_neq in E. split; [discriminate |].
      intros H. injection H as H _. congruence.
Qed.

(** The pair [first_gap] reports is the first place where the list leaves
    the sequence: before it the list is [i+1, i+2, ...]. *)
Lemma first_gap_some (i : Z) (l : list Z) (expected pageNumber : Z) :
  first_gap i l = Some (expected, pageNumber) ->
  exists j, (j < List.length l)%nat
            /\ firstn j l = count_from (i + 1) j
            /\ nth j l 0 = pageNumber
            /\ expected = i + 1 + Z.of_nat j
            /\ pageNumber <> expected.
Proof.
  revert i. induction l as [| x l IH]; intros i; cbn [first_gap]; [discriminate |].
  destruct (i + 1 =? x) eqn:E; cbn [negb].
  - apply Z.eqb_eq in E. intros H.
    destruct (IH (i + 1) H) as (j & Hj & Hfirst & Hnth & He & Hne).
    exists (S j). cbn [List.length firstn count_from nth].
    repeat split; try lia; try assumption. now rewrite Hfirst, E.
  - apply Z.eqb_neq in E. intros H. injection H as <- <-.
    exists 0%nat. cbn [List.length firstn count_from nth].
    repeat split; try lia; reflexivity.
Qed.

Lemma insert_int_perm (x : Z) (l : list Z) : Permutation (x :: l) (insert_int x l).
Proof.
  induction l as [| y l IH]; cbn [insert_int]; [reflexivity |].
  destruct (x <=? y); [reflexivity |].
  rewrite perm_swap. now constructor.
Qed.

Lemma sort_Ints_perm (l : list Z) : Permutation l (sort_Ints l).
Proof.
  induction l as [| x l IH]; cbn; [constructor |].
  rewrite <- insert_int_perm. now constructor.
Qed.

Lemma insert_int_sorted (x : Z) (l : list Z) :
  Sorted Z.le l -> Sorted Z.le (insert_int x l).
Proof.
  induction l as [| y l IH]; intros Hs; cbn [insert_int].
  - repeat constructor.
  - destruct (x <=? y) eqn:E.
    + apply Z.leb_le in E. constructor; [exact Hs | now constructor].
    + apply Z.leb_gt in E. inversion Hs as [| ? ? Hs' Hhd]; subst.
      constructor; [now apply IH |].
      destruct l as [| z l]; cbn [insert_int].
      * constructor. lia.
      * destruct (x <=? z); constructor; [lia |]. now inversion Hhd.
Qed.

Lemma sort_Ints_sorted (l : list Z) : Sorted Z.le (sort_Ints l).
Proof.
  induction l as [| x l IH]; cbn; [constructor | now apply insert_int_sorted].
Qed.

Lemma sort_Ints_length (l : list Z) : List.length (sort_Ints l) = List.length l.
Proof. symmetry. apply Permutation_length, sort_Ints_perm. Qed.

Lemma count_from_lower (a : Z) (n : nat) (x : Z) :
  In x (count_from a n) -> a <= x.
Proof.
  revert a. induction n as [| n IH]; intros a; cbn [count_from]; [intros [] |].
  intros [<- | H]; [lia |]. apply IH in H. lia.
Qed.

(** A sorted list with the elements of [a, a+1, ...] is that sequence. *)
Lemma sorted_perm_count_from (l : list Z) (a : Z) (n : nat) :
  Sorted Z.le l -> Permutation l (count_from a n) -> l = count_from a n.
Proof.
  revert l a. induction n as [| n IH]; intros l a Hs Hp; cbn [count_from] in *.
  - now apply Permutation_nil, Permutation_sym.
  - destruct l as [| x l].
    + apply Permutation_nil in Hp. discriminate.
    + assert (Hx : x = a).
      { assert (H1 : a <= x).
        { assert (Hin : In x (a :: count_from (a + 1) n))
            by (eapply Permutation_in; [exact Hp | now left]).
          destruct Hin as [-> | Hin]; [lia |].
          apply count_from_lower in Hin. lia. }
        assert (H2 : x <= a).
        { assert (Hin : In a (x :: l))
            by (eapply Permutation_in; [symmetry; exact Hp | now left]).
          destruct Hin as [-> | Hin]; [lia |].
          apply Sorted_StronglySorted in Hs; [| intros u v t; apply Z.le_trans].
          inversion Hs as [| ? ? _ Hall]; subst.
          rewrite Forall_forall in Hall. now apply Hall. }
        lia. }
      subst x. f_equal. apply IH.
      * now inversion Hs.
      * now apply Permutation_cons_inv in Hp.
Qed.

Lemma page_checks_accepts (declared : Z) (importedPages : list Z) :
  page_checks declared importedPages = Ok tt
  <-> 0 <= declared /\ sort_Ints importedPages = one_to declared.
Proof.
  unfold page_checks, one_to.
  destruct (Z.ltb_spec (Z.of_nat (List.length importedPages)) declared) as [Hlt | Hge].
  - split; [discriminate |]. intros [H0 H].
    apply (f_equal (@List.length Z)) in H.
    rewrite sort_Ints_length, count_from_length in H. lia.
  - destruct (Z.gtb_spec (Z.of_nat (List.length importedPages)) declared) as [Hgt | Hle].
    + split; [discriminate |]. intros [H0 H].
      apply (f_equal (@List.length Z)) in H.
      rewrite sort_Ints_length, count_from_length in H. lia.
    + assert (Hn : Z.to_nat declared = List.length (sort_Ints importedPages))
        by (rewrite sort_Ints_length; lia).
      destruct (first_gap 0 (sort_Ints importedPages)) as [[e f] |] eqn:G.
      * split; [discriminate |]. intros [_ H].
        rewrite Hn in H. apply (first_gap_none 0) in H. congruence.
      * split; [| reflexivity]. intros _. split; [lia |].
        rewrite Hn. now apply (first_gap_none 0).
Qed.

(** C4. An import whose metadata declares [N] pages (metadata and folder
    readable, the statements run): with fewer page files than [N] it fails
    with the "missing pages" error, with more with the "too many pages"
    error; with [N] files whose sorted numbers are not 1..N it fails with
    the "not sequential" error naming the expected and the found number at
    the first place the sorted numbers leave the sequence; and it returns
    without error, its page rows kept, exactly when the sorted numbers are
    1..N, that is when the numbers are 1..N in some order.  A failed import
    keeps no page row. *)
Theorem import_checks_page_sequence
  (w : World) (folderPath : string) (folder : Folder)
  (doujinMeta : DoujinImportMetadata) (entries : list DirEntry) :
  folder_metadata folder = Decoded doujinMeta ->
  folder_listing folder = Listing entries ->
  storage_works_from (io_pos w) ->
  let N := meta_Pages doujinMeta in
  let importedPages := page_numbers entries in
  let found := Z.of_nat (List.length importedPages) in
  let doujinId := next_rowid (map doujin_id (Doujins (db w))) (seq_Doujins (db w)) in
  exists r w',
    RegisterDoujin folderPath folder w = (r, w')
    /\ (found < N ->
        r = Err (Errorf ("Some pages are missing in the folder (found "
                         ++ itoa found ++ " out of " ++ itoa N ++ ")")))
    /\ (found > N ->
        r = Err (Errorf ("The folder contains to many pages (found "
                         ++ itoa found ++ " out of " ++ itoa N ++ ")")))
    /\ (found = N -> sort_Ints importedPages <> one_to N ->
        exists j expected pageNumber,
          (j < List.length importedPages)%nat
          /\ firstn j (sort_Ints importedPages) = one_to (Z.of_nat j)
          /\ expected = Z.of_nat j + 1
          /\ nth j (sort_Ints importedPages) 0 = pageNumber
          /\ pageNumber <> expected
          /\ r = Err (Errorf ("The pages in the folder are not sequential (expected page "
                              ++ itoa expected ++ ", found " ++ itoa pageNumber ++ ")")))
    /\ (r = Ok tt <-> 0 <= N /\ sort_Ints importedPages = one_to N)
    /\ (r = Ok tt <-> 0 <= N /\ Permutation importedPages (one_to N))
    /\ (r = Ok tt ->
        db w' = insert_pages folderPath doujinId entries
                             (insert_doujin doujinMeta (db w)))
    /\ (r <> Ok tt -> DoujinPages (db w') = DoujinPages (db w)).
Proof.
  intros Hm Hl Hw N importedPages found doujinId.
  destruct (RegisterDoujin_runs folderPath folder doujinMeta entries w Hm Hl Hw)
    as (w' & Hrun & Hdb).
  fold N importedPages doujinId in Hrun, Hdb.
  exists (page_checks N importedPages), w'. split; [exact Hrun |].
  pose proof (page_checks_accepts N importedPages) as Hacc.
  split; [| split; [| split; [| split; [| split; [| split]]]]].
  - intros H. unfold page_checks. fold found.
    apply Z.ltb_lt in H. now rewrite H.
  - intros H. unfold page_checks. fold found.
    replace (found <? N) with false by (symmetry; apply Z.ltb_ge; lia).
    replace (found >? N) with true by (symmetry; apply Z.gtb_lt; lia).
    reflexivity.
  - intros Hn Hne. unfold page_checks. fold found.
    replace (found <? N) with false by (symmetry; apply Z.ltb_ge; lia).
    replace (found >? N) with false
      by (symmetry; rewrite Z.gtb_ltb; apply Z.ltb_ge; lia).
    destruct (first_gap 0 (sort_Ints importedPages)) as [[e f] |] eqn:G.
    + destruct (first_gap_some 0 _ e f G) as (j & Hj & Hfirst & Hnth & He & Hnef).
      exists j, e, f. rewrite sort_Ints_length in Hj.
      unfold one_to. rewrite Nat2Z.id.
      repeat split; try assumption; lia.
    + exfalso. apply Hne. apply (first_gap_none 0) in G.
      rewrite G, sort_Ints_length. unfold one_to. f_equal. unfold found in Hn. lia.
  - exact Hacc.
  - rewrite Hacc. split; intros [H0 H]; (split; [exact H0 |]).
    + rewrite <- H. apply sort_Ints_perm.
    + apply sorted_perm_count_from; [apply sort_Ints_sorted |].
      now rewrite <- sort_Ints_perm.
  - intros H. now rewrite H in Hdb.
  - intros H. rewrite Hdb.
    destruct (page_checks N importedPages) as [[] | e |]; [now elim H | |];
      reflexivity.
Qed.

(** The foreign key of DoujinPages: every page row belongs to a doujin. *)
Definition pages_have_doujins (d : Database) : Prop :=
  forall p, In p (DoujinPages d) -> In (page_doujin_id p) (map doujin_id (Doujins d)).

(** C5. An import that got as far as opening its transaction and then
    fails, in a page insert, in the page checks or in the commit, leaves
    the store as it was when the transaction opened: the page rows are the
    ones from before the import, and the doujin row inserted before the
    transaction is still there; where page rows belong to doujins, it is a
    doujin without any page. *)
Theorem failed_import_leaves_orphan_doujin
  (w w' : World) (folderPath : string) (folder : Folder)
  (doujinMeta : DoujinImportMetadata) (entries : list DirEntry) (e : error) :
  folder_metadata folder = Decoded doujinMeta ->
  folder_listing folder = Listing entries ->
  io_fault (io_pos w) = None -> io_fault (S (io_pos w)) = None ->
  RegisterDoujin folderPath folder w = (Err e, w') ->
  let doujinId := next_rowid (map doujin_id (Doujins (db w))) (seq_Doujins (db w)) in
  db w' = insert_doujin doujinMeta (db w)
  /\ DoujinPages (db w') = DoujinPages (db w)
  /\ (exists row, Doujins (db w') = (Doujins (db w) ++ [row])%list
                  /\ doujin_id row = doujinId /\ pages row = meta_Pages doujinMeta)
  /\ (pages_have_doujins (db w) ->
      filter (fun p => page_doujin_id p =? doujinId) (DoujinPages (db w')) = []).
Proof.
  intros Hm Hl Hf0 Hf1 Hrun doujinId.
  assert (Hdb : db w' = insert_doujin doujinMeta (db w)).
  { unfold RegisterDoujin in Hrun. rewrite Hm, Hl in Hrun.
    unfold bind at 1 in Hrun. rewrite (sqlExec_runs _ _ w Hf0) in Hrun.
    unfold in_transaction, bind at 1 in Hrun.
    rewrite statement_runs in Hrun by exact Hf1.
    match type of Hrun with
    | (match ?body with _ => _ end) = _ => destruct body as [[u | e' |] w3]
    end; try discriminate.
    injection Hrun as _ <-. reflexivity. }
  split; [exact Hdb |]. rewrite Hdb. cbn [insert_doujin DoujinPages Doujins].
  split; [reflexivity |]. split.
  - eexists. split; [reflexivity |]. split; reflexivity.
  - intros Hfk. apply filter_none. intros p Hp. apply Z.eqb_neq. intros E.
    apply (next_rowid_fresh (map doujin_id (Doujins (db w))) (seq_Doujins (db w))).
    fold doujinId. rewrite <- E. now apply Hfk.
Qed.

(** ** The page count in float64 *)

Lemma ilog2_ratio_scale (t n d : Z) :
  0 < t -> 0 < n -> 0 < d -> ilog2_ratio (t * n) (t * d) = ilog2_ratio n d.
Proof.
  intros Ht Hn Hd. unfold ilog2_ratio.
  assert (E : (t * d <=? t * n) = (d <=? n)).
  { destruct (Z.leb_spec d n) as [H | H].
    - apply Z.leb_le. nia.
    - apply Z.leb_gt. nia. }
  rewrite E. rewrite Z.div_mul_cancel_l by lia.
  replace (- (t * d)) with (t * - d) by ring.
  rewrite Z.div_mul_cancel_l by lia. reflexivity.
Qed.

Lemma round_ratio_scale (t n d : Z) :
  0 < t -> 0 < n -> 0 < d -> round_ratio (t * n) (t * d) = round_ratio n d.
Proof.
  intros Ht Hn Hd. unfold round_ratio.
  rewrite ilog2_ratio_scale by assumption.
  set (e := ilog2_ratio n d - 52).
  assert (Ha : 0 < 2 ^ Z.max 0 (- e)) by (apply Z.pow_pos_nonneg; lia).
  assert (Hb : 0 < 2 ^ Z.max 0 e) by (apply Z.pow_pos_nonneg; lia).
  replace (t * n * 2 ^ Z.max 0 (- e)) with (t * (n * 2 ^ Z.max 0 (- e))) by ring.
  replace (t * d * 2 ^ Z.max 0 e) with (t * (d * 2 ^ Z.max 0 e)) by ring.
  set (N := n * 2 ^ Z.max 0 (- e)). set (D := d * 2 ^ Z.max 0 e).
  assert (HD : 0 < D) by (unfold D; nia).
  rewrite Z.div_mul_cancel_l by lia.
  rewrite Z.mul_mod_distr_l by lia.
  replace (2 * (t * (N mod D))) with (t * (2 * (N mod D))) by ring.
  assert (Hcmp : (t * (2 * (N mod D)) ?= t * D) = (2 * (N mod D) ?= D)).
  { destruct (Z.compare_spec (2 * (N mod D)) D);
      [apply Z.compare_eq_iff | apply Z.compare_lt_iff | apply Z.compare_gt_iff];
      nia. }
  rewrite Hcmp. reflexivity.
Qed.

Lemma float64_of_int_exact (c : Z) :
  1 <= c < 2 ^ 53 ->
  float64_of_int c = (c * 2 ^ (52 - Z.log2 c), Z.log2 c - 52).
Proof.
  intros Hc. unfold float64_of_int, round_ratio, ilog2_ratio.
  replace (1 <=? c) with true by (symmetry; apply Z.leb_le; lia).
  rewrite Z.div_1_r.
  assert (HL : 0 <= Z.log2 c < 53).
  { split; [apply Z.log2_nonneg |]. apply Z.log2_lt_pow2; lia. }
  replace (Z.max 0 (- (Z.log2 c - 52))) with (52 - Z.log2 c) by lia.
  replace (Z.max 0 (Z.log2 c - 52)) with 0 by lia.
  change (1 * 2 ^ 0) with 1. rewrite Z.div_1_r, Z.mod_1_r. reflexivity.
Qed.

Lemma float64_div_exact_operands (c p : Z) :
  1 <= c < 2 ^ 53 -> 1 <= p < 2 ^ 53 ->
  float64_div (float64_of_int c) (float64_of_int p) = round_ratio c p.
Proof.
  intros Hc Hp. rewrite !float64_of_int_exact by assumption.
  unfold float64_div.
  assert (HLc : 0 <= Z.log2 c < 53)
    by (split; [apply Z.log2_nonneg | apply Z.log2_lt_pow2; lia]).
  assert (HLp : 0 <= Z.log2 p < 53)
    by (split; [apply Z.log2_nonneg | apply Z.log2_lt_pow2; lia]).
  destruct (Z.le_gt_cases (Z.log2 p) (Z.log2 c)) as [H | H].
  - replace (Z.max 0 (Z.log2 c - 52 - (Z.log2 p - 52))) with (Z.log2 c - Z.log2 p) by lia.
    replace (Z.max 0 (Z.log2 p - 52 - (Z.log2 c - 52))) with 0 by lia.
    rewrite <- Z.mul_assoc, <- Z.pow_add_r by lia.
    replace (52 - Z.log2 c + (Z.log2 c - Z.log2 p)) with (52 - Z.log2 p) by lia.
    rewrite Z.pow_0_r, Z.mul_1_r.
    rewrite (Z.mul_comm c), (Z.mul_comm p).
    apply round_ratio_scale; try lia; apply Z.pow_pos_nonneg; lia.
  - replace (Z.max 0 (Z.log2 c - 52 - (Z.log2 p - 52))) with 0 by lia.
    replace (Z.max 0 (Z.log2 p - 52 - (Z.log2 c - 52))) with (Z.log2 p - Z.log2 c) by lia.
    rewrite <- (Z.mul_assoc p), <- Z.pow_add_r by lia.
    replace (52 - Z.log2 p + (Z.log2 p - Z.log2 c)) with (52 - Z.log2 c) by lia.
    rewrite Z.pow_0_r, Z.mul_1_r.
    rewrite (Z.mul_comm c), (Z.mul_comm p).
    apply round_ratio_scale; try lia; apply Z.pow_pos_nonneg; lia.
Qed.

(** The exponent of the quotient leaves room for the divisor. *)
Lemma ilog2_ratio_room (c p : Z) :
  1 <= c < 2 ^ 53 -> 1 <= p < 2 ^ 53 ->
  ilog2_ratio c p <= 52 /\ p < 2 * 2 ^ (52 - ilog2_ratio c p).
Proof.
  intros Hc Hp. unfold ilog2_ratio.
  destruct (Z.leb_spec p c) as [H | H].
  - assert (Hq : 1 <= c / p) by (apply Z.div_le_lower_bound; lia).
    assert (Hqc : p * (c / p) <= c) by (apply Z.mul_div_le; lia).
    destruct (Z.log2_spec (c / p)) as [Hlo _]; [lia |].
    assert (Hk : 0 <= Z.log2 (c / p) < 53).
    { split; [apply Z.log2_nonneg |]. apply Z.log2_lt_pow2; nia. }
    split; [lia |].
    assert (E : 2 ^ 53 = 2 ^ Z.log2 (c / p) * (2 * 2 ^ (52 - Z.log2 (c / p)))).
    { rewrite <- (Z.pow_succ_r 2) by lia. rewrite <- Z.pow_add_r by lia.
      f_equal. lia. }
    assert (0 < 2 ^ Z.log2 (c / p)) by (apply Z.pow_pos_nonneg; lia).
    nia.
  - pose proof (Z.log2_up_nonneg (- (- p / c))) as Hk.
    split; [lia |].
    assert (2 ^ 52 <= 2 ^ (52 - - Z.log2_up (- (- p / c))))
      by (apply Z.pow_le_mono_r; lia).
    lia.
Qed.

(** Rounding moves the scaled quotient by at most one half. *)
Lemma nearest_even_bounds (N D : Z) :
  0 < D ->
  let m := match 2 * (N mod D) ?= D with
           | Lt => N / D
           | Gt => N / D + 1
           | Eq => if Z.even (N / D) then N / D else N / D + 1
           end in
  2 * N - D <= 2 * D * m <= 2 * N + D.
Proof.
  intros HD m. pose proof (Z.div_mod N D ltac:(lia)) as Hdm.
  pose proof (Z.mod_pos_bound N D HD) as Hr. subst m.
  destruct (Z.compare_spec (2 * (N mod D)) D) as [H | H | H].
  - destruct (Z.even (N / D)); nia.
  - nia.
  - nia.
Qed.

Lemma round_ratio_ceil (c p : Z) :
  1 <= c < 2 ^ 53 -> 1 <= p < 2 ^ 53 ->
  math_Ceil_to_int (round_ratio c p) = (c + p - 1) / p.
Proof.
  intros Hc Hp. destruct (ilog2_ratio_room c p Hc Hp) as [Hk Hroom].
  unfold round_ratio. set (k := ilog2_ratio c p) in *.
  replace (Z.max 0 (- (k - 52))) with (52 - k) by lia.
  replace (Z.max 0 (k - 52)) with 0 by lia.
  rewrite Z.pow_0_r, Z.mul_1_r.
  set (E := 2 ^ (52 - k)) in *.
  assert (HE : 0 < E) by (apply Z.pow_pos_nonneg; lia).
  pose proof (nearest_even_bounds (c * E) p ltac:(lia)) as Hm. cbv zeta in Hm.
  set (m := match 2 * ((c * E) mod p) ?= p with
            | Lt => c * E / p
            | Gt => c * E / p + 1
            | Eq => if Z.even (c * E / p) then c * E / p else c * E / p + 1
            end) in *.
  set (T := (c + p - 1) / p).
  assert (HT : p * (T - 1) < c <= p * T).
  { pose proof (Z.div_mod (c + p - 1) p ltac:(lia)) as Hdm.
    pose proof (Z.mod_pos_bound (c + p - 1) p ltac:(lia)) as Hr.
    fold T in Hdm. lia. }
  assert (Hup : c * E <= p * (T * E)) by nia.
  assert (Hlo : (p * (T - 1) + 1) * E <= c * E) by nia.
  assert (Hm1 : m <= T * E) by nia.
  assert (Hm2 : (T - 1) * E < m) by nia.
  unfold math_Ceil_to_int.
  destruct (Z.leb_spec 0 (k - 52)) as [H0 | H0].
  - replace (k - 52) with 0 by lia. rewrite Z.pow_0_r.
    assert (E = 1) by (unfold E; replace (52 - k) with 0 by lia; reflexivity).
    nia.
  - replace (- (k - 52)) with (52 - k) by lia. fold E.
    assert (Hq : - T = - m / E).
    { apply (Z.div_unique (- m) E (- T) (- m + T * E)); [left; nia | ring]. }
    rewrite <- Hq. lia.
Qed.

(** The model rounds as the machine does, also where rounding shows. *)
Example round_ratio_as_machine :
  forallb (fun '(a, b) =>
             same_double (machine_quotient a b)
                         (float64_div (float64_of_int a) (float64_of_int b)))
          [(1, 3); (7, 3); (100, 21); (2, 3); (5, 7); (99, 100); (1, 100);
           (9007199254740991, 100); (9007199254740992, 3);
           (9007199254740993, 2); (18014398509481985, 1);
           (18014398509481987, 1); (18014398509481986, 3);
           (36028797018963969, 7); (123456789012345678, 97);
           (4611686018427387904, 3)]
  = true.
Proof. vm_compute. reflexivity. Qed.

(** Beyond 2^53 the float64 page count can differ from the exact one. *)
Example float64_ceil_div_inexact :
  float64_ceil_div 9007199254740993 2 = 4503599627370496
  /\ (9007199254740993 + 2 - 1) / 2 = 4503599627370497.
Proof. split; vm_compute; reflexivity. Qed.

(** For every count a table can hold and every page size, the float64
    computation of the page count is the exact ceiling of the quotient. *)
Lemma float64_ceil_div_exact (count pageSize : Z) :
  1 <= count < 2 ^ 53 -> 1 <= pageSize < 2 ^ 53 ->
  float64_ceil_div count pageSize = (count + pageSize - 1) / pageSize.
Proof.
  intros Hc Hp. unfold float64_ceil_div.
  rewrite float64_div_exact_operands by assumption.
  now apply round_ratio_ceil.
Qed.

(** ** Search *)

(** The filter of a search, read off the three inputs: the text is found
    in the title or the subtitle, every wanted tag is among the doujin's
    tags and no unwanted tag is. *)
Definition search_matches (query : string) (wanted unwanted : list string)
  (d : DoujinRow) : bool :=
  (sql_like (title d) ("%" ++ escapeSqlLike query ++ "%")
   || sql_like (subtitle d) ("%" ++ escapeSqlLike query ++ "%"))
  && forallb (fun t => existsb (String.eqb t) (tags d)) wanted
  && forallb (fun t => negb (existsb (String.eqb t) (tags d))) unwanted.

Definition tag_filters (wanted unwanted : list string) : list (bool * SqlValue) :=
  (map (fun t => (true, SqlText t)) wanted
   ++ map (fun t => (false, SqlText t)) unwanted)%list.

(** The least [t] with [a <= b * t]. *)
Definition ceil_div (a b : Z) : Z := (a + b - 1) / b.

Lemma ceil_div_spec (a b : Z) :
  0 < b -> b * (ceil_div a b - 1) < a <= b * ceil_div a b.
Proof.
  intros Hb. unfold ceil_div.
  pose proof (Z.div_mod (a + b - 1) b ltac:(lia)).
  pose proof (Z.mod_pos_bound (a + b - 1) b Hb). lia.
Qed.

Lemma bind_clauses_tags (wanted unwanted : list string)
  (fs : list SqlFragment) (ps : list SqlValue) :
  bind_clauses
    (map (fun _ => AND_EXISTS_TAG) wanted
     ++ map (fun _ => AND_NOT_EXISTS_TAG) unwanted ++ fs)%list
    (map SqlText wanted ++ map SqlText unwanted ++ ps)%list
  = match bind_clauses fs ps with
    | Some (cl, pg) => Some ((tag_filters wanted unwanted ++ cl)%list, pg)
    | None => None
    end.
Proof.
  unfold tag_filters. induction wanted as [| t wanted IH]; cbn [map app].
  - induction unwanted as [| t unwanted IH]; cbn [map app].
    + now destruct (bind_clauses fs ps) as [[cl pg] |].
    + cbn [bind_clauses]. rewrite IH.
      now destruct (bind_clauses fs ps) as [[cl pg] |].
  - cbn [bind_clauses]. rewrite IH.
    now destruct (bind_clauses fs ps) as [[cl pg] |].
Qed.

Lemma bind_count_query (query : string) (wanted unwanted : list string)
  (pageSize pageNumber : Z) :
  bind_query (buildSearchQuery query wanted unwanted pageSize pageNumber true)
  = Some (mkBound true (SqlText ("%" ++ escapeSqlLike query ++ "%"))
                  (SqlText ("%" ++ escapeSqlLike query ++ "%"))
                  (tag_filters wanted unwanted) None).
Proof.
  unfold buildSearchQuery, bind_query. cbn [app].
  rewrite <- ?app_assoc. cbn [app].
  rewrite <- (app_nil_r (map (fun _ => AND_NOT_EXISTS_TAG) unwanted)).
  rewrite <- (app_nil_r (map SqlText unwanted)).
  rewrite bind_clauses_tags. cbn [bind_clauses]. now rewrite app_nil_r.
Qed.

Lemma bind_fetch_query (query : string) (wanted unwanted : list string)
  (pageSize pageNumber : Z) :
  bind_query (buildSearchQuery query wanted unwanted pageSize pageNumber false)
  = Some (mkBound false (SqlText ("%" ++ escapeSqlLike query ++ "%"))
                  (SqlText ("%" ++ escapeSqlLike query ++ "%"))
                  (tag_filters wanted unwanted)
                  (Some (SqlInt pageSize,
                         SqlInt (wrap64 (pageSize * wrap64 (pageNumber - 1)))))).
Proof.
  unfold buildSearchQuery, bind_query. cbn [app].
  rewrite <- ?app_assoc. cbn [app].
  rewrite bind_clauses_tags. cbn [bind_clauses]. now rewrite app_nil_r.
Qed.

Lemma tag_present (t : string) (l : list string) :
  existsb (sql_eq_text (SqlText t)) l = existsb (String.eqb t) l.
Proof.
  induction l as [| s l IH]; [reflexivity |].
  cbn [existsb sql_eq_text]. now rewrite IH, String.eqb_sym.
Qed.

Lemma tag_filters_hold (wanted unwanted : list string) (d : DoujinRow) :
  forallb (filter_holds d) (tag_filters wanted unwanted)
  = forallb (fun t => existsb (String.eqb t) (tags d)) wanted
    && forallb (fun t => negb (existsb (String.eqb t) (tags d))) unwanted.
Proof.
  unfold tag_filters. rewrite forallb_app. f_equal.
  - induction wanted as [| t l IH]; [reflexivity |].
    cbn [map forallb]. rewrite IH. unfold filter_holds at 1. cbn [fst snd].
    now rewrite tag_present.
  - induction unwanted as [| t l IH]; [reflexivity |].
    cbn [map forallb]. rewrite IH. unfold filter_holds at 1. cbn [fst snd].
    now rewrite tag_present.
Qed.

Lemma where_holds_matches (b : bool) (query : string)
  (wanted unwanted : list string) (pg : option (SqlValue * SqlValue))
  (d : DoujinRow) :
  where_holds (mkBound b (SqlText ("%" ++ escapeSqlLike query ++ "%"))
                       (SqlText ("%" ++ escapeSqlLike query ++ "%"))
                       (tag_filters wanted unwanted) pg) d
  = search_matches query wanted unwanted d.
Proof.
  unfold where_holds, search_matches.
  cbn [bq_title_pattern bq_subtitle_pattern bq_filters sql_text_of].
  now rewrite tag_filters_hold, andb_assoc.
Qed.


Lemma insert_desc_perm (x : DoujinRow) (l : list DoujinRow) :
  Permutation (x :: l) (insert_desc x l).
Proof.
  induction l as [| y l IH]; cbn [insert_desc]; [reflexivity |].
  destruct (String.leb (upload_date y) (upload_date x)); [reflexivity |].
  rewrite perm_swap. now constructor.
Qed.

Lemma order_by_upload_date_desc_perm (l : list DoujinRow) :
  Permutation l (order_by_upload_date_desc l).
Proof.
  induction l as [| x l IH]; cbn; [constructor |].
  rewrite <- insert_desc_perm. now constructor.
Qed.



Lemma wrap64_small (n : Z) : - 2 ^ 63 <= n < 2 ^ 63 -> wrap64 n = n.
Proof.
  intros H. unfold wrap64.
  rewrite Z.mod_small; [lia |].
  change (2 ^ 63) with 9223372036854775808 in H. lia.
Qed.

Lemma authenticateUser_world (name token : string) (w w1 : World) (r : res Z) :
  authenticateUser name token w = (r, w1) -> w1 = tick w.
Proof.
  unfold authenticateUser, bind, rename_error, QueryRow, bind, statement, lift.
  destruct (io_fault (io_pos w)).
  - intros H. now injection H.
  - cbn [db tick]. destruct (users_named name (db w)) as [| row rows].
    + intros H. now injection H.
    + destruct (HasToken (session_tokens row) token) as [[|] | e |];
        cbn [negb]; unfold fail, ret; intros H; now injection H.
Qed.

(** The first page of a doujin, or 0. *)
Definition cover_of (d : Database) (row : DoujinRow) : Z :=
  hd 0 (cover_pages (doujin_id row) d).

Lemma collect_entries_runs (rows : list DoujinRow) (w : World) :
  storage_works_from (io_pos w) ->
  exists w',
    collect_entries rows w
    = (Ok (map (fun row => shape_entry row (cover_of (db w) row)) rows), w')
    /\ db w' = db w.
Proof.
  revert w. induction rows as [| row rows IH]; intros w Hw.
  - exists w. split; reflexivity.
  - destruct (storage_works_next _ Hw) as [Hf Hnext].
    cbn [collect_entries map]. unfold bind at 1, cover_page_id, cover_of.
    destruct (cover_pages (doujin_id row) (db w)) as [| id ids] eqn:E.
    + rewrite (QueryRow_no_rows _ w Hf E).
      destruct (IH (tick w) Hnext) as (w' & H1 & H2).
      unfold bind. rewrite H1. exists w'. split; [reflexivity | exact H2].
    + rewrite (QueryRow_first _ w id ids Hf E).
      destruct (IH (tick w) Hnext) as (w' & H1 & H2).
      unfold bind. rewrite H1. exists w'. split; [reflexivity | exact H2].
Qed.

(** What a search answers on a store where the caller is authenticated
    and the storage works. *)
Definition search_answer (d : Database) (query : string)
  (wanted unwanted : list string) (pageSize pageNumber : Z) : res SearchResult :=
  let matching := filter (search_matches query wanted unwanted) (Doujins d) in
  let count := Z.of_nat (List.length matching) in
  if count =? 0 then Ok SearchResult_zero
  else if pageNumber >? ceil_div count pageSize then
    Err (DbError DatabaseErrorInvalidPageNumber)
  else
    Ok (mkSearchResult
          (map (fun row => shape_entry row (cover_of d row))
               (firstn (Z.to_nat pageSize)
                       (skipn (Z.to_nat (pageSize * (pageNumber - 1)))
                              (order_by_upload_date_desc matching))))
          (ceil_div count pageSize)).

Lemma filter_where_matches (b : bool) (query : string)
  (wanted unwanted : list string) (pg : option (SqlValue * SqlValue))
  (table : list DoujinRow) :
  filter (where_holds (mkBound b (SqlText ("%" ++ escapeSqlLike query ++ "%"))
                               (SqlText ("%" ++ escapeSqlLike query ++ "%"))
                               (tag_filters wanted unwanted) pg)) table
  = filter (search_matches query wanted unwanted) table.
Proof. apply filter_ext. intros d. apply where_holds_matches. Qed.

Lemma SearchDoujins_runs (name token query : string)
  (wanted unwanted : list string) (pageSize pageNumber : Z)
  (w w1 : World) (userId : Z) :
  authenticateUser name token w = (Ok userId, w1) ->
  1 <= pageSize <= 100 -> 1 <= pageNumber ->
  storage_works_from (io_pos w1) ->
  Z.of_nat (List.length (filter (search_matches query wanted unwanted)
                                (Doujins (db w)))) < 2 ^ 53 ->
  exists w',
    SearchDoujins name token query wanted unwanted pageSize pageNumber w
    = (search_answer (db w) query wanted unwanted pageSize pageNumber, w')
    /\ db w' = db w.
Proof.
  intros Hauth Hps Hpn Hw Hcount.
  pose proof (authenticateUser_world _ _ _ _ _ Hauth) as Ew1.
  assert (Hdb1 : db w1 = db w) by (now subst w1).
  unfold SearchDoujins, bind at 1. rewrite Hauth.
  replace ((pageSize <? 1) || (pageSize >? 100)) with false
    by (symmetry; apply orb_false_iff; split;
        [apply Z.ltb_ge; lia | rewrite Z.gtb_ltb; apply Z.ltb_ge; lia]).
  replace (pageNumber <? 1) with false by (symmetry; apply Z.ltb_ge; lia).
  destruct (storage_works_next _ Hw) as [Hf1 Hw2].
  unfold bind at 1, query_count, bind at 1.
  rewrite (statement_runs w1 Hf1), bind_count_query. cbn [bq_count].
  unfold count_rows. rewrite filter_where_matches. cbn [db tick]. rewrite Hdb1.
  unfold search_answer.
  set (matching := filter (search_matches query wanted unwanted) (Doujins (db w))) in *.
  set (count := Z.of_nat (List.length matching)) in *.
  destruct (Z.eqb_spec count 0) as [H0 | H0].
  - replace (count <? 1) with true by (symmetry; apply Z.ltb_lt; lia).
    eexists. split; [reflexivity |]. exact Hdb1.
  - assert (Hc1 : 1 <= count) by (unfold count in *; lia).
    replace (count <? 1) with false by (symmetry; apply Z.ltb_ge; lia).
    rewrite float64_ceil_div_exact by lia.
    fold (ceil_div count pageSize).
    destruct (pageNumber >? ceil_div count pageSize) eqn:Hgt.
    + eexists. split; [reflexivity |]. exact Hdb1.
    + assert (Hle : pageNumber <= ceil_div count pageSize)
        by (rewrite Z.gtb_ltb in Hgt; apply Z.ltb_ge in Hgt; exact Hgt).
      pose proof (ceil_div_spec count pageSize ltac:(lia)) as Hceil.
      assert (Htot : ceil_div count pageSize <= count) by nia.
      destruct (storage_works_next _ Hw2) as [Hf2 Hw3].
      unfold bind at 1, query_rows, bind at 1.
      rewrite (statement_runs (tick w1) Hf2), bind_fetch_query. cbn [bq_count].
      unfold select_rows. rewrite filter_where_matches. cbn [bq_page db tick].
      rewrite Hdb1. fold matching. unfold limit_offset.
      rewrite (wrap64_small (pageNumber - 1)) by lia.
      rewrite wrap64_small by nia.
      replace (pageSize <? 0) with false by (symmetry; apply Z.ltb_ge; lia).
      destruct (collect_entries_runs
                  (firstn (Z.to_nat pageSize)
                          (skipn (Z.to_nat (pageSize * (pageNumber - 1)))
                                 (order_by_upload_date_desc matching)))
                  (tick (tick w1)) Hw3) as (w' & Hcol & Hdb').
      unfold bind. rewrite Hcol. cbn [db tick] in *. rewrite Hdb1 in *.
      exists w'. split; [reflexivity | exact Hdb'].
Qed.


(** ** Tag filters *)

Lemma existsb_eqb_In (t : string) (l : list string) :
  existsb (String.eqb t) l = true <-> In t l.
Proof.
  rewrite existsb_exists. split.
  - intros (x & Hx & E). apply String.eqb_eq in E. now subst.
  - intros H. exists t. split; [exact H | apply String.eqb_refl].
Qed.

Lemma search_matches_tags (query : string) (wanted unwanted : list string)
  (d : DoujinRow) :
  search_matches query wanted unwanted d = true ->
  (forall t, In t wanted -> In t (tags d))
  /\ (forall t, In t unwanted -> ~ In t (tags d)).
Proof.
  unfold search_matches. intros H.
  apply andb_true_iff in H. destruct H as [H Hun].
  apply andb_true_iff in H. destruct H as [_ Hw].
  rewrite forallb_forall in Hw, Hun. split.
  - intros t Ht. apply existsb_eqb_In. now apply Hw.
  - intros t Ht Hin. apply existsb_eqb_In in Hin.
    specialize (Hun t Ht). rewrite Hin in Hun. discriminate.
Qed.

Lemma In_firstn {A : Type} (n : nat) (l : list A) (x : A) :
  In x (firstn n l) -> In x l.
Proof.
  intros H. rewrite <- (firstn_skipn n l). apply in_or_app. now left.
Qed.

Lemma In_skipn {A : Type} (n : nat) (l : list A) (x : A) :
  In x (skipn n l) -> In x l.
Proof.
  intros H. rewrite <- (firstn_skipn n l). apply in_or_app. now right.
Qed.

(** The rows of a fetch are rows of the table that satisfy its WHERE
    clause. *)
Lemma select_rows_sound (q : BoundQuery) (table rows : list DoujinRow)
  (row : DoujinRow) :
  select_rows q table = Some rows -> In row rows ->
  In row table /\ where_holds q row = true.
Proof.
  unfold select_rows, limit_offset. intros H Hin.
  assert (Hm : In row (filter (where_holds q) table)).
  { destruct (bq_page q) as [[[s | lim] [s' | off]] |];
      try discriminate; injection H as <-; [| exact Hin].
    eapply Permutation_in;
      [symmetry; apply order_by_upload_date_desc_perm |].
    destruct (lim <? 0).
    - eapply In_skipn. exact Hin.
    - eapply In_skipn. eapply In_firstn. exact Hin. }
  now apply filter_In in Hm.
Qed.

Lemma statement_world (w w' : World) (r : res unit) :
  statement w = (r, w') -> w' = tick w.
Proof.
  unfold statement. destruct (io_fault (io_pos w)); intros H; now injection H.
Qed.

Lemma query_rows_sound (q : list SqlFragment * list SqlValue)
  (w w' : World) (rows : list DoujinRow) :
  query_rows q w = (Ok rows, w') ->
  db w' = db w
  /\ exists b, bind_query q = Some b
               /\ select_rows b (Doujins (db w)) = Some rows.
Proof.
  unfold query_rows, bind.
  destruct (statement w) as [[[] | e |] w1] eqn:Hs; try discriminate.
  apply statement_world in Hs. subst w1. cbn [db tick].
  destruct (bind_query q) as [b |]; [| discriminate].
  destruct (bq_count b); [discriminate |].
  destruct (select_rows b (Doujins (db w))) as [rs |] eqn:E; [| discriminate].
  intros H. injection H as <- <-. split; [reflexivity |].
  exists b. now split.
Qed.

Lemma collect_entries_sound (rows : list DoujinRow) (w w' : World)
  (entries : list Doujin) (e : Doujin) :
  collect_entries rows w = (Ok entries, w') -> In e entries ->
  exists row capePageId, In row rows /\ e = shape_entry row capePageId.
Proof.
  revert w w' entries. induction rows as [| row rows IH]; intros w w' entries.
  - cbn. intros H. injection H as <- _. intros [].
  - cbn [collect_entries]. unfold bind at 1.
    destruct (cover_page_id (doujin_id row) w) as [[cp | err |] w1];
      try discriminate.
    unfold bind at 1.
    destruct (collect_entries rows w1) as [[es | err |] w2] eqn:Hrest;
      try discriminate.
    unfold ret. intros H. injection H as <- _. intros [<- | Hin].
    + exists row, cp. split; [now left | reflexivity].
    + destruct (IH w1 w2 es Hrest Hin) as (row' & cp' & Hr & He).
      exists row', cp'. split; [now right | exact He].
Qed.

Lemma SearchDoujins_sound (name token query : string)
  (wanted unwanted : list string) (pageSize pageNumber : Z)
  (w w' : World) (result : SearchResult) (e : Doujin) :
  SearchDoujins name token query wanted unwanted pageSize pageNumber w
  = (Ok result, w') ->
  In e (Entries result) ->
  exists row capePageId,
    In row (Doujins (db w))
    /\ search_matches query wanted unwanted row = true
    /\ e = shape_entry row capePageId.
Proof.
  unfold SearchDoujins, bind at 1.
  destruct (authenticateUser name token w) as [[uid | err |] w1] eqn:Hauth;
    try discriminate.
  apply authenticateUser_world in Hauth.
  destruct ((pageSize <? 1) || (pageSize >? 100)); [discriminate |].
  destruct (pageNumber <? 1); [discriminate |].
  unfold bind at 1.
  destruct (query_count _ w1) as [[count | err |] w2] eqn:Hcount;
    try discriminate.
  assert (Hw2 : db w2 = db w).
  { unfold query_count, bind in Hcount.
    destruct (statement w1) as [[[] | err |] w1'] eqn:Hs; try discriminate.
    apply statement_world in Hs. subst w1' w1.
    destruct (bind_query _) as [b |]; [| discriminate].
    destruct (bq_count b); [| discriminate].
    now injection Hcount as _ <-. }
  destruct (count <? 1).
  - unfold ret. intros H. injection H as <- _. intros [].
  - destruct (pageNumber >? _); [discriminate |].
    unfold bind at 1.
    destruct (query_rows _ w2) as [[rows | err |] w3] eqn:Hrows;
      try discriminate.
    apply query_rows_sound in Hrows. destruct Hrows as (_ & b & Hb & Hsel).
    rewrite bind_fetch_query in Hb. injection Hb as <-.
    unfold bind at 1.
    destruct (collect_entries rows w3) as [[es | err |] w4] eqn:Hcol;
      try discriminate.
    unfold ret. intros H. injection H as <- _. cbn [Entries]. intros Hin.
    destruct (collect_entries_sound _ _ _ _ _ Hcol Hin) as (row & cp & Hr & He).
    destruct (select_rows_sound _ _ _ row Hsel Hr) as [Ht Hwhere].
    rewrite Hw2 in Ht. exists row, cp. split; [exact Ht |].
    split; [| exact He].
    rewrite <- (where_holds_matches false query wanted unwanted
                  (Some (SqlInt pageSize,
                         SqlInt (wrap64 (pageSize * wrap64 (pageNumber - 1)))))
                  row).
    exact Hwhere.
Qed.

Lemma like_match_percent (esc : ascii) (p t : list ascii) :
  like_match esc ("%"%char :: p) t
  = like_match esc p t
    || match t with
       | [] => false
       | _ :: t' => like_match esc ("%"%char :: p) t'
       end.
Proof. destruct t; reflexivity. Qed.

Lemma like_percent (esc : ascii) (t : list ascii) :
  like_match esc ["%"%char] t = true.
Proof.
  induction t as [| c t IH]; [reflexivity |].
  rewrite like_match_percent, IH. apply orb_true_r.
Qed.

(** The pattern of the empty query matches every text. *)
Lemma sql_like_any (text : string) : sql_like text "%%" = true.
Proof.
  unfold sql_like. change (chars "%%") with ["%"%char; "%"%char].
  now rewrite like_match_percent, like_percent.
Qed.

(** Every element of a list is on one of its pages. *)
Lemma page_covers {A : Type} (l : list A) (x : A) (pageSize : Z) :
  1 <= pageSize -> In x l ->
  exists pageNumber,
    1 <= pageNumber <= ceil_div (Z.of_nat (List.length l)) pageSize
    /\ In x (firstn (Z.to_nat pageSize)
                    (skipn (Z.to_nat (pageSize * (pageNumber - 1))) l)).
Proof.
  intros Hps Hin. apply In_nth_error in Hin. destruct Hin as [i Hi].
  assert (Hlen : (i < List.length l)%nat)
    by (apply nth_error_Some; congruence).
  pose proof (ceil_div_spec (Z.of_nat (List.length l)) pageSize ltac:(lia)) as Hc.
  pose proof (Z.div_mod (Z.of_nat i) pageSize ltac:(lia)) as Hdm.
  pose proof (Z.mod_pos_bound (Z.of_nat i) pageSize ltac:(lia)) as Hr.
  assert (Hq : 0 <= Z.of_nat i / pageSize) by (apply Z.div_pos; lia).
  exists (Z.of_nat i / pageSize + 1). split.
  - split; [lia |].
    assert (Z.of_nat i / pageSize < ceil_div (Z.of_nat (List.length l)) pageSize);
      [| lia].
    apply Z.div_lt_upper_bound; lia.
  - replace (Z.of_nat i / pageSize + 1 - 1) with (Z.of_nat i / pageSize) by lia.
    apply (nth_error_In _ (i - Z.to_nat (pageSize * (Z.of_nat i / pageSize)))%nat).
    rewrite nth_error_firstn.
    replace (_ <? Z.to_nat pageSize)%nat with true
      by (symmetry; apply Nat.ltb_lt; lia).
    rewrite nth_error_skipn.
    replace (Z.to_nat (pageSize * (Z.of_nat i / pageSize))
             + (i - Z.to_nat (pageSize * (Z.of_nat i / pageSize))))%nat
      with i by lia.
    exact Hi.
Qed.

(** C6. Every doujin a search returns has all the tags listed in [tags]
    among its stored tags and none of the tags listed in [antiTags].  A
    doujin tagged ["yuri", "romance"], with the empty query: it matches
    tags = ["yuri"] and is on one of the pages of that search (caller
    authenticated, the statements run); no search with antiTags = ["yuri"]
    and no search with tags = ["yaoi"] returns it. *)
Theorem tag_filters_select (name token : string) (w : World) :
  (forall query wanted unwanted pageSize pageNumber result w' e,
      SearchDoujins name token query wanted unwanted pageSize pageNumber w
      = (Ok result, w') ->
      In e (Entries result) ->
      (exists row, In row (Doujins (db w))
                   /\ Id e = doujin_id row /\ Tags e = tags row)
      /\ (forall t, In t wanted -> In t (Tags e))
      /\ (forall t, In t unwanted -> ~ In t (Tags e)))
  /\ (forall d,
         In d (Doujins (db w)) ->
         tags d = ["yuri"%string; "romance"%string] ->
         (search_matches "" ["yuri"%string] [] d = true
          /\ forall w1 userId pageSize,
               authenticateUser name token w = (Ok userId, w1) ->
               storage_works_from (io_pos w1) ->
               1 <= pageSize <= 100 ->
               Z.of_nat (List.length (Doujins (db w))) < 2 ^ 53 ->
               exists pageNumber result w',
                 SearchDoujins name token "" ["yuri"%string] []
                               pageSize pageNumber w = (Ok result, w')
                 /\ In (shape_entry d (cover_of (db w) d)) (Entries result))
         /\ (forall pageSize pageNumber result w' capePageId,
                SearchDoujins name token "" [] ["yuri"%string]
                              pageSize pageNumber w = (Ok result, w') ->
                ~ In (shape_entry d capePageId) (Entries result))
         /\ (forall pageSize pageNumber result w' capePageId,
                SearchDoujins name token "" ["yaoi"%string] []
                              pageSize pageNumber w = (Ok result, w') ->
                ~ In (shape_entry d capePageId) (Entries result))).
Proof.
  assert (Hsound :
            forall query wanted unwanted pageSize pageNumber result w' e,
              SearchDoujins name token query wanted unwanted pageSize pageNumber w
              = (Ok result, w') ->
              In e (Entries result) ->
              (exists row, In row (Doujins (db w))
                           /\ Id e = doujin_id row /\ Tags e = tags row)
              /\ (forall t, In t wanted -> In t (Tags e))
              /\ (forall t, In t unwanted -> ~ In t (Tags e))).
  { intros query wanted unwanted pageSize pageNumber result w' e Hrun Hin.
    destruct (SearchDoujins_sound _ _ _ _ _ _ _ _ _ _ _ Hrun Hin)
      as (row & cp & Hrow & Hm & ->).
    cbn [shape_entry Id Tags].
    destruct (search_matches_tags _ _ _ _ Hm) as [Hw Hu].
    split; [now exists row |]. now split. }
  split; [exact Hsound |].
  intros d Hd Htags.
  assert (Hyuri : search_matches "" ["yuri"%string] [] d = true).
  { unfold search_matches. change ("%" ++ escapeSqlLike "" ++ "%") with "%%".
    rewrite sql_like_any, Htags. reflexivity. }
  split; [split; [exact Hyuri |] | split].
  - intros w1 userId pageSize Hauth Hw Hps Hsize.
    set (matching := filter (search_matches "" ["yuri"%string] []) (Doujins (db w))).
    assert (Hcount : Z.of_nat (List.length matching) < 2 ^ 53).
    { pose proof (filter_length_le (search_matches "" ["yuri"%string] [])
                                   (Doujins (db w))).
      fold matching in H. lia. }
    assert (Hin : In d (order_by_upload_date_desc matching)).
    { eapply Permutation_in; [apply order_by_upload_date_desc_perm |].
      apply filter_In. now split. }
    destruct (page_covers _ d pageSize ltac:(lia) Hin) as (pn & Hpn & Hpage).
    rewrite <- (Permutation_length (order_by_upload_date_desc_perm matching)) in Hpn.
    destruct (SearchDoujins_runs name token "" ["yuri"%string] [] pageSize pn
                w w1 userId Hauth Hps ltac:(lia) Hw Hcount) as (w' & Hrun & _).
    unfold search_answer in Hrun. fold matching in Hrun.
    assert (Hpos : 0 < Z.of_nat (List.length matching)).
    { destruct matching; [destruct Hin | cbn [List.length]; lia]. }
    replace (Z.of_nat (List.length matching) =? 0) with false in Hrun
      by (symmetry; apply Z.eqb_neq; lia).
    replace (pn >? ceil_div (Z.of_nat (List.length matching)) pageSize)
      with false in Hrun
      by (symmetry; rewrite Z.gtb_ltb; apply Z.ltb_ge; lia).
    eexists pn, _, w'. split; [exact Hrun |]. cbn [Entries].
    apply in_map_iff. exists d. now split.
  - intros pageSize pageNumber result w' cp Hrun Hin.
    destruct (Hsound _ _ _ _ _ _ _ _ Hrun Hin) as (_ & _ & Hun).
    apply (Hun "yuri"%string); [now left |].
    cbn [shape_entry Tags]. rewrite Htags. now left.
  - intros pageSize pageNumber result w' cp Hrun Hin.
    destruct (Hsound _ _ _ _ _ _ _ _ Hrun Hin) as (_ & Hw & _).
    specialize (Hw "yaoi"%string (or_introl eq_refl)).
    cbn [shape_entry Tags] in Hw. rewrite Htags in Hw.
    destruct Hw as [E | [E | []]]; discriminate.
Qed.

(** ** The foreign key is kept

    Page rows belong to doujins in the empty store, and every import,
    accepted or failed, keeps it so. *)

Lemma empty_database_pages_have_doujins : pages_have_doujins empty_database.
Proof. intros p []. Qed.

Lemma insert_doujin_keeps_pages (m : DoujinImportMetadata) (d : Database) :
  pages_have_doujins d -> pages_have_doujins (insert_doujin m d).
Proof.
  intros H p Hp. cbn [insert_doujin DoujinPages Doujins] in *.
  rewrite map_app. apply in_or_app. left. now apply H.
Qed.

Lemma insert_page_keeps_pages (doujinId : Z) (pagePath : string)
  (pageNumber : Z) (d : Database) :
  In doujinId (map doujin_id (Doujins d)) ->
  pages_have_doujins d ->
  pages_have_doujins (insert_page doujinId pagePath pageNumber d).
Proof.
  intros Hid H p Hp. cbn [insert_page DoujinPages Doujins] in *.
  apply in_app_or in Hp. destruct Hp as [Hp | [<- | []]].
  - now apply H.
  - exact Hid.
Qed.

Lemma import_entries_keeps_pages (folderPath : string) (doujinId : Z)
  (entries : list DirEntry) (acc : list Z) (w w' : World) (r : res (list Z)) :
  import_entries folderPath doujinId entries acc w = (r, w') ->
  In doujinId (map doujin_id (Doujins (db w))) ->
  pages_have_doujins (db w) ->
  pages_have_doujins (db w').
Proof.
  revert acc w. induction entries as [| e rest IH]; intros acc w Hrun Hid Hw.
  - cbn in Hrun. now injection Hrun as _ <-.
  - cbn [import_entries] in Hrun.
    destruct (entry_IsDir e || (pageNameToPageNumber (entry_Name e) =? -1)).
    + exact (IH _ _ Hrun Hid Hw).
    + unfold bind at 1, Exec, bind, statement in Hrun.
      destruct (io_fault (io_pos w)).
      * now injection Hrun as _ <-.
      * apply (IH _ _ Hrun); cbn [db set_db tick].
        -- exact Hid.
        -- now apply insert_page_keeps_pages.
Qed.

Lemma in_transaction_keeps {A : Type} (body : M A) (P : Database -> Prop)
  (w w' : World) (r : res A) :
  in_transaction body w = (r, w') ->
  P (db w) ->
  (forall r2 w2, body (tick w) = (r2, w2) -> P (db w2)) ->
  P (db w').
Proof.
  unfold in_transaction, bind, statement. intros Hrun Hw Hbody.
  destruct (io_fault (io_pos w)); [now injection Hrun as _ <- |].
  destruct (body (tick w)) as [[a | e |] w2];
    injection Hrun as _ <-; [exact (Hbody _ _ eq_refl) | exact Hw | exact Hw].
Qed.

Lemma RegisterDoujin_keeps_pages (folderPath : string) (folder : Folder)
  (w w' : World) (r : res unit) :
  RegisterDoujin folderPath folder w = (r, w') ->
  pages_have_doujins (db w) -> pages_have_doujins (db w').
Proof.
  unfold RegisterDoujin. intros Hrun Hw.
  destruct (folder_metadata folder) as [oserr | jsonerr | doujinMeta];
    try (now injection Hrun as _ <-).
  unfold bind at 1, sqlExec, Exec, bind, statement in Hrun.
  destruct (io_fault (io_pos w)); [now injection Hrun as _ <- |].
  pose proof (insert_doujin_keeps_pages doujinMeta (db w) Hw) as Hw1.
  destruct (folder_listing folder) as [oserr | entries];
    [now injection Hrun as _ <- |].
  apply (in_transaction_keeps _ pages_have_doujins _ _ _ Hrun); [exact Hw1 |].
  intros r2 w2 Hbody. unfold fail in Hbody.
  match type of Hbody with
  | (match ?loop with _ => _ end) = _ =>
      destruct loop as [[importedPages | e |] w3] eqn:Hloop
  end.
  - assert (Hw3 : pages_have_doujins (db w3)).
    { eapply import_entries_keeps_pages; [exact Hloop | | exact Hw1].
      cbn [db tick set_db insert_doujin Doujins].
      rewrite map_app. apply in_or_app. right. now left. }
    destruct (_ <? _); [now injection Hbody as _ <- |].
    destruct (_ >? _); [now injection Hbody as _ <- |].
    destruct (first_gap 0 _) as [[expected pageNumber] |];
      [now injection Hbody as _ <- |].
    unfold tx_Commit in Hbody. destruct (statement w3) as [r3 w4] eqn:Hs.
    apply statement_world in Hs. injection Hbody as _ <-. now subst w4.
  - injection Hbody as _ <-.
    eapply import_entries_keeps_pages; [exact Hloop | | exact Hw1].
    cbn [db tick set_db insert_doujin Doujins].
    rewrite map_app. apply in_or_app. right. now left.
  - injection Hbody as _ <-.
    eapply import_entries_keeps_pages; [exact Hloop | | exact Hw1].
    cbn [db tick set_db insert_doujin Doujins].
    rewrite map_app. apply in_or_app. right. now left.
Qed.

(** ** The ledger invariant in the store

    In the empty store, and after every registration, login and logout,
    whatever statements fail, each user's stored ledger decodes to at most
    [MaxTokensPerUser - 1] well-formed entries. *)

Definition ledgers_ok (d : Database) : Prop :=
  Forall (fun u => ledger_ok (session_tokens u)) (Users d).

Lemma empty_database_ledgers_ok : ledgers_ok empty_database.
Proof. constructor. Qed.

Lemma update_session_tokens_ok (tokens name : string) (d : Database) :
  ledger_ok tokens -> ledgers_ok d ->
  ledgers_ok (update_session_tokens tokens name d).
Proof.
  unfold ledgers_ok, update_session_tokens. cbn [Users]. intros Ht Hd.
  apply Forall_map. eapply Forall_impl; [| exact Hd]. intros u Hu.
  now destruct (nocase_eqb (username u) name).
Qed.

Lemma users_named_ok (name : string) (d : Database) (row : UserRow)
  (others : list UserRow) :
  ledgers_ok d -> users_named name d = row :: others ->
  ledger_ok (session_tokens row).
Proof.
  unfold ledgers_ok, users_named. intros Hd Hu.
  rewrite Forall_forall in Hd. apply Hd.
  assert (Hin : In row (filter (fun u => nocase_eqb (username u) name) (Users d)))
    by (rewrite Hu; now left).
  now apply filter_In in Hin.
Qed.

Lemma QueryRow_result {R : Type} (rows : Database -> list R) (w w' : World) (r : R) :
  QueryRow rows w = (Ok r, w') ->
  w' = tick w /\ exists rs, rows (db w) = r :: rs.
Proof.
  unfold QueryRow, bind, statement.
  destruct (io_fault (io_pos w)); [discriminate |]. cbn [db tick].
  destruct (rows (db w)) as [| r0 rs]; [discriminate |].
  intros H. injection H as <- <-. split; [reflexivity | now exists rs].
Qed.

Lemma sqlExec_db (query : string) (change : Database -> Database)
  (w w' : World) (r : res unit) :
  sqlExec query change w = (r, w') ->
  db w' = db w \/ db w' = change (db w).
Proof.
  unfold sqlExec, Exec, bind, statement.
  destruct (io_fault (io_pos w)); intros H; injection H as _ <-; auto.
Qed.

Lemma RegisterUser_keeps_ledgers (name password : string) (w w' : World)
  (r : res unit) :
  RegisterUser name password w = (r, w') ->
  ledgers_ok (db w) -> ledgers_ok (db w').
Proof.
  unfold RegisterUser, fail. intros Hrun Hw.
  destruct (negb (isUsernameValid name)); [now injection Hrun as _ <- |].
  destruct (negb (isPasswordValid password)); [now injection Hrun as _ <- |].
  destruct (QueryRow (users_named name) w) as [[row | e |] w1] eqn:Hq.
  - apply QueryRow_result in Hq. destruct Hq as [-> _]. now injection Hrun as _ <-.
  - assert (Hw1 : db w1 = db w).
    { unfold QueryRow, bind, statement in Hq.
      destruct (io_fault (io_pos w)); [now injection Hq as _ <- |].
      cbn [db tick] in Hq.
      destruct (users_named name (db w)); now injection Hq as _ <-. }
    destruct e; try (injection Hrun as _ <-; now rewrite Hw1).
    unfold randomString in Hrun.
    apply sqlExec_db in Hrun. cbn [db] in Hrun.
    destruct Hrun as [-> | ->]; rewrite Hw1; [exact Hw |].
    unfold ledgers_ok, insert_user. cbn [Users].
    apply Forall_app. split; [exact Hw |].
    constructor; [apply ledger_ok_empty | constructor].
  - injection Hrun as _ <-.
    unfold QueryRow, bind, statement in Hq.
    destruct (io_fault (io_pos w)); [discriminate |].
    cbn [db tick] in Hq. destruct (users_named name (db w)); discriminate.
Qed.

Lemma appended_ledger_ok (l : list (list string)) (pos : nat) :
  Forall entry_ok l -> Z.of_nat (List.length l) <= MaxTokensPerUser - 1 ->
  ledger_ok (jsonEncode (appended l pos)).
Proof.
  intros Hl Hn. exists (appended l pos). split; [| split].
  - apply ToSlice_jsonEncode. now apply appended_ok.
  - now apply appended_ok.
  - rewrite appended_length. unfold MaxTokensPerUser in *.
    destruct (_ >=? _) eqn:E; lia.
Qed.

Lemma LoginUser_keeps_ledgers (name password : string) (w w' : World)
  (r : res string) :
  LoginUser name password w = (r, w') ->
  ledgers_ok (db w) -> ledgers_ok (db w').
Proof.
  unfold LoginUser, bind at 1, rename_error. intros Hrun Hw.
  destruct (QueryRow (users_named name) w) as [[row | e |] w1] eqn:Hq.
  - apply QueryRow_result in Hq. destruct Hq as [-> [others Hu]].
    pose proof (users_named_ok _ _ _ _ Hw Hu) as (l & Hs & Hl & Hn).
    destruct (negb _); [now injection Hrun as _ <- |].
    unfold bind at 1 in Hrun. cbn [tick rand_pos db io_pos] in Hrun.
    rewrite (AppendNew_spec _ l _ Hs Hl) in Hrun.
    unfold bind at 1 in Hrun.
    match type of Hrun with
    | (match ?upd with _ => _ end) = _ => destruct upd as [[[] | e |] w2] eqn:Hupd
    end; injection Hrun as _ <-;
      apply sqlExec_db in Hupd; cbn [db] in Hupd;
      (destruct Hupd as [-> | ->];
       [exact Hw | apply update_session_tokens_ok;
                   [now apply appended_ledger_ok | exact Hw]]).
  - injection Hrun as _ <-.
    unfold QueryRow, bind, statement in Hq.
    destruct (io_fault (io_pos w)); [now injection Hq as _ <- |].
    cbn [db tick] in Hq.
    destruct (users_named name (db w)); now injection Hq as _ <-.
  - injection Hrun as _ <-.
    unfold QueryRow, bind, statement in Hq.
    destruct (io_fault (io_pos w)); [discriminate |].
    cbn [db tick] in Hq. destruct (users_named name (db w)); discriminate.
Qed.

Lemma LogoutUser_keeps_ledgers (name token : string) (w w' : World)
  (r : res unit) :
  LogoutUser name token w = (r, w') ->
  ledgers_ok (db w) -> ledgers_ok (db w').
Proof.
  unfold LogoutUser, bind at 1, rename_error at 1. intros Hrun Hw.
  destruct (QueryRow (users_named name) w) as [[row | e |] w1] eqn:Hq.
  - apply QueryRow_result in Hq. destruct Hq as [-> [others Hu]].
    pose proof (users_named_ok _ _ _ _ Hw Hu) as (l & Hs & Hl & Hn).
    unfold bind, rename_error, lift in Hrun.
    destruct (RemoveToken_spec _ token l Hs Hl) as [[Hr _] | (i & Hi & Hr)];
      rewrite Hr in Hrun.
    + now injection Hrun as _ <-.
    + apply sqlExec_db in Hrun. cbn [db tick] in Hrun.
      destruct Hrun as [-> | ->]; [exact Hw |].
      apply update_session_tokens_ok; [| exact Hw].
      exists (slices_Delete1 l i). split; [| split].
      * apply ToSlice_jsonEncode. now apply slices_Delete1_ok.
      * now apply slices_Delete1_ok.
      * pose proof (slices_Delete1_length l i Hi). lia.
  - injection Hrun as _ <-.
    unfold QueryRow, bind, statement in Hq.
    destruct (io_fault (io_pos w)); [now injection Hq as _ <- |].
    cbn [db tick] in Hq.
    destruct (users_named name (db w)); now injection Hq as _ <-.
  - injection Hrun as _ <-.
    unfold QueryRow, bind, statement in Hq.
    destruct (io_fault (io_pos w)); [discriminate |].
    cbn [db tick] in Hq. destruct (users_named name (db w)); discriminate.
Qed.

(** * Further properties of the data layer

    The text part of the search, the page names of an import, the read
    operations on doujins and pages, the tag sets, and what every history
    of calls keeps true of the store. *)

(** ** The text filter of the search *)





Lemma chars_app (a b : string) : chars (a ++ b) = (chars a ++ chars b)%list.
Proof.
  unfold chars. induction a as [| c a IH]; cbn; [reflexivity | now rewrite IH].
Qed.






(** ** Page names *)

Definition all_digits (cs : list ascii) : bool := forallb is_digit cs.

(** The number a run of decimal digits writes. *)
Definition digits_value (cs : list ascii) (start : Z) : Z :=
  fold_left (fun n c => n * 10 + digit_val c) cs start.

Lemma digit_val_range (c : ascii) : is_digit c = true -> 0 <= digit_val c <= 9.
Proof.
  unfold is_digit, digit_val. intros H.
  apply andb_true_iff in H. destruct H as [H1 H2].
  apply N.leb_le in H1. apply N.leb_le in H2. lia.
Qed.

Lemma digits_value_lower (cs : list ascii) (n : Z) :
  all_digits cs = true -> 0 <= n -> n <= digits_value cs n.
Proof.
  revert n. induction cs as [| c cs IH]; intros n Hd Hn; cbn; [lia |].
  cbn in Hd. apply andb_true_iff in Hd. destruct Hd as [Hc Hd].
  pose proof (digit_val_range c Hc).
  etransitivity; [| apply IH]; [lia | exact Hd | lia].
Qed.

Lemma parseUint_loop_value (cs : list ascii) (n : Z) :
  0 <= n <= 4294967295 ->
  parseUint_loop cs n
  = if all_digits cs && (digits_value cs n <=? 4294967295)
    then Some (digits_value cs n) else None.
Proof.
  revert n. induction cs as [| c cs IH]; intros n Hn.
  - cbn. now replace (n <=? 4294967295) with true by (symmetry; apply Z.leb_le; lia).
  - cbn [parseUint_loop all_digits forallb digits_value fold_left].
    destruct (is_digit c) eqn:Hc; [| reflexivity].
    pose proof (digit_val_range c Hc) as Hv. cbn [andb].
    destruct (n * 10 + digit_val c >? 4294967295) eqn:Hgt.
    + apply Z.gtb_lt in Hgt.
      destruct (forallb is_digit cs) eqn:Hd; [| reflexivity].
      pose proof (digits_value_lower cs (n * 10 + digit_val c) Hd ltac:(lia)) as Hlow.
      unfold digits_value in Hlow. cbn [andb].
      now replace (_ <=? 4294967295) with false by (symmetry; apply Z.leb_gt; lia).
    + rewrite Z.gtb_ltb in Hgt. apply Z.ltb_ge in Hgt.
      apply IH. lia.
Qed.

(** X2. [pageNameToPageNumber] answers the number the file name writes
    before its extension when that part is a non-empty run of decimal
    digits whose value fits 32 bits, leading zeros allowed, and -1 in every
    other case: an empty name, a sign, a letter, or a number of 2^32 or
    more. *)
Theorem pageNameToPageNumber_spec (fileName : string) :
  let stem := chars (removeExtension fileName) in
  pageNameToPageNumber fileName
  = if negb (Nat.eqb (List.length stem) 0) && all_digits stem
       && (digits_value stem 0 <=? 4294967295)
    then digits_value stem 0 else -1.
Proof.
  cbv zeta. unfold pageNameToPageNumber, strconv_ParseUint32.
  destruct (chars (removeExtension fileName)) as [| c cs]; [reflexivity |].
  rewrite parseUint_loop_value by lia.
  cbn [List.length Nat.eqb negb andb].
  now destruct (all_digits (c :: cs) && _).
Qed.

(** The value of a decimal numeral read from the left, [acc] being the
    value of the digits already read. *)
Fixpoint uint_value (d : Decimal.uint) (acc : Z) : Z :=
  match d with
  | Decimal.Nil => acc
  | Decimal.D0 d => uint_value d (10 * acc)
  | Decimal.D1 d => uint_value d (10 * acc + 1)
  | Decimal.D2 d => uint_value d (10 * acc + 2)
  | Decimal.D3 d => uint_value d (10 * acc + 3)
  | Decimal.D4 d => uint_value d (10 * acc + 4)
  | Decimal.D5 d => uint_value d (10 * acc + 5)
  | Decimal.D6 d => uint_value d (10 * acc + 6)
  | Decimal.D7 d => uint_value d (10 * acc + 7)
  | Decimal.D8 d => uint_value d (10 * acc + 8)
  | Decimal.D9 d => uint_value d (10 * acc + 9)
  end.

Lemma uint_value_lower (d : Decimal.uint) (acc : Z) :
  0 <= acc -> acc <= uint_value d acc.
Proof.
  revert acc. induction d; intros acc H; cbn [uint_value]; try lia;
    (etransitivity; [| apply IHd]; lia).
Qed.

Lemma parseUint_loop_numeral (d : Decimal.uint) (acc : Z) :
  0 <= acc -> uint_value d acc <= 4294967295 ->
  parseUint_loop (chars (NilEmpty.string_of_uint d)) acc = Some (uint_value d acc).
Proof.
  revert acc. induction d; intros acc H0 Hmax; cbn [uint_value] in *;
    [reflexivity | ..];
    cbn [NilEmpty.string_of_uint chars list_ascii_of_string parseUint_loop];
    match goal with
    | |- context [is_digit ?c] => change (is_digit c) with true
    end; cbv iota;
    match goal with
    | |- context [digit_val ?c] =>
        let v := eval vm_compute in (digit_val c) in change (digit_val c) with v
    end;
    match goal with
    | H : uint_value d ?a <= _ |- _ =>
        pose proof (uint_value_lower d a ltac:(lia));
        replace (acc * 10 + _) with a by lia;
        replace (a >? 4294967295) with false
          by (symmetry; rewrite Z.gtb_ltb; apply Z.ltb_ge; lia);
        apply IHd; lia
    end.
Qed.

Lemma uint_value_of_uint_acc (d : Decimal.uint) (acc : positive) :
  uint_value d (Z.pos acc) = Z.pos (Pos.of_uint_acc d acc).
Proof.
  revert acc. induction d; intros acc; cbn [uint_value Pos.of_uint_acc];
    [reflexivity | ..]; rewrite <- IHd; f_equal; lia.
Qed.

Lemma uint_value_of_uint (d : Decimal.uint) :
  uint_value d 0 = Z.of_N (Pos.of_uint d).
Proof.
  induction d; cbn [uint_value Pos.of_uint]; [reflexivity | exact IHd | ..];
    cbn [Z.of_N]; rewrite <- uint_value_of_uint_acc; reflexivity.
Qed.

(** [strconv.ParseUint] reads back what [%d] writes. *)
Lemma ParseUint_itoa (n : Z) :
  0 <= n <= 4294967295 -> strconv_ParseUint32 (itoa n) = Some n.
Proof.
  intros Hn. unfold strconv_ParseUint32, itoa.
  destruct n as [| p | p]; [reflexivity | | lia].
  cbn [Z.to_int NilZero.string_of_int NilZero.string_of_uint].
  pose proof (DecimalPos.Unsigned.to_uint_nonnil p) as Hnil.
  assert (Hv : uint_value (Pos.to_uint p) 0 = Z.pos p)
    by (rewrite uint_value_of_uint, DecimalPos.Unsigned.of_to; reflexivity).
  assert (E : NilZero.string_of_uint (Pos.to_uint p)
              = NilEmpty.string_of_uint (Pos.to_uint p))
    by (destruct (Pos.to_uint p); [now elim Hnil | reflexivity ..]).
  rewrite E.
  assert (H0 : 0 <= 0) by lia.
  assert (Hmax : uint_value (Pos.to_uint p) 0 <= 4294967295) by lia.
  pose proof (parseUint_loop_numeral (Pos.to_uint p) 0 H0 Hmax) as H.
  rewrite Hv in H.
  destruct (chars (NilEmpty.string_of_uint (Pos.to_uint p))) eqn:C; [| exact H].
  destruct (Pos.to_uint p); [now elim Hnil | discriminate ..].
Qed.

(** A character of a file extension: neither a dot nor a slash. *)
Definition extension_char (c : ascii) : bool :=
  negb (Ascii.eqb c "." || Ascii.eqb c "/").

Lemma ext_scan_extension (rev_ext rest seen : list ascii) :
  forallb extension_char rev_ext = true ->
  ext_scan (rev_ext ++ "."%char :: rest) seen
  = ("."%char :: rev rev_ext ++ seen)%list.
Proof.
  revert seen. induction rev_ext as [| c r IH]; intros seen H.
  - reflexivity.
  - cbn [forallb] in H. apply andb_true_iff in H. destruct H as [Hc Hr].
    unfold extension_char in Hc. apply negb_true_iff, orb_false_iff in Hc.
    destruct Hc as [Hdot Hslash].
    cbn [app ext_scan]. rewrite Hslash, Hdot, IH by exact Hr.
    cbn [rev]. now rewrite <- app_assoc.
Qed.

Lemma substring_prefix (a b : string) :
  substring 0 (String.length a) (a ++ b) = a.
Proof.
  induction a as [| c a IH]; cbn.
  - now destruct b.
  - now rewrite IH.
Qed.

Lemma string_length_app (a b : string) :
  String.length (a ++ b) = (String.length a + String.length b)%nat.
Proof. induction a as [| c a IH]; cbn; [reflexivity | now rewrite IH]. Qed.

Lemma removeExtension_last (base ext : string) :
  forallb extension_char (chars ext) = true ->
  removeExtension (base ++ "." ++ ext) = base.
Proof.
  intros Hext. unfold removeExtension, path_Ext.
  assert (E : ext_scan (rev (chars (base ++ "." ++ ext))) [] = chars ("." ++ ext)).
  { rewrite chars_app. change (chars ("." ++ ext)) with ("."%char :: chars ext).
    rewrite rev_app_distr. cbn [rev]. rewrite <- app_assoc. cbn [app].
    rewrite ext_scan_extension.
    - now rewrite rev_involutive, app_nil_r.
    - rewrite forallb_forall in *. intros c Hc. apply Hext.
      now apply in_rev. }
  rewrite E. unfold chars. rewrite string_of_list_ascii_of_string.
  cbn [String.eqb append].
  replace (String.length (base ++ String "." ext) - String.length (String "." ext))%nat
    with (String.length base)
    by (rewrite string_length_app; lia).
  apply substring_prefix.
Qed.

(** X3. A page file named by its number in decimal, a dot and an extension
    without dot or slash is read back as that number, for every number
    below 2^32: only the last extension is taken off the name. *)
Theorem page_name_round_trip (n : Z) (base ext : string) :
  0 <= n <= 4294967295 ->
  forallb extension_char (chars ext) = true ->
  removeExtension (base ++ "." ++ ext) = base
  /\ pageNameToPageNumber (itoa n ++ "." ++ ext) = n.
Proof.
  intros Hn Hext. split; [now apply removeExtension_last |].
  unfold pageNameToPageNumber.
  now rewrite removeExtension_last, ParseUint_itoa.
Qed.

(** ** What a call on the user table does to the store *)

Lemma QueryRow_db {R : Type} (rows : Database -> list R) (w w' : World)
  (r : res R) :
  QueryRow rows w = (r, w') -> w' = tick w.
Proof.
  unfold QueryRow, bind, statement.
  destruct (io_fault (io_pos w)); [intros H; now injection H |].
  cbn [db tick]. destruct (rows (db w)); intros H; now injection H.
Qed.

Lemma QueryRow_error {R : Type} (rows : Database -> list R) (w w' : World)
  (e : error) :
  QueryRow rows w = (Err e, w') ->
  (e = sql_ErrNoRows /\ rows (db w) = [] /\ io_fault (io_pos w) = None)
  \/ (exists msg, e = SqlFailure msg /\ io_fault (io_pos w) = Some msg).
Proof.
  unfold QueryRow, bind, statement.
  destruct (io_fault (io_pos w)) as [msg |].
  - intros H. injection H as <- _. right. now exists msg.
  - cbn [db tick]. destruct (rows (db w)); [| discriminate].
    intros H. injection H as <- _. left. auto.
Qed.

Lemma QueryRow_no_panic {R : Type} (rows : Database -> list R) (w w' : World) :
  QueryRow rows w <> (Panic, w').
Proof.
  unfold QueryRow, bind, statement.
  destruct (io_fault (io_pos w)); [discriminate |].
  cbn [db tick]. destruct (rows (db w)); discriminate.
Qed.

(** The statement of [sqlExec] either runs and changes the store, or
    fails and leaves it. *)
Lemma sqlExec_cases (query : string) (change : Database -> Database)
  (w w' : World) (r : res unit) :
  sqlExec query change w = (r, w') ->
  (r = Ok tt /\ io_fault (io_pos w) = None
   /\ w' = set_db (tick w) (change (db w)))
  \/ (exists msg, r = Err (Errorf ("`" ++ query ++ "`: " ++ msg))
                  /\ io_fault (io_pos w) = Some msg
                  /\ w' = tick w).
Proof.
  unfold sqlExec, Exec, bind, statement.
  destruct (io_fault (io_pos w)) as [msg |]; intros H; injection H as <- <-.
  - right. now exists msg.
  - left. auto.
Qed.

Definition succeeded {A : Type} (r : res A) : bool :=
  match r with Ok _ => true | _ => false end.

Lemma RegisterUser_cases (name password : string) (w w' : World) (r : res unit) :
  RegisterUser name password w = (r, w') ->
  (succeeded r = false /\ db w' = db w)
  \/ (r = Ok tt
      /\ isUsernameValid name = true /\ isPasswordValid password = true
      /\ users_named name (db w) = []
      /\ db w'
         = insert_user name
             (hashPassword password
                (fst (randomString PasswordSaltLength (rand_pos w))))
             (fst (randomString PasswordSaltLength (rand_pos w))) "" (db w)).
Proof.
  unfold RegisterUser, fail. intros Hrun.
  destruct (isUsernameValid name); cbn [negb] in Hrun;
    [| injection Hrun as <- <-; now left].
  destruct (isPasswordValid password); cbn [negb] in Hrun;
    [| injection Hrun as <- <-; now left].
  destruct (QueryRow (users_named name) w) as [[row | e |] w1] eqn:Hq.
  - apply QueryRow_db in Hq. subst w1. injection Hrun as <- <-. now left.
  - pose proof (QueryRow_db _ _ _ _ Hq) as ->.
    destruct (QueryRow_error _ _ _ _ Hq) as [(-> & Hnone & _) | (msg & -> & _)].
    + unfold randomString in *. cbn [fst].
      apply sqlExec_cases in Hrun. cbn [io_pos db] in Hrun.
      destruct Hrun as [(-> & _ & ->) | (msg & -> & _ & ->)].
      * right. cbn [db set_db tick]. auto.
      * left. auto.
    + injection Hrun as <- <-. now left.
  - now apply QueryRow_no_panic in Hq.
Qed.

Lemma LoginUser_cases (name password : string) (w w' : World) (r : res string) :
  LoginUser name password w = (r, w') ->
  (succeeded r = false /\ db w' = db w)
  \/ (exists row others token sessionTokens pos,
         users_named name (db w) = row :: others
         /\ hashPassword password (password_salt row) = password_hash row
         /\ AppendNew (session_tokens row) (rand_pos w)
            = (Ok (token, sessionTokens), pos)
         /\ r = Ok token
         /\ w' = mkWorld (update_session_tokens sessionTokens name (db w))
                         pos (S (S (io_pos w)))).
Proof.
  unfold LoginUser, bind at 1, rename_error. intros Hrun.
  destruct (QueryRow (users_named name) w) as [[row | e |] w1] eqn:Hq.
  - apply QueryRow_result in Hq. destruct Hq as [-> [others Hu]].
    destruct (String.eqb_spec (hashPassword password (password_salt row))
                              (password_hash row)) as [Hp | Hp];
      cbn [negb] in Hrun; [| injection Hrun as <- <-; now left].
    unfold bind at 1 in Hrun. cbn [tick rand_pos db io_pos] in Hrun.
    destruct (AppendNew (session_tokens row) (rand_pos w))
      as [[[token sessionTokens] | e |] pos] eqn:Happ;
      [| injection Hrun as <- <-; now left ..].
    unfold bind at 1 in Hrun.
    match type of Hrun with
    | (match ?upd with _ => _ end) = _ => destruct upd as [ru w2] eqn:Hupd
    end.
    apply sqlExec_cases in Hupd. cbn [io_pos db] in Hupd.
    destruct Hupd as [(-> & _ & ->) | (msg & -> & _ & ->)].
    + unfold ret in Hrun. injection Hrun as <- <-. right.
      exists row, others, token, sessionTokens, pos. auto.
    + injection Hrun as <- <-. left. auto.
  - apply QueryRow_db in Hq. subst w1. injection Hrun as <- <-. now left.
  - now apply QueryRow_no_panic in Hq.
Qed.

Lemma LogoutUser_cases (name token : string) (w w' : World) (r : res unit) :
  LogoutUser name token w = (r, w') ->
  (succeeded r = false /\ db w' = db w)
  \/ (exists row others sessionTokens,
         users_named name (db w) = row :: others
         /\ RemoveToken (session_tokens row) token = Ok sessionTokens
         /\ r = Ok tt
         /\ w' = mkWorld (update_session_tokens sessionTokens name (db w))
                         (rand_pos w) (S (S (io_pos w)))).
Proof.
  unfold LogoutUser, bind at 1, rename_error at 1. intros Hrun.
  destruct (QueryRow (users_named name) w) as [[row | e |] w1] eqn:Hq.
  - apply QueryRow_result in Hq. destruct Hq as [-> [others Hu]].
    unfold bind, rename_error, lift in Hrun.
    destruct (RemoveToken (session_tokens row) token)
      as [sessionTokens | e |] eqn:Hrem;
      [| injection Hrun as <- <-; now left ..].
    apply sqlExec_cases in Hrun. cbn [io_pos db tick] in Hrun.
    destruct Hrun as [(-> & _ & ->) | (msg & -> & _ & ->)].
    + right. exists row, others, sessionTokens. auto.
    + left. auto.
  - apply QueryRow_db in Hq. subst w1. injection Hrun as <- <-. now left.
  - now apply QueryRow_no_panic in Hq.
Qed.

(** X4. A registration, a login or a logout that does not succeed, for
    whatever reason (a refused name or password, an unknown user, a wrong
    password or token, a statement the driver fails on, an undecodable
    ledger), leaves every table of the store as it was. *)
Theorem failed_user_call_keeps_store (name secret : string) (w : World) :
  (forall r w', RegisterUser name secret w = (r, w') ->
                succeeded r = false -> db w' = db w)
  /\ (forall r w', LoginUser name secret w = (r, w') ->
                   succeeded r = false -> db w' = db w)
  /\ (forall r w', LogoutUser name secret w = (r, w') ->
                   succeeded r = false -> db w' = db w).
Proof.
  split; [| split]; intros r w' Hrun Hfail.
  - destruct (RegisterUser_cases _ _ _ _ _ Hrun) as [[_ H] | (-> & _)];
      [exact H | discriminate].
  - destruct (LoginUser_cases _ _ _ _ _ Hrun)
      as [[_ H] | (row & others & token & st & pos & _ & _ & _ & -> & _)];
      [exact H | discriminate].
  - destruct (LogoutUser_cases _ _ _ _ _ Hrun)
      as [[_ H] | (row & others & st & _ & _ & -> & _)];
      [exact H | discriminate].
Qed.

(** *** The token of a login *)

Lemma has_match_last (token : string) (l : list (list string)) (t : list string) :
  Forall entry_ok l -> entry_matches token t = Ok true ->
  has_match token (l ++ [t]) = Ok true.
Proof.
  intros Hl Ht.
  destruct (find_token_spec token l 0 Hl) as [[_ H] | (j & _ & _ & H)].
  - rewrite (has_match_app_false _ _ _ H). cbn [has_match]. now rewrite Ht.
  - now apply has_match_app_true.
Qed.

Lemma has_match_appended (l : list (list string)) (pos : nat) :
  Forall entry_ok l ->
  has_match (fresh_token pos) (appended l pos) = Ok true.
Proof.
  intros Hl. unfold appended.
  destruct (_ >=? _) eqn:E.
  - destruct l as [| t l].
    + cbn in E. discriminate.
    + cbn [app tl]. apply has_match_last; [now inversion Hl |].
      apply entry_matches_fresh.
  - apply has_match_last; [exact Hl | apply entry_matches_fresh].
Qed.

Lemma users_named_nocase (name name2 : string) (d : Database) :
  nocase_eqb name2 name = true -> users_named name2 d = users_named name d.
Proof.
  intros H. unfold users_named. apply filter_ext. intros u.
  apply nocase_eqb_true in H. unfold nocase_eqb. now rewrite H.
Qed.

(** X5. In a store whose ledgers are well formed, the token a successful
    login returns is accepted at once by [authenticateUser], under the
    name written in any letter case, for the user the login found; and
    [IsAuthDataValid] answers true. *)
Theorem login_token_authenticates (name password name2 token : string)
  (w w' : World) :
  ledgers_ok (db w) ->
  LoginUser name password w = (Ok token, w') ->
  nocase_eqb name2 name = true ->
  io_fault (io_pos w') = None ->
  exists row others,
    users_named name (db w) = row :: others
    /\ authenticateUser name2 token w' = (Ok (user_id row), tick w')
    /\ IsAuthDataValid name2 token w' = (Ok true, tick w').
Proof.
  intros Hok Hrun Hcase Hf.
  destruct (LoginUser_cases _ _ _ _ _ Hrun)
    as [[H _] | (row & others & token' & st & pos & Hu & _ & Happ & Hr & Hw')];
    [discriminate |].
  injection Hr as <-.
  pose proof (users_named_ok _ _ _ _ Hok Hu) as (l & Hs & Hl & _).
  rewrite (AppendNew_spec _ l _ Hs Hl) in Happ.
  injection Happ as Htoken Hst _. subst token st.
  assert (Hdb : db w' = update_session_tokens
                          (jsonEncode (appended l (rand_pos w))) name (db w))
    by now rewrite Hw'.
  exists row, others. split; [exact Hu |].
  assert (Hauth : authenticateUser name2 (fresh_token (rand_pos w)) w'
                  = (Ok (user_id row), tick w')).
  { apply (authenticateUser_spec name2 _ _
             (with_session_tokens (jsonEncode (appended l (rand_pos w))) row)
             (map (with_session_tokens (jsonEncode (appended l (rand_pos w))))
                  others) true).
    - exact Hf.
    - rewrite Hdb, (users_named_nocase name name2 _ Hcase).
      rewrite users_named_update, Hu. reflexivity.
    - cbn [with_session_tokens session_tokens]. unfold HasToken.
      rewrite ToSlice_jsonEncode by now apply appended_ok.
      cbn [res_bind]. now apply has_match_appended. }
  split; [exact Hauth |].
  unfold IsAuthDataValid. now rewrite Hauth.
Qed.

(** *** Login, then logout *)

Lemma find_token_last (token : string) (l : list (list string)) (t : list string)
  (i : nat) :
  has_match token l = Ok false -> entry_matches token t = Ok true ->
  find_token token (l ++ [t]) i = Ok (Some (i + List.length l)%nat).
Proof.
  revert i. induction l as [| x l IH]; intros i Hl Ht.
  - cbn. rewrite Ht. cbn. now rewrite Nat.add_0_r.
  - cbn [app find_token has_match List.length] in *.
    destruct (entry_matches token x) as [[|] | |]; cbn [res_bind] in *;
      try discriminate.
    rewrite (IH (S i) Hl Ht). do 2 f_equal. lia.
Qed.

Lemma slices_Delete1_last {A : Type} (l : list A) (x : A) :
  slices_Delete1 (l ++ [x]) (List.length l) = l.
Proof.
  unfold slices_Delete1.
  rewrite firstn_app, Nat.sub_diag, firstn_all. cbn [firstn].
  rewrite skipn_all2 by (rewrite length_app; cbn; lia).
  now rewrite !app_nil_r.
Qed.

Lemma update_session_tokens_twice (t1 t2 name : string) (d : Database) :
  update_session_tokens t2 name (update_session_tokens t1 name d)
  = update_session_tokens t2 name d.
Proof.
  unfold update_session_tokens. cbn [Users Doujins DoujinPages TagSets
    seq_Users seq_Doujins seq_DoujinPages]. f_equal.
  rewrite map_map. apply map_ext. intros u.
  destruct (nocase_eqb (username u) name) eqn:E; cbn [username]; rewrite E;
    reflexivity.
Qed.

(** X6. A user whose ledger holds [l], with fewer than
    [MaxTokensPerUser - 1] entries and none that verifies the token about
    to be drawn, logs in and logs out again with the token received (the
    four statements run): both calls succeed, and the ledger decodes to
    [l] again.  The stored text is then [jsonEncode l], also where it was
    empty before. *)
Theorem logout_undoes_login (name password : string) (w : World)
  (row : UserRow) (others : list UserRow) (l : list (list string)) :
  users_named name (db w) = row :: others ->
  hashPassword password (password_salt row) = password_hash row ->
  ToSlice (session_tokens row) = Ok l -> Forall entry_ok l ->
  Z.of_nat (List.length l) < MaxTokensPerUser - 1 ->
  has_match (fresh_token (rand_pos w)) l = Ok false ->
  storage_works_from (io_pos w) ->
  exists token w1 w2,
    LoginUser name password w = (Ok token, w1)
    /\ LogoutUser name token w1 = (Ok tt, w2)
    /\ db w2 = update_session_tokens (jsonEncode l) name (db w)
    /\ users_named name (db w2)
       = map (with_session_tokens (jsonEncode l)) (row :: others)
    /\ ToSlice (jsonEncode l) = Ok l.
Proof.
  intros Hu Hp Hs Hl Hn Hnew Hw.
  assert (Hf0 : io_fault (io_pos w) = None)
    by (rewrite <- (Nat.add_0_r (io_pos w)); apply Hw).
  assert (Hf1 : io_fault (S (io_pos w)) = None)
    by (replace (S (io_pos w)) with (io_pos w + 1)%nat by lia; apply Hw).
  assert (Hf2 : io_fault (S (S (io_pos w))) = None)
    by (replace (S (S (io_pos w))) with (io_pos w + 2)%nat by lia; apply Hw).
  assert (Hf3 : io_fault (S (S (S (io_pos w)))) = None)
    by (replace (S (S (S (io_pos w)))) with (io_pos w + 3)%nat by lia; apply Hw).
  pose proof (LoginUser_spec name password w row others l Hf0 Hf1 Hu Hp Hs Hl)
    as Hlogin.
  assert (Happ : appended l (rand_pos w) = (l ++ [fresh_entry (rand_pos w)])%list).
  { unfold appended. rewrite length_app. cbn [List.length].
    replace (Z.of_nat (List.length l + 1) >=? MaxTokensPerUser) with false;
      [reflexivity |].
    symmetry. rewrite Z.geb_leb. apply Z.leb_gt. lia. }
  rewrite Happ in Hlogin.
  do 3 eexists. split; [exact Hlogin |].
  assert (Hok : Forall entry_ok (l ++ [fresh_entry (rand_pos w)])).
  { apply Forall_app. split; [exact Hl |].
    constructor; [apply fresh_entry_ok | constructor]. }
  assert (Hrem :
    RemoveToken (jsonEncode (l ++ [fresh_entry (rand_pos w)]))
                (fresh_token (rand_pos w)) = Ok (jsonEncode l)).
  { unfold RemoveToken. rewrite (ToSlice_jsonEncode _ Hok). cbn [res_bind].
    rewrite (find_token_last _ _ _ 0 Hnew (entry_matches_fresh _)).
    cbn [res_bind Nat.add]. rewrite slices_Delete1_last.
    now apply NewSessionTokens_ok. }
  split; [| split; [| split]].
  - unfold LogoutUser, bind at 1, rename_error at 1.
    erewrite QueryRow_first;
      [| exact Hf2
       | cbn [db]; rewrite users_named_update, Hu; cbn [map]; reflexivity].
    unfold bind, rename_error, lift.
    cbn [with_session_tokens session_tokens]. rewrite Hrem.
    rewrite sqlExec_runs by exact Hf3. reflexivity.
  - cbn [db set_db tick]. apply update_session_tokens_twice.
  - cbn [db set_db tick]. rewrite update_session_tokens_twice.
    rewrite users_named_update, Hu. reflexivity.
  - now apply ToSlice_jsonEncode.
Qed.

(** ** What an import does to the store *)

Lemma import_entries_result (folderPath : string) (doujinId : Z)
  (entries : list DirEntry) (acc : list Z) (w w' : World)
  (importedPages : list Z) :
  import_entries folderPath doujinId entries acc w = (Ok importedPages, w') ->
  importedPages = (acc ++ page_numbers entries)%list
  /\ db w' = insert_pages folderPath doujinId entries (db w).
Proof.
  revert acc w. induction entries as [| e rest IH]; intros acc w Hrun.
  - cbn in Hrun. injection Hrun as <- <-. now rewrite app_nil_r.
  - cbn [import_entries] in Hrun. rewrite page_numbers_cons, insert_pages_cons.
    unfold is_page_file at 1 2.
    destruct (entry_IsDir e || (pageNameToPageNumber (entry_Name e) =? -1));
      cbn [negb].
    + now apply IH.
    + unfold bind at 1, Exec, bind, statement in Hrun.
      destruct (io_fault (io_pos w)); [discriminate |].
      apply IH in Hrun. cbn [db set_db tick] in Hrun.
      now rewrite <- app_assoc in Hrun.
Qed.

(** The three stores an import can leave: the one it found, that one with
    the doujin row, and that one with the doujin row and all page rows. *)
Lemma RegisterDoujin_cases (folderPath : string) (folder : Folder)
  (w w' : World) (r : res unit) :
  RegisterDoujin folderPath folder w = (r, w') ->
  (succeeded r = false /\ db w' = db w)
  \/ (exists doujinMeta,
         folder_metadata folder = Decoded doujinMeta
         /\ succeeded r = false
         /\ db w' = insert_doujin doujinMeta (db w))
  \/ (exists doujinMeta entries,
         folder_metadata folder = Decoded doujinMeta
         /\ folder_listing folder = Listing entries
         /\ r = Ok tt
         /\ page_checks (meta_Pages doujinMeta) (page_numbers entries) = Ok tt
         /\ db w'
            = insert_pages folderPath
                (next_rowid (map doujin_id (Doujins (db w))) (seq_Doujins (db w)))
                entries (insert_doujin doujinMeta (db w))).
Proof.
  unfold RegisterDoujin, fail. intros Hrun.
  destruct (folder_metadata folder) as [oserr | jsonerr | doujinMeta];
    [injection Hrun as <- <-; now left ..|].
  unfold bind at 1 in Hrun.
  match type of Hrun with
  | (let (_, _) := (let (_, _) := ?ins in _) in _) = _ =>
      destruct ins as [ri w1] eqn:Hins
  end.
  apply sqlExec_cases in Hins.
  destruct Hins as [(-> & _ & ->) | (msg & -> & _ & ->)];
    [| injection Hrun as <- <-; now left].
  right.
  destruct (folder_listing folder) as [oserr | entries];
    [injection Hrun as <- <-; left; now exists doujinMeta |].
  unfold in_transaction, bind at 1, statement in Hrun.
  cbn [io_pos set_db tick] in Hrun.
  destruct (io_fault (S (io_pos w)));
    [injection Hrun as <- <-; left; now exists doujinMeta |].
  unfold bind at 1 in Hrun.
  match type of Hrun with
  | (let (_, _) := (let (_, _) := ?loop in _) in _) = _ =>
      destruct loop as [[importedPages | e |] w3] eqn:Hloop
  end;
    [| injection Hrun as <- <-; left; now exists doujinMeta ..].
  apply import_entries_result in Hloop. cbn [app db] in Hloop.
  destruct Hloop as [-> Hdb3].
  pose proof (eq_refl (page_checks (meta_Pages doujinMeta) (page_numbers entries)))
    as Hchk.
  unfold page_checks at 1 in Hchk.
  destruct (_ <? _);
    [injection Hrun as <- <-; left; now exists doujinMeta |].
  destruct (_ >? _);
    [injection Hrun as <- <-; left; now exists doujinMeta |].
  destruct (first_gap 0 _) as [[expected pageNumber] |];
    [injection Hrun as <- <-; left; now exists doujinMeta |].
  unfold tx_Commit, statement in Hrun.
  destruct (io_fault (io_pos w3));
    injection Hrun as <- <-; [left; now exists doujinMeta |].
  right. exists doujinMeta, entries. cbn [db tick]. auto.
Qed.

(** The page rows an import writes: the page files in listing order, with
    consecutive ids. *)
Fixpoint number_pages (folderPath : string) (doujinId : Z)
  (files : list DirEntry) (id : Z) : list PageRow :=
  match files with
  | [] => []
  | e :: rest =>
      mkPage id doujinId (path_Join folderPath (entry_Name e))
             (pageNameToPageNumber (entry_Name e))
      :: number_pages folderPath doujinId rest (id + 1)
  end.

Lemma max_id_app (l1 l2 : list Z) :
  max_id (l1 ++ l2) = Z.max (max_id l1) (max_id l2).
Proof.
  unfold max_id. induction l1 as [| x l1 IH]; cbn [app fold_right].
  - assert (H : 0 <= fold_right Z.max 0 l2)
      by (induction l2; cbn; lia).
    lia.
  - rewrite IH. lia.
Qed.

Lemma max_id_nonneg (l : list Z) : 0 <= max_id l.
Proof. unfold max_id. induction l; cbn; lia. Qed.

Lemma insert_pages_rows (folderPath : string) (doujinId : Z)
  (entries : list DirEntry) (d : Database) :
  let d' := insert_pages folderPath doujinId entries d in
  Users d' = Users d /\ Doujins d' = Doujins d /\ TagSets d' = TagSets d
  /\ seq_Users d' = seq_Users d /\ seq_Doujins d' = seq_Doujins d
  /\ DoujinPages d'
     = (DoujinPages d
        ++ number_pages folderPath doujinId (filter is_page_file entries)
             (next_rowid (map page_id (DoujinPages d)) (seq_DoujinPages d)))%list.
Proof.
  unfold insert_pages. revert d.
  induction (filter is_page_file entries) as [| e files IH]; intros d.
  - cbn. now rewrite app_nil_r.
  - cbn [fold_left number_pages].
    specialize (IH (insert_page doujinId (path_Join folderPath (entry_Name e))
                                (pageNameToPageNumber (entry_Name e)) d)).
    cbv zeta in IH.
    destruct IH as (H1 & H2 & H3 & H4 & H5 & H6).
    cbn [insert_page Users Doujins TagSets seq_Users seq_Doujins DoujinPages
         seq_DoujinPages] in *.
    repeat (split; [assumption |]).
    pose proof (max_id_nonneg (map page_id (DoujinPages d))) as Hm.
    rewrite H6, <- app_assoc. cbn [app]. do 3 f_equal.
    unfold next_rowid. rewrite map_app, max_id_app. cbn [map page_id].
    unfold max_id at 2. cbn [fold_right]. unfold next_rowid. lia.
Qed.

Lemma number_pages_doujin (folderPath : string) (doujinId : Z)
  (files : list DirEntry) (id : Z) (p : PageRow) :
  In p (number_pages folderPath doujinId files id) ->
  page_doujin_id p = doujinId /\ id <= page_id p.
Proof.
  revert id. induction files as [| e files IH]; intros id; [intros [] |].
  cbn [number_pages]. intros [<- | H]; [cbn; split; [reflexivity | lia] |].
  apply IH in H. split; [apply H | lia].
Qed.

Lemma number_pages_numbers (folderPath : string) (doujinId : Z)
  (files : list DirEntry) (id : Z) :
  map page_number (number_pages folderPath doujinId files id)
  = map (fun e => pageNameToPageNumber (entry_Name e)) files.
Proof.
  revert id. induction files as [| e files IH]; intros id; [reflexivity |].
  cbn [number_pages map page_number]. now rewrite IH.
Qed.

Lemma number_pages_file (folderPath : string) (doujinId : Z)
  (files : list DirEntry) (id : Z) (e : DirEntry) :
  In e files ->
  exists p, In p (number_pages folderPath doujinId files id)
            /\ page_number p = pageNameToPageNumber (entry_Name e)
            /\ hd_error (filter (fun q => page_id q =? page_id p)
                                (number_pages folderPath doujinId files id))
               = Some p
            /\ page_path p = path_Join folderPath (entry_Name e).
Proof.
  revert id. induction files as [| f files IH]; intros id; [intros [] |].
  cbn [number_pages]. intros [-> | H].
  - eexists. split; [now left |]. cbn [page_number page_id page_path filter].
    rewrite Z.eqb_refl. auto.
  - destruct (IH (id + 1) H) as (p & Hin & Hn & Hhd & Hpath).
    exists p. split; [now right |]. split; [exact Hn |].
    split; [| exact Hpath].
    cbn [filter page_id].
    apply number_pages_doujin in Hin.
    replace (id =? page_id p) with false by (symmetry; apply Z.eqb_neq; lia).
    exact Hhd.
Qed.

(** X7. An import is all or nothing for the pages, whatever fails and
    wherever.  However the call ends, the user table and the tag sets are
    as before.  If it does not succeed, the page table is as before and
    the doujin table is as before or has one more row.  If it succeeds,
    the folder had its metadata and its listing, the page numbers read
    from the listing are 1 to the declared count in some order, and the
    page table has gained one row for each page file, in listing order
    and with consecutive ids. *)
Theorem import_is_all_or_nothing (folderPath : string) (folder : Folder)
  (w w' : World) (r : res unit) :
  RegisterDoujin folderPath folder w = (r, w') ->
  Users (db w') = Users (db w) /\ TagSets (db w') = TagSets (db w)
  /\ (succeeded r = false ->
      DoujinPages (db w') = DoujinPages (db w)
      /\ (Doujins (db w') = Doujins (db w)
          \/ exists row, Doujins (db w') = (Doujins (db w) ++ [row])%list))
  /\ (r = Ok tt ->
      exists doujinMeta entries,
        folder_metadata folder = Decoded doujinMeta
        /\ folder_listing folder = Listing entries
        /\ Permutation (page_numbers entries) (one_to (meta_Pages doujinMeta))
        /\ (exists row, Doujins (db w') = (Doujins (db w) ++ [row])%list
                        /\ pages row = meta_Pages doujinMeta)
        /\ DoujinPages (db w')
           = (DoujinPages (db w)
              ++ number_pages folderPath
                   (next_rowid (map doujin_id (Doujins (db w)))
                               (seq_Doujins (db w)))
                   (filter is_page_file entries)
                   (next_rowid (map page_id (DoujinPages (db w)))
                               (seq_DoujinPages (db w))))%list).
Proof.
  intros Hrun.
  destruct (RegisterDoujin_cases _ _ _ _ _ Hrun)
    as [[Hfail Hdb] | [(m & Hm & Hfail & Hdb) | (m & es & Hm & Hl & Hr & Hchk & Hdb)]].
  - rewrite Hdb. split; [reflexivity |]. split; [reflexivity |]. split.
    + intros _. split; [reflexivity | now left].
    + intros E. rewrite E in Hfail. discriminate.
  - rewrite Hdb. cbn [insert_doujin Users TagSets DoujinPages Doujins].
    split; [reflexivity |]. split; [reflexivity |]. split.
    + intros _. split; [reflexivity |]. right. eexists. reflexivity.
    + intros E. rewrite E in Hfail. discriminate.
  - destruct (insert_pages_rows folderPath
                (next_rowid (map doujin_id (Doujins (db w))) (seq_Doujins (db w)))
                es (insert_doujin m (db w)))
      as (HU & HD & HT & _ & _ & HP).
    cbv zeta in HU, HD, HT, HP. rewrite <- Hdb in HU, HD, HT, HP.
    cbn [insert_doujin Users TagSets DoujinPages Doujins seq_DoujinPages]
      in HU, HD, HT, HP.
    split; [exact HU |]. split; [exact HT |]. split.
    + intros Hfail. rewrite Hr in Hfail. discriminate.
    + intros _. exists m, es. split; [exact Hm |]. split; [exact Hl |].
      split; [| split].
      * apply page_checks_accepts in Hchk. destruct Hchk as [_ Hsorted].
        rewrite <- Hsorted. apply sort_Ints_perm.
      * eexists. split; [exact HD | reflexivity].
      * exact HP.
Qed.

(** ** Reading a doujin and a page *)

(** [db.Query(...)] with the loop over [rows.Next()]: all rows of the
    result, in table order. *)
Definition Query {R : Type} (rows : Database -> list R) : M (list R) :=
  _ <- statement ;;
  fun w => (Ok (rows (db w)), w).

(** [SELECT ... FROM Doujins WHERE id = ?] *)
Definition doujins_with_id (id : Z) (d : Database) : list DoujinRow :=
  filter (fun row => doujin_id row =? id) (Doujins d).

(** [SELECT id, page_number FROM DoujinPages WHERE doujin_id = ?] *)
Definition pages_of_doujin (id : Z) (d : Database) : list PageRow :=
  filter (fun p => page_doujin_id p =? id) (DoujinPages d).

(** The array columns were written by [jsonEncode] and the store keeps the
    arrays, so the five [json.Unmarshal] calls succeed. *)
Definition GetDoujinMetadata (name token : string) (id : Z) : M Doujin :=
  _ <- authenticateUser name token ;;
  row <- rename_error is_ErrNoRows (DbError DatabaseErrorInvalidId)
           (QueryRow (doujins_with_id id)) ;;
  pages <- Query (fun d => map (fun p => [page_number p; page_id p])
                               (pages_of_doujin id d)) ;;
  ret (mkDoujinResult (doujin_id row) (title row) (subtitle row)
                      (upload_date row) (external_rating row) (tags row)
                      (characters row) (artists row) (groups row)
                      (languages row) pages).

(** [SELECT page_path FROM DoujinPages WHERE id = ?] *)
Definition page_paths (pageId : Z) (d : Database) : list string :=
  map page_path (filter (fun p => page_id p =? pageId) (DoujinPages d)).

Definition GetPageFilePath (name token : string) (pageId : Z) : M string :=
  _ <- authenticateUser name token ;;
  rename_error is_ErrNoRows (DbError DatabaseErrorInvalidId)
    (QueryRow (page_paths pageId)).

Lemma Query_runs {R : Type} (rows : Database -> list R) (w : World) :
  io_fault (io_pos w) = None -> Query rows w = (Ok (rows (db w)), tick w).
Proof. intros Hf. unfold Query, bind. now rewrite (statement_runs w Hf). Qed.

Lemma Query_db {R : Type} (rows : Database -> list R) (w w' : World)
  (r : res (list R)) :
  Query rows w = (r, w') -> w' = tick w.
Proof.
  unfold Query, bind, statement.
  destruct (io_fault (io_pos w)); intros H; now injection H.
Qed.

(** The answer to a read by id, given the rows that have the id. *)
Definition found_or_InvalidId {R A : Type} (rows : list R) (answer : R -> A)
  : res A :=
  match rows with
  | [] => Err (DbError DatabaseErrorInvalidId)
  | r :: _ => Ok (answer r)
  end.

Lemma GetDoujinMetadata_runs (name token : string) (id : Z) (w w1 : World)
  (userId : Z) :
  authenticateUser name token w = (Ok userId, w1) ->
  io_fault (io_pos w1) = None -> io_fault (S (io_pos w1)) = None ->
  exists w',
    GetDoujinMetadata name token id w
    = (found_or_InvalidId (doujins_with_id id (db w))
         (fun row =>
            mkDoujinResult (doujin_id row) (title row) (subtitle row)
              (upload_date row) (external_rating row) (tags row)
              (characters row) (artists row) (groups row) (languages row)
              (map (fun p => [page_number p; page_id p])
                   (pages_of_doujin id (db w)))),
       w')
    /\ db w' = db w.
Proof.
  intros Hauth Hf1 Hf2.
  pose proof (authenticateUser_world _ _ _ _ _ Hauth) as ->.
  unfold GetDoujinMetadata, bind at 1. rewrite Hauth.
  unfold bind at 1, rename_error.
  destruct (doujins_with_id id (db w)) as [| row rows] eqn:Hrows.
  - rewrite (QueryRow_no_rows _ _ Hf1) by exact Hrows.
    eexists. split; reflexivity.
  - rewrite (QueryRow_first _ _ row rows Hf1) by exact Hrows.
    unfold bind. rewrite Query_runs by exact Hf2.
    eexists. split; reflexivity.
Qed.

Lemma GetPageFilePath_runs (name token : string) (pageId : Z) (w w1 : World)
  (userId : Z) :
  authenticateUser name token w = (Ok userId, w1) ->
  io_fault (io_pos w1) = None ->
  exists w',
    GetPageFilePath name token pageId w
    = (found_or_InvalidId (page_paths pageId (db w)) (fun path => path), w')
    /\ db w' = db w.
Proof.
  intros Hauth Hf1.
  pose proof (authenticateUser_world _ _ _ _ _ Hauth) as ->.
  unfold GetPageFilePath, bind. rewrite Hauth. unfold rename_error.
  destruct (page_paths pageId (db w)) as [| path paths] eqn:Hrows.
  - rewrite (QueryRow_no_rows _ _ Hf1) by exact Hrows.
    eexists. split; reflexivity.
  - rewrite (QueryRow_first _ _ path paths Hf1) by exact Hrows.
    eexists. split; reflexivity.
Qed.

(** X8. For an authenticated caller, the statements running, a read by id
    answers [InvalidId] exactly when no row has the id.  Otherwise
    [GetDoujinMetadata] gives the columns of the doujin and one
    [[page_number, id]] pair for each of its page rows, in table order (an
    empty list for a doujin without pages), and [GetPageFilePath] gives the
    stored path.  Neither changes the store. *)
Theorem read_by_id (name token : string) (id : Z) (w w1 : World) (userId : Z) :
  authenticateUser name token w = (Ok userId, w1) ->
  io_fault (io_pos w1) = None -> io_fault (S (io_pos w1)) = None ->
  (exists w',
      GetDoujinMetadata name token id w
      = (found_or_InvalidId (doujins_with_id id (db w))
           (fun row =>
              mkDoujinResult (doujin_id row) (title row) (subtitle row)
                (upload_date row) (external_rating row) (tags row)
                (characters row) (artists row) (groups row) (languages row)
                (map (fun p => [page_number p; page_id p])
                     (pages_of_doujin id (db w)))),
         w')
      /\ db w' = db w)
  /\ (exists w',
         GetPageFilePath name token id w
         = (found_or_InvalidId (page_paths id (db w)) (fun path => path), w')
         /\ db w' = db w)
  /\ (doujins_with_id id (db w) = [] <-> ~ In id (map doujin_id (Doujins (db w))))
  /\ (page_paths id (db w) = [] <-> ~ In id (map page_id (DoujinPages (db w)))).
Proof.
  intros Hauth Hf1 Hf2.
  split; [now apply (GetDoujinMetadata_runs name token id w w1 userId) |].
  split; [now apply (GetPageFilePath_runs name token id w w1 userId) |].
  split.
  - unfold doujins_with_id. split.
    + intros Hnil Hin. apply in_map_iff in Hin. destruct Hin as (row & E & Hin).
      assert (H : In row (filter (fun row => doujin_id row =? id) (Doujins (db w))))
        by (apply filter_In; split; [exact Hin | now apply Z.eqb_eq]).
      now rewrite Hnil in H.
    + intros Hnot. apply filter_none. intros row Hin. apply Z.eqb_neq.
      intros E. apply Hnot. apply in_map_iff. now exists row.
  - unfold page_paths. split.
    + intros Hnil Hin. apply in_map_iff in Hin. destruct Hin as (p & E & Hin).
      assert (H : In p (filter (fun p => page_id p =? id) (DoujinPages (db w))))
        by (apply filter_In; split; [exact Hin | now apply Z.eqb_eq]).
      apply map_eq_nil in Hnil. now rewrite Hnil in H.
    + intros Hnot. rewrite filter_none; [reflexivity |].
      intros p Hin. apply Z.eqb_neq.
      intros E. apply Hnot. apply in_map_iff. now exists p.
Qed.

Lemma filter_all {A : Type} (f : A -> bool) (l : list A) :
  (forall x, In x l -> f x = true) -> filter f l = l.
Proof.
  induction l as [| a l IH]; intros H; [reflexivity |].
  cbn [filter]. rewrite (H a (or_introl eq_refl)). f_equal.
  apply IH. intros x Hx. apply H. now right.
Qed.

(** The rows of a freshly imported doujin in the store the import left. *)
Lemma imported_rows (folderPath : string) (doujinMeta : DoujinImportMetadata)
  (entries : list DirEntry) (d : Database) :
  pages_have_doujins d ->
  let id := next_rowid (map doujin_id (Doujins d)) (seq_Doujins d) in
  let d' := insert_pages folderPath id entries (insert_doujin doujinMeta d) in
  let rows := number_pages folderPath id (filter is_page_file entries)
                (next_rowid (map page_id (DoujinPages d)) (seq_DoujinPages d)) in
  doujins_with_id id d'
  = [mkDoujin id (meta_Title doujinMeta) (meta_Subtitle doujinMeta)
              (meta_UploadDate doujinMeta) (meta_ExternalRating doujinMeta)
              (meta_Tags doujinMeta) (meta_Characters doujinMeta)
              (meta_Artists doujinMeta) (meta_Groups doujinMeta)
              (meta_Languages doujinMeta) (meta_Pages doujinMeta)]
  /\ pages_of_doujin id d' = rows
  /\ DoujinPages d' = (DoujinPages d ++ rows)%list
  /\ forall p, In p (DoujinPages d) ->
       page_id p < next_rowid (map page_id (DoujinPages d)) (seq_DoujinPages d).
Proof.
  intros Hfk id d' rows.
  destruct (insert_pages_rows folderPath id entries (insert_doujin doujinMeta d))
    as (_ & Hd & _ & _ & _ & Hp).
  fold d' in Hd, Hp. cbn [insert_doujin Doujins DoujinPages seq_DoujinPages] in Hd, Hp.
  fold id in Hd. fold rows in Hp.
  assert (Hfresh : ~ In id (map doujin_id (Doujins d)))
    by apply next_rowid_fresh.
  split; [| split; [| split]].
  - unfold doujins_with_id. rewrite Hd, filter_app.
    rewrite filter_none.
    + cbn [filter doujin_id app]. now rewrite Z.eqb_refl.
    + intros row Hin. apply Z.eqb_neq. intros E. apply Hfresh.
      apply in_map_iff. now exists row.
  - unfold pages_of_doujin. rewrite Hp, filter_app.
    rewrite filter_none.
    + cbn [app]. apply filter_all. intros p Hin.
      apply number_pages_doujin in Hin. apply Z.eqb_eq. apply Hin.
    + intros p Hin. apply Z.eqb_neq. intros E. apply Hfresh.
      rewrite <- E. now apply Hfk.
  - exact Hp.
  - intros p Hin. unfold next_rowid.
    assert (H : page_id p <= max_id (map page_id (DoujinPages d)))
      by (apply max_id_bound, in_map_iff; now exists p).
    lia.
Qed.

(** X9. What an accepted import wrote is what the reads give back.  After
    [RegisterDoujin] has succeeded on a store whose page rows belong to
    doujins, an authenticated [GetDoujinMetadata] of the new id (the
    statements running) returns the title, subtitle, date, rating and the
    five arrays of [metadata.json] and one page pair for each page file, in
    listing order, the page numbers being 1 to the declared count in some
    order; and [GetPageFilePath] of each pair's page id returns the path of
    the file the number was read from. *)
Theorem imported_doujin_is_served (folderPath : string) (folder : Folder)
  (doujinMeta : DoujinImportMetadata) (entries : list DirEntry)
  (name token : string) (w w1 w2 : World) (userId : Z) :
  folder_metadata folder = Decoded doujinMeta ->
  folder_listing folder = Listing entries ->
  pages_have_doujins (db w) ->
  RegisterDoujin folderPath folder w = (Ok tt, w1) ->
  authenticateUser name token w1 = (Ok userId, w2) ->
  io_fault (io_pos w2) = None -> io_fault (S (io_pos w2)) = None ->
  let id := next_rowid (map doujin_id (Doujins (db w))) (seq_Doujins (db w)) in
  exists doujin w3,
    GetDoujinMetadata name token id w1 = (Ok doujin, w3)
    /\ Id doujin = id
    /\ (Title doujin, Subtitle doujin, UploadDate doujin, ExternalRating doujin)
       = (meta_Title doujinMeta, meta_Subtitle doujinMeta,
          meta_UploadDate doujinMeta, meta_ExternalRating doujinMeta)
    /\ (Tags doujin, Characters doujin, Artists doujin, Groups doujin,
        Languages doujin)
       = (meta_Tags doujinMeta, meta_Characters doujinMeta,
          meta_Artists doujinMeta, meta_Groups doujinMeta,
          meta_Languages doujinMeta)
    /\ map (fun pair => nth 0 pair 0) (Pages doujin) = page_numbers entries
    /\ Permutation (page_numbers entries) (one_to (meta_Pages doujinMeta))
    /\ forall e, In e entries -> is_page_file e = true ->
         exists pageId,
           In [pageNameToPageNumber (entry_Name e); pageId] (Pages doujin)
           /\ fst (GetPageFilePath name token pageId w1)
              = Ok (path_Join folderPath (entry_Name e)).
Proof.
  intros Hm Hl Hfk Hrun Hauth Hf1 Hf2 id.
  destruct (RegisterDoujin_cases _ _ _ _ _ Hrun)
    as [[H _] | [(m & _ & H & _) | (m & es & Hm' & Hl' & _ & Hchk & Hdb)]];
    [discriminate | discriminate |].
  rewrite Hm in Hm'. injection Hm' as <-.
  rewrite Hl in Hl'. injection Hl' as <-.
  fold id in Hdb.
  destruct (imported_rows folderPath doujinMeta entries (db w) Hfk)
    as (Hrow & Hpages & Hall & Hold).
  fold id in Hrow, Hpages, Hall. rewrite <- Hdb in Hrow, Hpages, Hall.
  destruct (GetDoujinMetadata_runs name token id w1 w2 userId Hauth Hf1 Hf2)
    as (w3 & Hget & _).
  rewrite Hrow in Hget. cbn [found_or_InvalidId] in Hget.
  eexists _, w3. split; [exact Hget |].
  cbn [Id Title Subtitle UploadDate ExternalRating Tags Characters Artists
       Groups Languages Pages doujin_id title subtitle upload_date
       external_rating tags characters artists groups languages].
  split; [reflexivity |]. split; [reflexivity |]. split; [reflexivity |].
  split; [| split].
  - rewrite Hpages, map_map. cbn [nth].
    change (fun x : PageRow => page_number x) with page_number.
    now rewrite number_pages_numbers.
  - apply page_checks_accepts in Hchk. destruct Hchk as [_ Hsorted].
    rewrite <- Hsorted. apply sort_Ints_perm.
  - intros e Hin Hfile.
    assert (Hfiles : In e (filter is_page_file entries))
      by (apply filter_In; now split).
    destruct (number_pages_file folderPath id _
                (next_rowid (map page_id (DoujinPages (db w)))
                            (seq_DoujinPages (db w))) e Hfiles)
      as (p & Hp & Hnum & Hfirst & Hpath).
    exists (page_id p). split.
    + rewrite Hpages. apply in_map_iff. exists p. now rewrite Hnum.
    + destruct (GetPageFilePath_runs name token (page_id p) w1 w2 userId
                  Hauth Hf1) as (w4 & Hpath4 & _).
      rewrite Hpath4. cbn [fst]. unfold page_paths.
      rewrite Hall, filter_app, filter_none.
      * cbn [app].
        destruct (filter _ (number_pages _ _ _ _)) as [| q qs];
          [discriminate |].
        cbn [hd_error] in Hfirst. injection Hfirst as ->.
        cbn [map found_or_InvalidId]. now rewrite Hpath.
      * intros q Hq. apply Z.eqb_neq.
        apply Hold in Hq. apply number_pages_doujin in Hp. lia.
Qed.

(** ** Tag sets

    The store of the model has no field for the TagSets row of
    [sqlite_sequence]; [CreateTagSet] takes the value of that counter as
    its first argument, and the id a successful call returns is the
    counter's next value. *)

Record TagSet : Type := mkTagSetResult {
  TagSet_Id : Z;
  TagSet_Tags : list string;
  TagSet_AntiTags : list string
}.

(** [INSERT INTO TagSets (user_id, tags, anti_tags) VALUES (?, ?, ?)] *)
Definition insert_tagset (id userId : Z) (tags antiTags : list string)
  (d : Database) : Database :=
  mkDatabase (Users d) (Doujins d) (DoujinPages d)
             (TagSets d ++ [mkTagSet id userId tags antiTags])%list
             (seq_Users d) (seq_Doujins d) (seq_DoujinPages d).

(** [DELETE FROM TagSets WHERE id = ?] *)
Definition delete_tagset (tagSetId : Z) (d : Database) : Database :=
  mkDatabase (Users d) (Doujins d) (DoujinPages d)
             (filter (fun t => negb (tagset_id t =? tagSetId)) (TagSets d))
             (seq_Users d) (seq_Doujins d) (seq_DoujinPages d).

(** [UPDATE TagSets SET tags = ?, anti_tags = ? WHERE id = ?] *)
Definition update_tagset (tags antiTags : list string) (tagSetId : Z)
  (d : Database) : Database :=
  mkDatabase (Users d) (Doujins d) (DoujinPages d)
             (map (fun t =>
                     if tagset_id t =? tagSetId
                     then mkTagSet (tagset_id t) (tagset_user_id t) tags antiTags
                     else t) (TagSets d))
             (seq_Users d) (seq_Doujins d) (seq_DoujinPages d).

(** [SELECT user_id FROM TagSets WHERE id = ?] *)
Definition tagset_owners (tagSetId : Z) (d : Database) : list Z :=
  map tagset_user_id (filter (fun t => tagset_id t =? tagSetId) (TagSets d)).

(** [SELECT id, tags, anti_tags FROM TagSets WHERE user_id = ?], each row
    made a [TagSet]. *)
Definition tagsets_of (userId : Z) (d : Database) : list TagSet :=
  map (fun t => mkTagSetResult (tagset_id t) (tagset_tags t) (tagset_anti_tags t))
      (filter (fun t => tagset_user_id t =? userId) (TagSets d)).

Definition CreateTagSet (sequence : Z) (name token : string)
  (tags antiTags : list string) : M Z :=
  userId <- authenticateUser name token ;;
  fun w =>
    let tagSetId := next_rowid (map tagset_id (TagSets (db w))) sequence in
    match sqlExec "INSERT INTO TagSets (user_id, tags, anti_tags) VALUES (?, ?, ?)"
                  (insert_tagset tagSetId userId tags antiTags) w with
    | (Ok _, w1) => (Ok tagSetId, w1)
    | (Err e, w1) => (Err e, w1)
    | (Panic, w1) => (Panic, w1)
    end.

Definition DeleteTagSet (name token : string) (tagSetId : Z) : M unit :=
  userId <- authenticateUser name token ;;
  tagSetOwnerId <- rename_error is_ErrNoRows (DbError DatabaseErrorInvalidId)
                     (QueryRow (tagset_owners tagSetId)) ;;
  if negb (tagSetOwnerId =? userId) then
    fail (DbError DatabaseErrorUnauthorized)
  else
    sqlExec "DELETE FROM TagSets WHERE id = ?" (delete_tagset tagSetId).

Definition ChangeTagSet (name token : string) (tagSetId : Z)
  (tags antiTags : list string) : M unit :=
  userId <- authenticateUser name token ;;
  tagSetOwnerId <- rename_error is_ErrNoRows (DbError DatabaseErrorInvalidId)
                     (QueryRow (tagset_owners tagSetId)) ;;
  if negb (tagSetOwnerId =? userId) then
    fail (DbError DatabaseErrorUnauthorized)
  else
    sqlExec "UPDATE TagSets SET tags = ?, anti_tags = ? WHERE id = ?"
            (update_tagset tags antiTags tagSetId).

Definition GetTagSets (name token : string) : M (list TagSet) :=
  userId <- authenticateUser name token ;;
  Query (tagsets_of userId).

(** *** What a call on the tag sets does to the store *)

Lemma CreateTagSet_cases (sequence : Z) (name token : string)
  (tags antiTags : list string) (w w' : World) (r : res Z) :
  CreateTagSet sequence name token tags antiTags w = (r, w') ->
  (succeeded r = false /\ db w' = db w)
  \/ (exists userId,
         authenticateUser name token w = (Ok userId, tick w)
         /\ r = Ok (next_rowid (map tagset_id (TagSets (db w))) sequence)
         /\ db w'
            = insert_tagset (next_rowid (map tagset_id (TagSets (db w))) sequence)
                            userId tags antiTags (db w)).
Proof.
  unfold CreateTagSet, bind. intros Hrun.
  destruct (authenticateUser name token w) as [[userId | e |] w1] eqn:Hauth;
    pose proof (authenticateUser_world _ _ _ _ _ Hauth) as ->;
    [| injection Hrun as <- <-; now left ..].
  match type of Hrun with
  | (let (_, _) := ?ins in _) = _ => destruct ins as [ri w2] eqn:Hins
  end.
  apply sqlExec_cases in Hins. cbn [db tick] in *.
  destruct Hins as [(-> & _ & ->) | (msg & -> & _ & ->)];
    injection Hrun as <- <-.
  - right. exists userId. auto.
  - left. auto.
Qed.

(** The check [DeleteTagSet] and [ChangeTagSet] make before they write. *)
Definition owner_check (userId tagSetId : Z) (d : Database) : res unit :=
  match tagset_owners tagSetId d with
  | [] => Err (DbError DatabaseErrorInvalidId)
  | tagSetOwnerId :: _ =>
      if tagSetOwnerId =? userId then Ok tt
      else Err (DbError DatabaseErrorUnauthorized)
  end.

Lemma DeleteTagSet_cases (name token : string) (tagSetId : Z) (w w' : World)
  (r : res unit) :
  DeleteTagSet name token tagSetId w = (r, w') ->
  (succeeded r = false /\ db w' = db w)
  \/ (exists userId,
         authenticateUser name token w = (Ok userId, tick w)
         /\ owner_check userId tagSetId (db w) = Ok tt
         /\ r = Ok tt
         /\ db w' = delete_tagset tagSetId (db w)).
Proof.
  unfold DeleteTagSet, bind at 1. intros Hrun.
  destruct (authenticateUser name token w) as [[userId | e |] w1] eqn:Hauth;
    pose proof (authenticateUser_world _ _ _ _ _ Hauth) as ->;
    [| injection Hrun as <- <-; now left ..].
  unfold bind, rename_error in Hrun.
  destruct (QueryRow (tagset_owners tagSetId) (tick w))
    as [[owner | e |] w2] eqn:Hq;
    pose proof (QueryRow_db _ _ _ _ Hq) as ->;
    [| injection Hrun as <- <-; now left ..].
  apply QueryRow_result in Hq. destruct Hq as [_ [rest Hrows]].
  cbn [db tick] in Hrows.
  destruct (Z.eqb_spec owner userId) as [E | Hne]; cbn [negb] in Hrun.
  - subst owner. apply sqlExec_cases in Hrun. cbn [db tick] in Hrun.
    destruct Hrun as [(-> & _ & ->) | (msg & -> & _ & ->)].
    + right. exists userId. unfold owner_check. rewrite Hrows, Z.eqb_refl. auto.
    + left. auto.
  - injection Hrun as <- <-. now left.
Qed.

Lemma ChangeTagSet_cases (name token : string) (tagSetId : Z)
  (tags antiTags : list string) (w w' : World) (r : res unit) :
  ChangeTagSet name token tagSetId tags antiTags w = (r, w') ->
  (succeeded r = false /\ db w' = db w)
  \/ (exists userId,
         authenticateUser name token w = (Ok userId, tick w)
         /\ owner_check userId tagSetId (db w) = Ok tt
         /\ r = Ok tt
         /\ db w' = update_tagset tags antiTags tagSetId (db w)).
Proof.
  unfold ChangeTagSet, bind at 1. intros Hrun.
  destruct (authenticateUser name token w) as [[userId | e |] w1] eqn:Hauth;
    pose proof (authenticateUser_world _ _ _ _ _ Hauth) as ->;
    [| injection Hrun as <- <-; now left ..].
  unfold bind, rename_error in Hrun.
  destruct (QueryRow (tagset_owners tagSetId) (tick w))
    as [[owner | e |] w2] eqn:Hq;
    pose proof (QueryRow_db _ _ _ _ Hq) as ->;
    [| injection Hrun as <- <-; now left ..].
  apply QueryRow_result in Hq. destruct Hq as [_ [rest Hrows]].
  cbn [db tick] in Hrows.
  destruct (Z.eqb_spec owner userId) as [E | Hne]; cbn [negb] in Hrun.
  - subst owner. apply sqlExec_cases in Hrun. cbn [db tick] in Hrun.
    destruct Hrun as [(-> & _ & ->) | (msg & -> & _ & ->)].
    + right. exists userId. unfold owner_check. rewrite Hrows, Z.eqb_refl. auto.
    + left. auto.
  - injection Hrun as <- <-. now left.
Qed.


(** X10. Only the owner edits a tag set.  For an authenticated caller (the
    statements running) [DeleteTagSet] and [ChangeTagSet] answer
    [InvalidId] when no tag set has the id and [Unauthorized] when the tag
    set belongs to another user, and in both cases the store stays as it
    was; when the tag set is the caller's they succeed. *)
Theorem tagset_edit_needs_owner (name token : string) (tagSetId : Z)
  (tags antiTags : list string) (w w1 : World) (userId : Z) :
  authenticateUser name token w = (Ok userId, w1) ->
  io_fault (io_pos w1) = None -> io_fault (S (io_pos w1)) = None ->
  exists wd wc,
    DeleteTagSet name token tagSetId w
    = (owner_check userId tagSetId (db w), wd)
    /\ ChangeTagSet name token tagSetId tags antiTags w
       = (owner_check userId tagSetId (db w), wc)
    /\ (owner_check userId tagSetId (db w) = Err (DbError DatabaseErrorInvalidId)
        <-> ~ In tagSetId (map tagset_id (TagSets (db w))))
    /\ (owner_check userId tagSetId (db w) = Err (DbError DatabaseErrorUnauthorized)
        <-> exists t rest,
              filter (fun t => tagset_id t =? tagSetId) (TagSets (db w)) = t :: rest
              /\ tagset_user_id t <> userId)
    /\ (owner_check userId tagSetId (db w) <> Ok tt ->
        db wd = db w /\ db wc = db w)
    /\ (owner_check userId tagSetId (db w) = Ok tt ->
        db wd = delete_tagset tagSetId (db w)
        /\ db wc = update_tagset tags antiTags tagSetId (db w)).
Proof.
  intros Hauth Hf1 Hf2.
  pose proof (authenticateUser_world _ _ _ _ _ Hauth) as ->.
  cbn [io_pos tick] in Hf2.
  unfold DeleteTagSet, ChangeTagSet, bind at 1 3. rewrite Hauth.
  unfold bind, rename_error, owner_check, tagset_owners.
  destruct (filter (fun t => tagset_id t =? tagSetId) (TagSets (db w)))
    as [| t rest] eqn:Hrows.
  - rewrite (QueryRow_no_rows _ _ Hf1)
      by (unfold tagset_owners; cbn [db tick]; now rewrite Hrows).
    cbn [map is_ErrNoRows]. do 2 eexists.
    split; [reflexivity |]. split; [reflexivity |].
    split; [| split; [| split]].
    + split; [| reflexivity]. intros _ Hin.
      apply in_map_iff in Hin. destruct Hin as (t & E & Hin).
      assert (H : In t (filter (fun t => tagset_id t =? tagSetId) (TagSets (db w))))
        by (apply filter_In; split; [exact Hin | now apply Z.eqb_eq]).
      now rewrite Hrows in H.
    + split; [discriminate |]. intros (t & rest & H & _). discriminate.
    + intros _. split; reflexivity.
    + discriminate.
  - rewrite (QueryRow_first _ _ (tagset_user_id t) (map tagset_user_id rest) Hf1)
      by (unfold tagset_owners; cbn [db tick]; now rewrite Hrows).
    cbn [map].
    assert (Hin : In tagSetId (map tagset_id (TagSets (db w)))).
    { assert (H : In t (filter (fun t => tagset_id t =? tagSetId) (TagSets (db w))))
        by (rewrite Hrows; now left).
      apply filter_In in H. destruct H as [H E]. apply Z.eqb_eq in E.
      apply in_map_iff. now exists t. }
    destruct (Z.eqb_spec (tagset_user_id t) userId) as [E | Hne]; cbn [negb].
    + rewrite !sqlExec_runs by exact Hf2. do 2 eexists.
      split; [reflexivity |]. split; [reflexivity |].
      split; [| split; [| split]].
      * split; [discriminate |]. intros H. now elim H.
      * split; [discriminate |]. intros (t' & rest' & H & Hne).
        injection H as <- _. now elim Hne.
      * intros H. now elim H.
      * intros _. split; reflexivity.
    + do 2 eexists. unfold fail.
      split; [reflexivity |]. split; [reflexivity |].
      split; [| split; [| split]].
      * split; [discriminate |]. intros H. now elim H.
      * split; [| reflexivity]. intros _. now exists t, rest.
      * intros _. split; reflexivity.
      * discriminate.
Qed.



Lemma owner_check_Ok (userId tagSetId : Z) (d : Database) :
  owner_check userId tagSetId d = Ok tt ->
  exists t rest,
    filter (fun t => tagset_id t =? tagSetId) (TagSets d) = t :: rest
    /\ tagset_user_id t = userId.
Proof.
  unfold owner_check, tagset_owners.
  destruct (filter _ (TagSets d)) as [| t rest]; [discriminate |].
  cbn [map]. destruct (Z.eqb_spec (tagset_user_id t) userId); [| discriminate].
  intros _. now exists t, rest.
Qed.



(** ** Operations that only read *)

(** A computation that leaves the store and the random stream as they
    were, whatever it answers. *)
Definition reads_only {A : Type} (c : M A) : Prop :=
  forall w r w', c w = (r, w') -> db w' = db w /\ rand_pos w' = rand_pos w.

Lemma reads_only_ret {A : Type} (a : A) : reads_only (ret a).
Proof. intros w r w' H. injection H as _ <-. auto. Qed.

Lemma reads_only_fail {A : Type} (e : error) : reads_only (fail (A:=A) e).
Proof. intros w r w' H. injection H as _ <-. auto. Qed.

Lemma reads_only_lift {A : Type} (x : res A) : reads_only (lift x).
Proof. intros w r w' H. injection H as _ <-. auto. Qed.

Lemma reads_only_statement : reads_only statement.
Proof.
  intros w r w'. unfold statement.
  destruct (io_fault (io_pos w)); intros H; injection H as _ <-; auto.
Qed.

Lemma reads_only_bind {A B : Type} (c : M A) (k : A -> M B) :
  reads_only c -> (forall a, reads_only (k a)) -> reads_only (bind c k).
Proof.
  intros Hc Hk w r w'. unfold bind.
  destruct (c w) as [[a | e |] w1] eqn:E; destruct (Hc _ _ _ E) as [H1 H2].
  - intros H. destruct (Hk a _ _ _ H) as [H3 H4]. split; congruence.
  - intros H. injection H as _ <-. auto.
  - intros H. injection H as _ <-. auto.
Qed.

Lemma reads_only_rename_error {A : Type} (is_from : error -> bool) (to : error)
  (c : M A) :
  reads_only c -> reads_only (rename_error is_from to c).
Proof.
  intros Hc w r w'. unfold rename_error.
  destruct (c w) as [[a | e |] w1] eqn:E; destruct (Hc _ _ _ E) as [H1 H2];
    intros H; injection H as _ <-; auto.
Qed.

Lemma reads_only_QueryRow {R : Type} (rows : Database -> list R) :
  reads_only (QueryRow rows).
Proof.
  apply reads_only_bind; [apply reads_only_statement |].
  intros _ w r w'. destruct (rows (db w)); intros H; injection H as _ <-; auto.
Qed.

Lemma reads_only_Query {R : Type} (rows : Database -> list R) :
  reads_only (Query rows).
Proof.
  apply reads_only_bind; [apply reads_only_statement |].
  intros _ w r w' H. injection H as _ <-. auto.
Qed.

Lemma reads_only_authenticateUser (name token : string) :
  reads_only (authenticateUser name token).
Proof.
  unfold authenticateUser.
  apply reads_only_bind;
    [apply reads_only_rename_error, reads_only_QueryRow |].
  intros row. apply reads_only_bind; [apply reads_only_lift |].
  intros hasToken. destruct (negb hasToken);
    [apply reads_only_fail | apply reads_only_ret].
Qed.

Lemma reads_only_collect_entries (rows : list DoujinRow) :
  reads_only (collect_entries rows).
Proof.
  induction rows as [| row rows IH]; cbn [collect_entries];
    [apply reads_only_ret |].
  apply reads_only_bind.
  - intros w r w'. unfold cover_page_id.
    destruct (QueryRow (cover_pages (doujin_id row)) w) as [[a | e |] w1] eqn:E;
      destruct (reads_only_QueryRow _ _ _ _ E) as [H1 H2];
      [| destruct e |]; intros H; injection H as _ <-; auto.
  - intros capePageId. apply reads_only_bind; [exact IH |].
    intros doujins. apply reads_only_ret.
Qed.

Lemma reads_only_query (q : list SqlFragment * list SqlValue) :
  reads_only (query_count q) /\ reads_only (query_rows q).
Proof.
  split; (apply reads_only_bind; [apply reads_only_statement |]);
    intros _ w r w'; destruct (bind_query q) as [b |];
    try destruct (bq_count b); try destruct (select_rows b _);
    intros H; injection H as _ <-; auto.
Qed.

Lemma reads_only_SearchDoujins (name token query : string)
  (tags antiTags : list string) (pageSize pageNumber : Z) :
  reads_only (SearchDoujins name token query tags antiTags pageSize pageNumber).
Proof.
  unfold SearchDoujins.
  apply reads_only_bind; [apply reads_only_authenticateUser |]. intros _.
  destruct (_ || _); [apply reads_only_fail |].
  destruct (_ <? _); [apply reads_only_fail |].
  apply reads_only_bind; [apply reads_only_query |]. intros resultsCount.
  destruct (_ <? _); [apply reads_only_ret |].
  destruct (_ >? _); [apply reads_only_fail |].
  apply reads_only_bind; [apply reads_only_query |]. intros rows.
  apply reads_only_bind; [apply reads_only_collect_entries |]. intros doujins.
  apply reads_only_ret.
Qed.

Lemma reads_only_IsAuthDataValid (name token : string) :
  reads_only (IsAuthDataValid name token).
Proof.
  intros w r w'. unfold IsAuthDataValid.
  destruct (authenticateUser name token w) as [[a | e |] w1] eqn:E;
    destruct (reads_only_authenticateUser _ _ _ _ _ E) as [H1 H2];
    [| destruct e as [[] | | | | | |] |];
    intros H; injection H as _ <-; auto.
Qed.

Lemma reads_only_GetUsername (name token : string) :
  reads_only (GetUsername name token).
Proof.
  unfold GetUsername.
  apply reads_only_bind; [apply reads_only_authenticateUser |]. intros userId.
  apply reads_only_bind; [apply reads_only_QueryRow |]. intros row.
  apply reads_only_ret.
Qed.

Lemma reads_only_GetDoujinMetadata (name token : string) (id : Z) :
  reads_only (GetDoujinMetadata name token id).
Proof.
  unfold GetDoujinMetadata.
  apply reads_only_bind; [apply reads_only_authenticateUser |]. intros _.
  apply reads_only_bind;
    [apply reads_only_rename_error, reads_only_QueryRow |]. intros row.
  apply reads_only_bind; [apply reads_only_Query |]. intros pages.
  apply reads_only_ret.
Qed.

Lemma reads_only_GetPageFilePath (name token : string) (pageId : Z) :
  reads_only (GetPageFilePath name token pageId).
Proof.
  unfold GetPageFilePath.
  apply reads_only_bind; [apply reads_only_authenticateUser |]. intros _.
  apply reads_only_rename_error, reads_only_QueryRow.
Qed.

Lemma reads_only_GetTagSets (name token : string) :
  reads_only (GetTagSets name token).
Proof.
  unfold GetTagSets.
  apply reads_only_bind; [apply reads_only_authenticateUser |]. intros userId.
  apply reads_only_Query.
Qed.

(** X13. The operations that answer a question never write: whatever
    they return, an error or a panic included, [IsAuthDataValid],
    [GetUsername], [SearchDoujins], [GetDoujinMetadata], [GetPageFilePath]
    and [GetTagSets] leave every table and counter of the store as it was
    and draw nothing from the random stream. *)
Theorem queries_never_write (name token query : string)
  (tags antiTags : list string) (pageSize pageNumber id : Z) :
  reads_only (IsAuthDataValid name token)
  /\ reads_only (GetUsername name token)
  /\ reads_only (SearchDoujins name token query tags antiTags pageSize pageNumber)
  /\ reads_only (GetDoujinMetadata name token id)
  /\ reads_only (GetPageFilePath name token id)
  /\ reads_only (GetTagSets name token).
Proof.
  split; [apply reads_only_IsAuthDataValid |].
  split; [apply reads_only_GetUsername |].
  split; [apply reads_only_SearchDoujins |].
  split; [apply reads_only_GetDoujinMetadata |].
  split; [apply reads_only_GetPageFilePath | apply reads_only_GetTagSets].
Qed.

(** ** No service without a session *)

Lemma credentials_first {A : Type} (name token : string) (k : Z -> M A) (w : World)
  (e : error) :
  fst (authenticateUser name token w) = Err e ->
  fst (bind (authenticateUser name token) k w) = Err e
  /\ db (snd (bind (authenticateUser name token) k w)) = db w.
Proof.
  unfold bind.
  destruct (authenticateUser name token w) as [[a | e' |] w1] eqn:Hauth;
    cbn [fst snd]; try discriminate.
  intros H. injection H as ->. split; [reflexivity |].
  apply authenticateUser_world in Hauth. now subst w1.
Qed.

(** X14. Every operation that takes credentials checks them before
    anything else.  When [authenticateUser] refuses them, with
    [InexistentUser] for a name no user has and [InvalidToken] for a token
    no entry of the user's ledger verifies, or fails, the operation
    returns that same error, also where its other arguments are invalid,
    and the store is left as it was. *)
Theorem no_service_without_session (name token query : string)
  (tags antiTags : list string) (pageSize pageNumber id sequence : Z)
  (w : World) :
  (io_fault (io_pos w) = None ->
   (users_named name (db w) = [] ->
    fst (authenticateUser name token w) = Err (DbError DatabaseErrorInexistentUser))
   /\ (forall row others,
          users_named name (db w) = row :: others ->
          HasToken (session_tokens row) token = Ok false ->
          fst (authenticateUser name token w)
          = Err (DbError DatabaseErrorInvalidToken)))
  /\ forall e,
       fst (authenticateUser name token w) = Err e ->
       fst (GetUsername name token w) = Err e
       /\ fst (SearchDoujins name token query tags antiTags pageSize
                             pageNumber w) = Err e
       /\ fst (GetDoujinMetadata name token id w) = Err e
       /\ fst (GetPageFilePath name token id w) = Err e
       /\ fst (GetTagSets name token w) = Err e
       /\ (fst (CreateTagSet sequence name token tags antiTags w) = Err e
           /\ db (snd (CreateTagSet sequence name token tags antiTags w)) = db w)
       /\ (fst (DeleteTagSet name token id w) = Err e
           /\ db (snd (DeleteTagSet name token id w)) = db w)
       /\ (fst (ChangeTagSet name token id tags antiTags w) = Err e
           /\ db (snd (ChangeTagSet name token id tags antiTags w)) = db w).
Proof.
  split.
  - intros Hf. split.
    + intros Hnone. unfold authenticateUser, bind, rename_error.
      now rewrite (QueryRow_no_rows _ w Hf Hnone).
    + intros row others Hu Hh.
      now rewrite (authenticateUser_spec name token w row others false Hf Hu Hh).
  - intros e He.
    split; [apply (credentials_first name token _ w e He) |].
    split; [apply (credentials_first name token _ w e He) |].
    split; [apply (credentials_first name token _ w e He) |].
    split; [apply (credentials_first name token _ w e He) |].
    split; [apply (credentials_first name token _ w e He) |].
    split; [apply (credentials_first name token _ w e He) |].
    split; apply (credentials_first name token _ w e He).
Qed.

(** ** Histories of calls

    A server state is the world and the TagSets counter; a history is a
    list of calls of the data layer, run one after the other from the
    empty store [NewDatabase] creates.  ([GetAllTags], which writes
    nothing, is not among them.)  The answers of the calls are dropped:
    what follows is about the stores a history can produce. *)

Inductive call : Type :=
| CallRegisterUser (name password : string)
| CallLoginUser (name password : string)
| CallLogoutUser (name token : string)
| CallIsAuthDataValid (name token : string)
| CallGetUsername (name token : string)
| CallRegisterDoujin (folderPath : string) (folder : Folder)
| CallSearchDoujins (name token query : string) (tags antiTags : list string)
                    (pageSize pageNumber : Z)
| CallGetDoujinMetadata (name token : string) (id : Z)
| CallGetPageFilePath (name token : string) (pageId : Z)
| CallCreateTagSet (name token : string) (tags antiTags : list string)
| CallDeleteTagSet (name token : string) (tagSetId : Z)
| CallChangeTagSet (name token : string) (tagSetId : Z)
                   (tags antiTags : list string)
| CallGetTagSets (name token : string).

Record Server : Type := mkServer {
  server_world : World;
  seq_TagSets : Z
}.

Definition fresh_server (pos io : nat) : Server :=
  mkServer (mkWorld empty_database pos io) 0.

(** The state after a call that does not touch the TagSets counter. *)
Definition served {A : Type} (c : M A) (s : Server) : Server :=
  mkServer (snd (c (server_world s))) (seq_TagSets s).

Definition run_call (s : Server) (c : call) : Server :=
  match c with
  | CallRegisterUser name password => served (RegisterUser name password) s
  | CallLoginUser name password => served (LoginUser name password) s
  | CallLogoutUser name token => served (LogoutUser name token) s
  | CallIsAuthDataValid name token => served (IsAuthDataValid name token) s
  | CallGetUsername name token => served (GetUsername name token) s
  | CallRegisterDoujin folderPath folder =>
      served (RegisterDoujin folderPath folder) s
  | CallSearchDoujins name token query tags antiTags pageSize pageNumber =>
      served (SearchDoujins name token query tags antiTags pageSize pageNumber) s
  | CallGetDoujinMetadata name token id =>
      served (GetDoujinMetadata name token id) s
  | CallGetPageFilePath name token pageId =>
      served (GetPageFilePath name token pageId) s
  | CallCreateTagSet name token tags antiTags =>
      let '(r, w') := CreateTagSet (seq_TagSets s) name token tags antiTags
                                   (server_world s) in
      mkServer w' (match r with Ok tagSetId => tagSetId | _ => seq_TagSets s end)
  | CallDeleteTagSet name token tagSetId =>
      served (DeleteTagSet name token tagSetId) s
  | CallChangeTagSet name token tagSetId tags antiTags =>
      served (ChangeTagSet name token tagSetId tags antiTags) s
  | CallGetTagSets name token => served (GetTagSets name token) s
  end.

Definition run_calls (calls : list call) (s : Server) : Server :=
  fold_left run_call calls s.

Definition reachable (s : Server) : Prop :=
  exists calls pos io, s = run_calls calls (fresh_server pos io).

Definition store_of (s : Server) : Database := db (server_world s).

(** *** The user table *)

(** A name as NOCASE compares it. *)
Definition folded (name : string) : list ascii := map tolower (chars name).

Record user_rows_ok (d : Database) : Prop := {
  names_valid :
    Forall (fun u => isUsernameValid (username u) = true) (Users d);
  names_differ : NoDup (map (fun u => folded (username u)) (Users d));
  user_ids_differ : NoDup (map user_id (Users d));
  user_ids_issued : Forall (fun u => 0 < user_id u <= seq_Users d) (Users d)
}.

Lemma nocase_eqb_folded (a b : string) :
  nocase_eqb a b = true <-> folded a = folded b.
Proof.
  unfold nocase_eqb, folded.
  destruct (list_eq_dec ascii_dec _ _); split; auto; discriminate.
Qed.

Lemma user_rows_ok_empty : user_rows_ok empty_database.
Proof. split; cbn; constructor. Qed.

Lemma NoDup_snoc {A : Type} (l : list A) (x : A) :
  NoDup l -> ~ In x l -> NoDup (l ++ [x]).
Proof.
  intros Hl Hx. induction Hl as [| y l Hy Hl IH]; cbn.
  - constructor; [intros [] | constructor].
  - constructor.
    + intros Hin. apply in_app_or in Hin. destruct Hin as [Hin | [-> | []]].
      * now apply Hy.
      * apply Hx. now left.
    + apply IH. intros Hin. apply Hx. now right.
Qed.

Lemma next_rowid_positive (ids : list Z) (sequence : Z) :
  Z.max 0 sequence < next_rowid ids sequence
  /\ forall x, In x ids -> x < next_rowid ids sequence.
Proof.
  unfold next_rowid. pose proof (max_id_nonneg ids). split; [lia |].
  intros x Hx. apply max_id_bound in Hx. lia.
Qed.

Lemma user_rows_ok_insert (name hash salt tokens : string) (d : Database) :
  user_rows_ok d -> isUsernameValid name = true -> users_named name d = [] ->
  user_rows_ok (insert_user name hash salt tokens d).
Proof.
  intros [H1 H2 H3 H4] Hvalid Hnone.
  pose proof (next_rowid_positive (map user_id (Users d)) (seq_Users d))
    as [Hpos Hnew].
  split; cbn [insert_user Users seq_Users].
  - apply Forall_app. split; [exact H1 |]. now repeat constructor.
  - rewrite map_app. cbn [map username]. apply NoDup_snoc; [exact H2 |].
    intros Hin. apply in_map_iff in Hin. destruct Hin as (u & E & Hin).
    assert (H : In u (users_named name d)).
    { apply filter_In. split; [exact Hin |]. now apply nocase_eqb_folded. }
    now rewrite Hnone in H.
  - rewrite map_app. cbn [map user_id]. apply NoDup_snoc; [exact H3 |].
    apply next_rowid_fresh.
  - apply Forall_app. split.
    + rewrite Forall_forall in *. intros u Hu. specialize (H4 u Hu). lia.
    + repeat constructor; cbn [user_id]; lia.
Qed.

Lemma update_session_tokens_rows (tokens name : string) (d : Database) :
  map username (Users (update_session_tokens tokens name d))
  = map username (Users d)
  /\ map user_id (Users (update_session_tokens tokens name d))
     = map user_id (Users d).
Proof.
  unfold update_session_tokens. cbn [Users]. rewrite !map_map.
  split; apply map_ext; intros u;
    now destruct (nocase_eqb (username u) name).
Qed.

Lemma user_rows_ok_update (tokens name : string) (d : Database) :
  user_rows_ok d -> user_rows_ok (update_session_tokens tokens name d).
Proof.
  intros [H1 H2 H3 H4].
  destruct (update_session_tokens_rows tokens name d) as [Hn Hi].
  split.
  - apply Forall_forall. intros u Hu.
    assert (Hin : In (username u) (map username (Users d)))
      by (rewrite <- Hn; now apply in_map).
    apply in_map_iff in Hin. destruct Hin as (u0 & E & Hin).
    rewrite Forall_forall in H1. rewrite <- E. now apply H1.
  - rewrite <- (map_map username folded), Hn, map_map. exact H2.
  - now rewrite Hi.
  - apply Forall_forall. intros u Hu.
    assert (Hin : In (user_id u) (map user_id (Users d)))
      by (rewrite <- Hi; now apply in_map).
    apply in_map_iff in Hin. destruct Hin as (u0 & E & Hin).
    rewrite Forall_forall in H4. rewrite <- E.
    now apply (H4 u0).
Qed.

Lemma user_rows_ok_same (d d' : Database) :
  Users d' = Users d -> seq_Users d' = seq_Users d ->
  user_rows_ok d -> user_rows_ok d'.
Proof. intros Hu Hs [H1 H2 H3 H4]. split; rewrite ?Hu, ?Hs; assumption. Qed.

Lemma ledgers_ok_same (d d' : Database) :
  Users d' = Users d -> ledgers_ok d -> ledgers_ok d'.
Proof. unfold ledgers_ok. now intros ->. Qed.

(** *** Doujins and pages *)

(** The page numbers stored for a doujin, in table order. *)
Definition stored_page_numbers (id : Z) (d : Database) : list Z :=
  map page_number (pages_of_doujin id d).

Record library_ok (d : Database) : Prop := {
  doujin_ids_differ : NoDup (map doujin_id (Doujins d));
  doujin_ids_issued :
    Forall (fun row => 0 < doujin_id row <= seq_Doujins d) (Doujins d);
  page_ids_differ : NoDup (map page_id (DoujinPages d));
  page_ids_issued :
    Forall (fun p => 0 < page_id p <= seq_DoujinPages d) (DoujinPages d);
  pages_belong : pages_have_doujins d;
  pages_complete :
    Forall (fun row =>
              stored_page_numbers (doujin_id row) d = []
              \/ Permutation (stored_page_numbers (doujin_id row) d)
                             (one_to (pages row)))
           (Doujins d)
}.

Lemma library_ok_empty : library_ok empty_database.
Proof. split; cbn; try constructor. intros p []. Qed.

Lemma library_ok_same (d d' : Database) :
  Doujins d' = Doujins d -> DoujinPages d' = DoujinPages d ->
  seq_Doujins d' = seq_Doujins d -> seq_DoujinPages d' = seq_DoujinPages d ->
  library_ok d -> library_ok d'.
Proof.
  intros Hd Hp Hsd Hsp [H1 H2 H3 H4 H5 H6].
  split; unfold pages_have_doujins, stored_page_numbers, pages_of_doujin in *;
    rewrite ?Hd, ?Hp, ?Hsd, ?Hsp; assumption.
Qed.

Lemma no_pages_of_fresh_doujin (d : Database) :
  pages_have_doujins d ->
  pages_of_doujin (next_rowid (map doujin_id (Doujins d)) (seq_Doujins d)) d = [].
Proof.
  intros Hfk. apply filter_none. intros p Hp. apply Z.eqb_neq. intros E.
  apply (next_rowid_fresh (map doujin_id (Doujins d)) (seq_Doujins d)).
  rewrite <- E. now apply Hfk.
Qed.

Lemma library_ok_insert_doujin (m : DoujinImportMetadata) (d : Database) :
  library_ok d -> library_ok (insert_doujin m d).
Proof.
  intros [H1 H2 H3 H4 H5 H6].
  pose proof (next_rowid_positive (map doujin_id (Doujins d)) (seq_Doujins d))
    as [Hpos Hnew].
  split; cbn [insert_doujin Doujins DoujinPages seq_Doujins seq_DoujinPages].
  - rewrite map_app. cbn [map doujin_id]. apply NoDup_snoc; [exact H1 |].
    apply next_rowid_fresh.
  - apply Forall_app. split.
    + rewrite Forall_forall in *. intros row Hr. specialize (H2 row Hr). lia.
    + repeat constructor; cbn [doujin_id]; lia.
  - exact H3.
  - exact H4.
  - now apply insert_doujin_keeps_pages.
  - apply Forall_app. split.
    + exact H6.
    + constructor; [| constructor]. left. cbn [doujin_id].
      unfold stored_page_numbers.
      change (pages_of_doujin ?i (insert_doujin m d)) with (pages_of_doujin i d).
      now rewrite no_pages_of_fresh_doujin.
Qed.

Lemma page_ids_insert_page (doujinId : Z) (pagePath : string) (pageNumber : Z)
  (d : Database) :
  NoDup (map page_id (DoujinPages d)) ->
  Forall (fun p => 0 < page_id p <= seq_DoujinPages d) (DoujinPages d) ->
  let d' := insert_page doujinId pagePath pageNumber d in
  NoDup (map page_id (DoujinPages d'))
  /\ Forall (fun p => 0 < page_id p <= seq_DoujinPages d') (DoujinPages d').
Proof.
  intros H3 H4.
  pose proof (next_rowid_positive (map page_id (DoujinPages d))
                                  (seq_DoujinPages d)) as [Hpos Hnew].
  cbn [insert_page DoujinPages seq_DoujinPages]. split.
  - rewrite map_app. cbn [map page_id]. apply NoDup_snoc; [exact H3 |].
    apply next_rowid_fresh.
  - apply Forall_app. split.
    + rewrite Forall_forall in *. intros p Hp. specialize (H4 p Hp). lia.
    + repeat constructor; cbn [page_id]; lia.
Qed.

Lemma page_ids_insert_pages (folderPath : string) (doujinId : Z)
  (entries : list DirEntry) (d : Database) :
  NoDup (map page_id (DoujinPages d)) ->
  Forall (fun p => 0 < page_id p <= seq_DoujinPages d) (DoujinPages d) ->
  let d' := insert_pages folderPath doujinId entries d in
  NoDup (map page_id (DoujinPages d'))
  /\ Forall (fun p => 0 < page_id p <= seq_DoujinPages d') (DoujinPages d').
Proof.
  unfold insert_pages. revert d.
  induction (filter is_page_file entries) as [| e files IH]; intros d H3 H4.
  - cbn. auto.
  - cbn [fold_left].
    destruct (page_ids_insert_page doujinId (path_Join folderPath (entry_Name e))
                (pageNameToPageNumber (entry_Name e)) d H3 H4) as [H3' H4'].
    now apply IH.
Qed.

Lemma library_ok_import (folderPath : string) (m : DoujinImportMetadata)
  (entries : list DirEntry) (d : Database) :
  library_ok d ->
  page_checks (meta_Pages m) (page_numbers entries) = Ok tt ->
  library_ok (insert_pages folderPath
                (next_rowid (map doujin_id (Doujins d)) (seq_Doujins d))
                entries (insert_doujin m d)).
Proof.
  intros Hd Hchk.
  pose proof (library_ok_insert_doujin m d Hd) as [H1 H2 H3 H4 H5 H6].
  destruct (imported_rows folderPath m entries d (pages_belong d Hd))
    as (Hrow & Hpages & Hall & Hold).
  set (id := next_rowid (map doujin_id (Doujins d)) (seq_Doujins d)) in *.
  destruct (insert_pages_rows folderPath id entries (insert_doujin m d))
    as (_ & HD & _ & _ & HsD & _).
  set (d' := insert_pages folderPath id entries (insert_doujin m d)) in *.
  destruct (page_ids_insert_pages folderPath id entries (insert_doujin m d) H3 H4)
    as [H3' H4'].
  fold d' in H3', H4'.
  assert (Hid : In id (map doujin_id (Doujins d')))
    by (rewrite HD; cbn [insert_doujin Doujins]; rewrite map_app;
        apply in_or_app; right; now left).
  split.
  - now rewrite HD.
  - now rewrite HD, HsD.
  - exact H3'.
  - exact H4'.
  - intros p Hp. rewrite Hall in Hp. apply in_app_or in Hp.
    destruct Hp as [Hp | Hp].
    + rewrite HD. apply (H5 p). exact Hp.
    + apply number_pages_doujin in Hp. destruct Hp as [-> _]. exact Hid.
  - rewrite HD. cbn [insert_doujin Doujins]. apply Forall_app. split.
    + destruct Hd as [G1 _ _ _ G5 G6]. rewrite Forall_forall in *.
      intros row Hr. specialize (G6 row Hr).
      assert (Hne : doujin_id row <> id).
      { intros E. apply (next_rowid_fresh (map doujin_id (Doujins d))
                                          (seq_Doujins d)).
        fold id. rewrite <- E. now apply in_map. }
      assert (Hsame : stored_page_numbers (doujin_id row) d'
                      = stored_page_numbers (doujin_id row) d).
      { unfold stored_page_numbers, pages_of_doujin. rewrite Hall, filter_app.
        rewrite (filter_none _ (number_pages _ _ _ _)); [now rewrite app_nil_r |].
        intros p Hp. apply number_pages_doujin in Hp. destruct Hp as [-> _].
        apply Z.eqb_neq. congruence. }
      now rewrite Hsame.
    + constructor; [| constructor]. right. cbn [doujin_id pages].
      unfold stored_page_numbers. fold id. rewrite Hpages.
      rewrite number_pages_numbers.
      change (map _ (filter is_page_file entries)) with (page_numbers entries).
      apply page_checks_accepts in Hchk. destruct Hchk as [_ Hsorted].
      rewrite <- Hsorted. apply sort_Ints_perm.
Qed.

(** *** Tag sets *)

Record tagsets_ok (d : Database) (sequence : Z) : Prop := {
  tagset_ids_differ : NoDup (map tagset_id (TagSets d));
  tagset_ids_issued :
    Forall (fun t => 0 < tagset_id t <= sequence) (TagSets d);
  tagset_owners_exist :
    Forall (fun t => In (tagset_user_id t) (map user_id (Users d))) (TagSets d)
}.

Lemma tagsets_ok_empty : tagsets_ok empty_database 0.
Proof. split; cbn; constructor. Qed.

Lemma tagsets_ok_same (d d' : Database) (sequence : Z) :
  TagSets d' = TagSets d ->
  (forall id, In id (map user_id (Users d)) -> In id (map user_id (Users d'))) ->
  tagsets_ok d sequence -> tagsets_ok d' sequence.
Proof.
  intros Ht Hu [H1 H2 H3]. split; rewrite Ht; try assumption.
  eapply Forall_impl; [| exact H3]. intros t. apply Hu.
Qed.

Lemma authenticateUser_user (name token : string) (w w1 : World) (userId : Z) :
  authenticateUser name token w = (Ok userId, w1) ->
  In userId (map user_id (Users (db w))).
Proof.
  unfold authenticateUser, bind at 1, rename_error. intros Hrun.
  destruct (QueryRow (users_named name) w) as [[row | e |] w2] eqn:Hq;
    try discriminate.
  apply QueryRow_result in Hq. destruct Hq as [-> [others Hu]].
  unfold bind, lift in Hrun.
  destruct (HasToken (session_tokens row) token) as [[|] | e |];
    try discriminate.
  injection Hrun as <- _. apply in_map.
  assert (H : In row (users_named name (db w))) by (rewrite Hu; now left).
  now apply filter_In in H.
Qed.

Lemma tagsets_ok_insert (userId : Z) (tags antiTags : list string)
  (d : Database) (sequence : Z) :
  tagsets_ok d sequence -> In userId (map user_id (Users d)) ->
  let id := next_rowid (map tagset_id (TagSets d)) sequence in
  tagsets_ok (insert_tagset id userId tags antiTags d) id.
Proof.
  intros [H1 H2 H3] Hu id.
  pose proof (next_rowid_positive (map tagset_id (TagSets d)) sequence)
    as [Hpos Hnew].
  fold id in Hpos, Hnew.
  split; cbn [insert_tagset TagSets Users].
  - rewrite map_app. cbn [map tagset_id]. apply NoDup_snoc; [exact H1 |].
    apply next_rowid_fresh.
  - apply Forall_app. split.
    + rewrite Forall_forall in *. intros t Ht. specialize (H2 t Ht). lia.
    + repeat constructor; cbn [tagset_id]; lia.
  - apply Forall_app. split; [exact H3 |]. now repeat constructor.
Qed.

Lemma NoDup_map_filter {A B : Type} (f : A -> B) (g : A -> bool) (l : list A) :
  NoDup (map f l) -> NoDup (map f (filter g l)).
Proof.
  induction l as [| x l IH]; cbn [map filter]; [auto |].
  intros H. inversion H as [| ? ? Hx Hl]. subst.
  destruct (g x); [| now apply IH].
  cbn [map]. constructor; [| now apply IH].
  intros Hin. apply Hx. apply in_map_iff in Hin.
  destruct Hin as (y & E & Hy). apply filter_In in Hy.
  apply in_map_iff. exists y. now split.
Qed.

Lemma tagsets_ok_delete (tagSetId : Z) (d : Database) (sequence : Z) :
  tagsets_ok d sequence -> tagsets_ok (delete_tagset tagSetId d) sequence.
Proof.
  intros [H1 H2 H3]. split; cbn [delete_tagset TagSets Users].
  - now apply NoDup_map_filter.
  - rewrite Forall_forall in *. intros t Ht. apply filter_In in Ht.
    now apply H2.
  - rewrite Forall_forall in *. intros t Ht. apply filter_In in Ht.
    now apply H3.
Qed.

Lemma tagsets_ok_update (tags antiTags : list string) (tagSetId : Z)
  (d : Database) (sequence : Z) :
  tagsets_ok d sequence ->
  tagsets_ok (update_tagset tags antiTags tagSetId d) sequence.
Proof.
  intros [H1 H2 H3].
  assert (Hids : map tagset_id (TagSets (update_tagset tags antiTags tagSetId d))
                 = map tagset_id (TagSets d)).
  { cbn [update_tagset TagSets]. rewrite map_map. apply map_ext. intros t.
    now destruct (tagset_id t =? tagSetId). }
  split.
  - now rewrite Hids.
  - cbn [update_tagset TagSets]. apply Forall_map.
    eapply Forall_impl; [| exact H2]. intros t Ht.
    now destruct (tagset_id t =? tagSetId).
  - cbn [update_tagset TagSets Users]. apply Forall_map.
    eapply Forall_impl; [| exact H3]. intros t Ht.
    now destruct (tagset_id t =? tagSetId).
Qed.

(** *** What every history keeps *)

Record store_ok (s : Server) : Prop := {
  ok_users : user_rows_ok (store_of s);
  ok_ledgers : ledgers_ok (store_of s);
  ok_library : library_ok (store_of s);
  ok_tagsets : tagsets_ok (store_of s) (seq_TagSets s)
}.

Lemma store_ok_fresh (pos io : nat) : store_ok (fresh_server pos io).
Proof.
  split; [apply user_rows_ok_empty | apply empty_database_ledgers_ok
          | apply library_ok_empty | apply tagsets_ok_empty].
Qed.

Lemma store_ok_same (s : Server) (w' : World) :
  db w' = store_of s -> store_ok s -> store_ok (mkServer w' (seq_TagSets s)).
Proof.
  intros Hdb [H1 H2 H3 H4].
  split; unfold store_of; cbn [server_world seq_TagSets]; now rewrite Hdb.
Qed.

Lemma served_reads_only {A : Type} (c : M A) (s : Server) :
  reads_only c -> store_ok s -> store_ok (served c s).
Proof.
  intros Hc Hs. unfold served.
  destruct (c (server_world s)) as [r w'] eqn:Hrun.
  apply store_ok_same; [| exact Hs]. now apply (Hc _ _ _ Hrun).
Qed.

Lemma store_ok_users_change (s : Server) (w' : World) :
  store_ok s ->
  user_rows_ok (db w') -> ledgers_ok (db w') ->
  Doujins (db w') = Doujins (store_of s) ->
  DoujinPages (db w') = DoujinPages (store_of s) ->
  seq_Doujins (db w') = seq_Doujins (store_of s) ->
  seq_DoujinPages (db w') = seq_DoujinPages (store_of s) ->
  TagSets (db w') = TagSets (store_of s) ->
  (forall id, In id (map user_id (Users (store_of s))) ->
              In id (map user_id (Users (db w')))) ->
  store_ok (mkServer w' (seq_TagSets s)).
Proof.
  intros [H1 H2 H3 H4] Hu Hl Hd Hp Hsd Hsp Ht Hids.
  split; unfold store_of in *; cbn [server_world seq_TagSets].
  - exact Hu.
  - exact Hl.
  - now apply (library_ok_same (db (server_world s))).
  - now apply (tagsets_ok_same (db (server_world s))).
Qed.

Lemma run_call_ok (s : Server) (c : call) : store_ok s -> store_ok (run_call s c).
Proof.
  intros Hs. pose proof Hs as [H1 H2 H3 H4].
  destruct c as [name password | name password | name token | name token
                | name token | folderPath folder
                | name token query wanted unwanted pageSize pageNumber
                | name token id | name token pageId
                | name token wanted unwanted | name token tagSetId
                | name token tagSetId wanted unwanted | name token];
    cbn [run_call].
  - (* RegisterUser *)
    unfold served.
    destruct (RegisterUser name password (server_world s)) as [r w'] eqn:Hrun.
    cbn [snd].
    pose proof (RegisterUser_keeps_ledgers _ _ _ _ _ Hrun H2) as Hl.
    destruct (RegisterUser_cases _ _ _ _ _ Hrun)
      as [[_ Hdb] | (_ & Hv & _ & Hnone & Hdb)].
    + now apply store_ok_same.
    + apply store_ok_users_change; try exact Hs; try exact Hl;
        try (rewrite Hdb; reflexivity).
      * rewrite Hdb. now apply user_rows_ok_insert.
      * intros id Hin. rewrite Hdb. cbn [insert_user Users].
        rewrite map_app. apply in_or_app. now left.
  - (* LoginUser *)
    unfold served.
    destruct (LoginUser name password (server_world s)) as [r w'] eqn:Hrun.
    cbn [snd].
    pose proof (LoginUser_keeps_ledgers _ _ _ _ _ Hrun H2) as Hl.
    destruct (LoginUser_cases _ _ _ _ _ Hrun)
      as [[_ Hdb] | (row & others & tk & st & pos & _ & _ & _ & _ & Hw')].
    + now apply store_ok_same.
    + assert (Hdb : db w' = update_session_tokens st name (store_of s))
        by now rewrite Hw'.
      apply store_ok_users_change; try exact Hs; try exact Hl;
        try (rewrite Hdb; reflexivity).
      * rewrite Hdb. now apply user_rows_ok_update.
      * intros id Hin. rewrite Hdb.
        now rewrite (proj2 (update_session_tokens_rows st name (store_of s))).
  - (* LogoutUser *)
    unfold served.
    destruct (LogoutUser name token (server_world s)) as [r w'] eqn:Hrun.
    cbn [snd].
    pose proof (LogoutUser_keeps_ledgers _ _ _ _ _ Hrun H2) as Hl.
    destruct (LogoutUser_cases _ _ _ _ _ Hrun)
      as [[_ Hdb] | (row & others & st & _ & _ & _ & Hw')].
    + now apply store_ok_same.
    + assert (Hdb : db w' = update_session_tokens st name (store_of s))
        by now rewrite Hw'.
      apply store_ok_users_change; try exact Hs; try exact Hl;
        try (rewrite Hdb; reflexivity).
      * rewrite Hdb. now apply user_rows_ok_update.
      * intros id Hin. rewrite Hdb.
        now rewrite (proj2 (update_session_tokens_rows st name (store_of s))).
  - apply served_reads_only; [apply reads_only_IsAuthDataValid | exact Hs].
  - apply served_reads_only; [apply reads_only_GetUsername | exact Hs].
  - (* RegisterDoujin *)
    unfold served.
    destruct (RegisterDoujin folderPath folder (server_world s)) as [r w'] eqn:Hrun.
    cbn [snd].
    destruct (RegisterDoujin_cases _ _ _ _ _ Hrun)
      as [[_ Hdb] | [(m & _ & _ & Hdb) | (m & es & _ & _ & _ & Hchk & Hdb)]].
    + now apply store_ok_same.
    + split; unfold store_of in *; cbn [server_world seq_TagSets]; rewrite Hdb.
      * now apply (user_rows_ok_same (db (server_world s))).
      * now apply (ledgers_ok_same (db (server_world s))).
      * now apply library_ok_insert_doujin.
      * now apply (tagsets_ok_same (db (server_world s))).
    + destruct (insert_pages_rows folderPath
                  (next_rowid (map doujin_id (Doujins (store_of s)))
                              (seq_Doujins (store_of s)))
                  es (insert_doujin m (store_of s)))
        as (HU & _ & HT & HsU & _ & _).
      cbn [insert_doujin Users TagSets seq_Users] in HU, HT, HsU.
      split; unfold store_of in *; cbn [server_world seq_TagSets]; rewrite Hdb.
      * now apply (user_rows_ok_same (db (server_world s))).
      * now apply (ledgers_ok_same (db (server_world s))).
      * now apply library_ok_import.
      * apply (tagsets_ok_same (db (server_world s))); [exact HT | | exact H4].
        intros id. now rewrite HU.
  - apply served_reads_only; [apply reads_only_SearchDoujins | exact Hs].
  - apply served_reads_only; [apply reads_only_GetDoujinMetadata | exact Hs].
  - apply served_reads_only; [apply reads_only_GetPageFilePath | exact Hs].
  - (* CreateTagSet *)
    destruct (CreateTagSet (seq_TagSets s) name token wanted unwanted
                           (server_world s)) as [r w'] eqn:Hrun.
    destruct (CreateTagSet_cases _ _ _ _ _ _ _ _ Hrun)
      as [[Hfail Hdb] | (userId & Hauth & -> & Hdb)].
    + destruct r; [discriminate | |]; now apply store_ok_same.
    + apply authenticateUser_user in Hauth.
      split; unfold store_of in *; cbn [server_world seq_TagSets]; rewrite Hdb.
      * now apply (user_rows_ok_same (db (server_world s))).
      * now apply (ledgers_ok_same (db (server_world s))).
      * now apply (library_ok_same (db (server_world s))).
      * now apply tagsets_ok_insert.
  - (* DeleteTagSet *)
    unfold served.
    destruct (DeleteTagSet name token tagSetId (server_world s)) as [r w'] eqn:Hrun.
    cbn [snd].
    destruct (DeleteTagSet_cases _ _ _ _ _ _ Hrun)
      as [[_ Hdb] | (userId & _ & _ & _ & Hdb)].
    + now apply store_ok_same.
    + split; unfold store_of in *; cbn [server_world seq_TagSets]; rewrite Hdb.
      * now apply (user_rows_ok_same (db (server_world s))).
      * now apply (ledgers_ok_same (db (server_world s))).
      * now apply (library_ok_same (db (server_world s))).
      * now apply tagsets_ok_delete.
  - (* ChangeTagSet *)
    unfold served.
    destruct (ChangeTagSet name token tagSetId wanted unwanted (server_world s))
      as [r w'] eqn:Hrun.
    cbn [snd].
    destruct (ChangeTagSet_cases _ _ _ _ _ _ _ _ Hrun)
      as [[_ Hdb] | (userId & _ & _ & _ & Hdb)].
    + now apply store_ok_same.
    + split; unfold store_of in *; cbn [server_world seq_TagSets]; rewrite Hdb.
      * now apply (user_rows_ok_same (db (server_world s))).
      * now apply (ledgers_ok_same (db (server_world s))).
      * now apply (library_ok_same (db (server_world s))).
      * now apply tagsets_ok_update.
  - apply served_reads_only; [apply reads_only_GetTagSets | exact Hs].
Qed.

Lemma run_calls_ok (calls : list call) (s : Server) :
  store_ok s -> store_ok (run_calls calls s).
Proof.
  revert s. induction calls as [| c calls IH]; intros s Hs; [exact Hs |].
  cbn [run_calls fold_left]. apply IH. now apply run_call_ok.
Qed.

Lemma reachable_ok (s : Server) : reachable s -> store_ok s.
Proof.
  intros (calls & pos & io & ->). apply run_calls_ok, store_ok_fresh.
Qed.

Lemma users_named_at_most_one (name : string) (d : Database) :
  NoDup (map (fun u => folded (username u)) (Users d)) ->
  (List.length (users_named name d) <= 1)%nat.
Proof.
  unfold users_named. induction (Users d) as [| u l IH]; cbn [map filter];
    [cbn; lia |].
  intros H. inversion H as [| ? ? Hu Hl]. subst.
  destruct (nocase_eqb (username u) name) eqn:E; [| now apply IH].
  cbn [List.length]. rewrite filter_none; [cbn; lia |].
  intros v Hv. destruct (nocase_eqb (username v) name) eqn:Ev; [| reflexivity].
  elim Hu. apply in_map_iff. exists v. split; [| exact Hv].
  apply nocase_eqb_folded in E. apply nocase_eqb_folded in Ev. congruence.
Qed.

(** X15. The user table of every store a history of calls can produce
    from the empty one, whatever statements the driver failed on: every
    user name passes [isUsernameValid]; no two rows have names that are
    equal up to letter case, so a name finds at most one row; the ids are
    pairwise different, positive and at most the table's counter; and
    every ledger decodes to at most [MaxTokensPerUser - 1] well-formed
    (hash, salt) pairs. *)
Theorem history_keeps_user_table (s : Server) :
  reachable s ->
  (forall u, In u (Users (store_of s)) ->
             isUsernameValid (username u) = true
             /\ 0 < user_id u <= seq_Users (store_of s)
             /\ ledger_ok (session_tokens u))
  /\ (forall name, (List.length (users_named name (store_of s)) <= 1)%nat)
  /\ NoDup (map user_id (Users (store_of s))).
Proof.
  intros Hs. apply reachable_ok in Hs. destruct Hs as [[H1 H2 H3 H4] H5 _ _].
  split; [| split].
  - intros u Hu. unfold ledgers_ok in H5. rewrite Forall_forall in H1, H4, H5.
    split; [now apply H1 |]. split; [now apply H4 | now apply H5].
  - intros name. now apply users_named_at_most_one.
  - exact H3.
Qed.

(** X16. Doujins and pages in every store a history of calls can produce
    from the empty one: doujin ids and page ids are pairwise different,
    every page row belongs to a doujin of the table, and the pages stored
    for a doujin are either none, as a failed import leaves it, or carry
    exactly the numbers 1 to its declared page count, each once. *)
Theorem history_keeps_library (s : Server) :
  reachable s ->
  NoDup (map doujin_id (Doujins (store_of s)))
  /\ NoDup (map page_id (DoujinPages (store_of s)))
  /\ (forall p, In p (DoujinPages (store_of s)) ->
                exists row, In row (Doujins (store_of s))
                            /\ doujin_id row = page_doujin_id p)
  /\ (forall row, In row (Doujins (store_of s)) ->
        stored_page_numbers (doujin_id row) (store_of s) = []
        \/ Permutation (stored_page_numbers (doujin_id row) (store_of s))
                       (one_to (pages row))).
Proof.
  intros Hs. apply reachable_ok in Hs.
  destruct Hs as [_ _ [H1 H2 H3 H4 H5 H6] _].
  split; [exact H1 |]. split; [exact H3 |]. split.
  - intros p Hp. apply H5 in Hp. apply in_map_iff in Hp.
    destruct Hp as (row & E & Hr). now exists row.
  - intros row Hr. rewrite Forall_forall in H6. now apply H6.
Qed.

(** X17. Tag sets in every store a history of calls can produce from the
    empty one: the ids are pairwise different, positive and at most the
    table's counter, and every tag set belongs to a user of the user
    table. *)
Theorem history_keeps_tagsets (s : Server) :
  reachable s ->
  NoDup (map tagset_id (TagSets (store_of s)))
  /\ forall t, In t (TagSets (store_of s)) ->
       0 < tagset_id t <= seq_TagSets s
       /\ exists u, In u (Users (store_of s)) /\ user_id u = tagset_user_id t.
Proof.
  intros Hs. apply reachable_ok in Hs. destruct Hs as [_ _ _ [H1 H2 H3]].
  split; [exact H1 |]. intros t Ht. rewrite Forall_forall in H2, H3.
  split; [now apply H2 |].
  specialize (H3 t Ht). apply in_map_iff in H3. destruct H3 as (u & E & Hu).
  now exists u.
Qed.

(** *** Ids of deleted tag sets *)

Definition tagset_ids (s : Server) : list Z :=
  map tagset_id (TagSets (store_of s)).

Lemma run_call_tagset_ids (s : Server) (c : call) (id : Z) :
  id <= seq_TagSets s -> ~ In id (tagset_ids s) ->
  id <= seq_TagSets (run_call s c) /\ ~ In id (tagset_ids (run_call s c)).
Proof.
  intros Hle Hout.
  assert (Hsame : forall w', TagSets (db w') = TagSets (store_of s) ->
            id <= seq_TagSets (mkServer w' (seq_TagSets s))
            /\ ~ In id (tagset_ids (mkServer w' (seq_TagSets s)))).
  { intros w' Ht. split; [exact Hle |].
    unfold tagset_ids, store_of. cbn [server_world]. now rewrite Ht. }
  assert (Hread : forall (A : Type) (c : M A), reads_only c ->
            id <= seq_TagSets (served c s)
            /\ ~ In id (tagset_ids (served c s))).
  { intros A m Hm. unfold served.
    destruct (m (server_world s)) as [r w'] eqn:Hrun. cbn [snd].
    apply Hsame. destruct (Hm _ _ _ Hrun) as [-> _]. reflexivity. }
  destruct c as [name password | name password | name token | name token
                | name token | folderPath folder
                | name token query wanted unwanted pageSize pageNumber
                | name token id' | name token pageId
                | name token wanted unwanted | name token tagSetId
                | name token tagSetId wanted unwanted | name token];
    cbn [run_call].
  - unfold served.
    destruct (RegisterUser name password (server_world s)) as [r w'] eqn:Hrun.
    apply Hsame. cbn [snd].
    destruct (RegisterUser_cases _ _ _ _ _ Hrun) as [[_ ->] | (_ & _ & _ & _ & ->)];
      reflexivity.
  - unfold served.
    destruct (LoginUser name password (server_world s)) as [r w'] eqn:Hrun.
    apply Hsame. cbn [snd].
    destruct (LoginUser_cases _ _ _ _ _ Hrun)
      as [[_ ->] | (row & others & tk & st & pos & _ & _ & _ & _ & ->)];
      reflexivity.
  - unfold served.
    destruct (LogoutUser name token (server_world s)) as [r w'] eqn:Hrun.
    apply Hsame. cbn [snd].
    destruct (LogoutUser_cases _ _ _ _ _ Hrun)
      as [[_ ->] | (row & others & st & _ & _ & _ & ->)];
      reflexivity.
  - apply Hread, reads_only_IsAuthDataValid.
  - apply Hread, reads_only_GetUsername.
  - unfold served.
    destruct (RegisterDoujin folderPath folder (server_world s)) as [r w'] eqn:Hrun.
    apply Hsame. cbn [snd].
    destruct (RegisterDoujin_cases _ _ _ _ _ Hrun)
      as [[_ ->] | [(m & _ & _ & ->) | (m & es & _ & _ & _ & _ & ->)]];
      [reflexivity | reflexivity |].
    now destruct (insert_pages_rows folderPath
                    (next_rowid (map doujin_id (Doujins (db (server_world s))))
                                (seq_Doujins (db (server_world s))))
                    es (insert_doujin m (db (server_world s))))
      as (_ & _ & -> & _).
  - apply Hread, reads_only_SearchDoujins.
  - apply Hread, reads_only_GetDoujinMetadata.
  - apply Hread, reads_only_GetPageFilePath.
  - destruct (CreateTagSet (seq_TagSets s) name token wanted unwanted
                           (server_world s)) as [r w'] eqn:Hrun.
    destruct (CreateTagSet_cases _ _ _ _ _ _ _ _ Hrun)
      as [[Hfail Hdb] | (userId & _ & -> & Hdb)].
    + destruct r; [discriminate | |]; apply Hsame; now rewrite Hdb.
    + pose proof (next_rowid_positive
                    (map tagset_id (TagSets (db (server_world s))))
                    (seq_TagSets s)) as [Hpos _].
      cbn [seq_TagSets]. split; [lia |].
      unfold tagset_ids, store_of. cbn [server_world]. rewrite Hdb.
      cbn [insert_tagset TagSets]. rewrite map_app. cbn [map tagset_id].
      intros Hin. apply in_app_or in Hin. destruct Hin as [Hin | [E | []]].
      * now apply Hout.
      * lia.
  - unfold served.
    destruct (DeleteTagSet name token tagSetId (server_world s)) as [r w'] eqn:Hrun.
    cbn [snd].
    destruct (DeleteTagSet_cases _ _ _ _ _ _ Hrun)
      as [[_ Hdb] | (userId & _ & _ & _ & Hdb)].
    + apply Hsame. now rewrite Hdb.
    + split; [exact Hle |]. unfold tagset_ids, store_of. cbn [server_world].
      rewrite Hdb. cbn [delete_tagset TagSets]. intros Hin. apply Hout.
      apply in_map_iff in Hin. destruct Hin as (t & E & Ht).
      apply filter_In in Ht. apply in_map_iff. exists t. now split.
  - unfold served.
    destruct (ChangeTagSet name token tagSetId wanted unwanted (server_world s))
      as [r w'] eqn:Hrun.
    cbn [snd].
    destruct (ChangeTagSet_cases _ _ _ _ _ _ _ _ Hrun)
      as [[_ Hdb] | (userId & _ & _ & _ & Hdb)].
    + apply Hsame. now rewrite Hdb.
    + split; [exact Hle |]. unfold tagset_ids, store_of. cbn [server_world].
      rewrite Hdb. cbn [update_tagset TagSets]. rewrite map_map.
      intros Hin. apply Hout.
      apply in_map_iff in Hin. destruct Hin as (t & E & Ht).
      apply in_map_iff. exists t. split; [| exact Ht].
      now destruct (tagset_id t =? tagSetId).
  - apply Hread, reads_only_GetTagSets.
Qed.

(** An id that is at most the counter and not in the table stays out of
    the table. *)
Lemma absent_id_stays_absent (s : Server) (calls : list call) (id : Z) :
  id <= seq_TagSets s -> ~ In id (tagset_ids s) ->
  id <= seq_TagSets (run_calls calls s)
  /\ ~ In id (tagset_ids (run_calls calls s)).
Proof.
  revert s. induction calls as [| c calls IH]; intros s Hle Hout;
    [now split |].
  cbn [run_calls fold_left].
  destruct (run_call_tagset_ids s c id Hle Hout) as [Hle' Hout'].
  now apply IH.
Qed.

(** X18. The id of a deleted tag set is never given out again: after a
    successful [DeleteTagSet] in a store that a history of calls has
    produced from the empty one, no tag set has that id, and none has it
    after any further history of calls. *)
Theorem tagset_id_not_reused (s : Server) (name token : string) (tagSetId : Z)
  (w' : World) (calls : list call) :
  reachable s ->
  DeleteTagSet name token tagSetId (server_world s) = (Ok tt, w') ->
  In tagSetId (tagset_ids s)
  /\ ~ In tagSetId (tagset_ids (run_calls calls (mkServer w' (seq_TagSets s)))).
Proof.
  intros Hs Hrun. apply reachable_ok in Hs. destruct Hs as [_ _ _ [_ H2 _]].
  destruct (DeleteTagSet_cases _ _ _ _ _ _ Hrun)
    as [[H _] | (userId & _ & Hown & _ & Hdb)]; [discriminate |].
  destruct (owner_check_Ok _ _ _ Hown) as (t & rest & Hrows & _).
  assert (Ht : In t (TagSets (store_of s)) /\ tagset_id t = tagSetId).
  { assert (H : In t (filter (fun t => tagset_id t =? tagSetId)
                             (TagSets (db (server_world s)))))
      by (rewrite Hrows; now left).
    apply filter_In in H. destruct H as [H E]. now apply Z.eqb_eq in E. }
  destruct Ht as [Hin Hid].
  split; [apply in_map_iff; now exists t |].
  apply absent_id_stays_absent.
  - cbn [seq_TagSets]. rewrite Forall_forall in H2. specialize (H2 t Hin). lia.
  - unfold tagset_ids, store_of. cbn [server_world]. rewrite Hdb.
    cbn [delete_tagset TagSets]. intros H. apply in_map_iff in H.
    destruct H as (t' & E & H). apply filter_In in H. destruct H as [_ H].
    apply negb_true_iff, Z.eqb_neq in H. contradiction.
Qed.

(** ** Register, then log in *)

(** X19. A user who has just been registered can log in with the
    password given, under the name in any letter case (the two statements
    running): the login returns a token of 40 characters; with any
    password whose hash under the stored salt is another one it returns
    [InvalidPassword]. *)
Theorem registered_user_can_log_in (name password name2 : string)
  (w w1 : World) :
  RegisterUser name password w = (Ok tt, w1) ->
  nocase_eqb name2 name = true ->
  io_fault (io_pos w1) = None -> io_fault (S (io_pos w1)) = None ->
  exists row token w2,
    users_named name2 (db w1) = [row]
    /\ username row = name /\ session_tokens row = ""
    /\ LoginUser name2 password w1 = (Ok token, w2)
    /\ slen token = 40
    /\ forall other,
         hashPassword other (password_salt row) <> password_hash row ->
         fst (LoginUser name2 other w1)
         = Err (DbError DatabaseErrorInvalidPassword).
Proof.
  intros Hrun Hcase Hf1 Hf2.
  destruct (RegisterUser_cases _ _ _ _ _ Hrun)
    as [[H _] | (_ & _ & _ & Hnone & Hdb)]; [discriminate |].
  set (salt := fst (randomString PasswordSaltLength (rand_pos w))) in *.
  set (row := mkUser (next_rowid (map user_id (Users (db w))) (seq_Users (db w)))
                     name (hashPassword password salt) salt "").
  assert (Hu : users_named name2 (db w1) = [row]).
  { rewrite Hdb, users_named_insert
      by (rewrite nocase_eqb_sym; exact Hcase).
    now rewrite (users_named_nocase name name2 _ Hcase), Hnone. }
  exists row. do 2 eexists.
  split; [exact Hu |]. split; [reflexivity |]. split; [reflexivity |].
  split; [| split].
  - apply (LoginUser_spec name2 password w1 row [] []); try assumption.
    + reflexivity.
    + reflexivity.
    + constructor.
  - apply fresh_token_length.
  - intros other Hne. unfold LoginUser, bind at 1, rename_error.
    rewrite (QueryRow_first _ w1 row [] Hf1 Hu).
    destruct (String.eqb_spec (hashPassword other (password_salt row))
                              (password_hash row)) as [E | _];
      [now elim Hne | reflexivity].
Qed.

(** ** The name a session belongs to *)

Lemma unique_id_row (l : list UserRow) (row : UserRow) :
  NoDup (map user_id l) -> In row l ->
  filter (fun u => user_id u =? user_id row) l = [row].
Proof.
  induction l as [| u l IH]; [intros _ [] |].
  cbn [map filter]. intros Hnd Hin. inversion Hnd as [| ? ? Hu Hl]. subst.
  destruct Hin as [-> | Hin].
  - rewrite Z.eqb_refl. f_equal. apply filter_none. intros v Hv.
    apply Z.eqb_neq. intros E. apply Hu. rewrite <- E. now apply in_map.
  - replace (user_id u =? user_id row) with false; [now apply IH |].
    symmetry. apply Z.eqb_neq. intros E. apply Hu. rewrite E. now apply in_map.
Qed.

(** X20. In every store a history of calls can produce from the empty
    one, [GetUsername] answers with the name of the one row that the
    given name finds, in the spelling it was registered with; the two are
    equal up to letter case. *)
Theorem GetUsername_spelling (s : Server) (name token actualUsername : string)
  (w' : World) :
  reachable s ->
  GetUsername name token (server_world s) = (Ok actualUsername, w') ->
  exists row,
    users_named name (store_of s) = [row]
    /\ actualUsername = username row
    /\ nocase_eqb actualUsername name = true
    /\ HasToken (session_tokens row) token = Ok true.
Proof.
  intros Hs Hrun. apply reachable_ok in Hs. destruct Hs as [[_ H2 H3 _] _ _ _].
  unfold GetUsername, bind at 1 in Hrun.
  destruct (authenticateUser name token (server_world s))
    as [[userId | e |] w1] eqn:Hauth; try discriminate.
  pose proof (authenticateUser_world _ _ _ _ _ Hauth) as ->.
  unfold authenticateUser, bind at 1, rename_error in Hauth.
  destruct (QueryRow (users_named name) (server_world s))
    as [[row | e |] w2] eqn:Hq; try discriminate.
  apply QueryRow_result in Hq. destruct Hq as [-> [others Hu]].
  unfold bind, lift in Hauth.
  destruct (HasToken (session_tokens row) token) as [[|] | e |] eqn:Hh;
    try discriminate.
  injection Hauth as <-.
  pose proof (users_named_at_most_one name _ H2) as Hone.
  unfold store_of in *. rewrite Hu in Hone.
  destruct others; [| cbn in Hone; lia].
  assert (Hin : In row (Users (db (server_world s))) /\
                nocase_eqb (username row) name = true).
  { assert (H : In row (users_named name (db (server_world s))))
      by (rewrite Hu; now left).
    now apply filter_In in H. }
  destruct Hin as [Hin Hcase].
  unfold bind at 1 in Hrun.
  destruct (QueryRow _ (tick (server_world s))) as [[row' | e |] w3] eqn:Hq2;
    try discriminate.
  apply QueryRow_result in Hq2. destruct Hq2 as [_ [rest Hrows]].
  cbn [db tick] in Hrows. rewrite (unique_id_row _ _ H3 Hin) in Hrows.
  injection Hrows as <- _. injection Hrun as <- _.
  exists row. auto.
Qed.

(** ** The pages of a search *)



End DataLayer.

(** * Comments in JSON files (json.go)

    [removeCommentsFromJson] walks the text with an index; here the loop
    runs on the text that is left, and the two inner loops that skip a
    comment hand the rest of the text back to it. *)

Definition dquote : ascii := "034"%char.

Definition is_line_end (c : ascii) : bool :=
  Ascii.eqb c "010" || Ascii.eqb c "013".

Fixpoint scan_json (json : list ascii) (inString escaped : bool)
  (builder : list ascii) {struct json} : res string :=
  match json with
  | [] => Ok (string_of_list_ascii builder)
  | c :: rest =>
      let inString :=
        if Ascii.eqb c dquote && negb escaped then negb inString else inString in
      let escaped :=
        if Ascii.eqb c "\" && inString then negb escaped else false in
      let written := scan_json rest inString escaped (builder ++ [c]) in
      if negb inString && Ascii.eqb c "/" then
        match rest with
        | next :: after =>
            if Ascii.eqb next "/" then
              (fix line (l : list ascii) : res string :=
                 match l with
                 | x :: l' =>
                     if negb (is_line_end x) then line l'
                     else scan_json l inString escaped builder
                 | [] => scan_json l inString escaped builder
                 end) after
            else if Ascii.eqb next "*" then
              (fix block (l : list ascii) : res string :=
                 match l with
                 | x :: l' =>
                     match l' with
                     | y :: l'' =>
                         if Ascii.eqb x "*" && Ascii.eqb y "/"
                         then scan_json l'' inString escaped builder
                         else block l'
                     | [] => Err (Errorf "Unclosed comment")
                     end
                 | [] => Err (Errorf "Unclosed comment")
                 end) after
            else written
        | [] => written
        end
      else written
  end.

Definition removeCommentsFromJson (json : string) : res string :=
  scan_json (chars json) false false [].

(** The same function of the client, which its [loadJson] applies to the
    text it fetched, on UTF-16 code units.  Its loop
    over a block comment stops at the closing mark or when fewer than two
    units are left, and the test for an unclosed comment comes after the
    loop. *)
Definition unit_is (c : ascii) (u : N) : bool := N.eqb u (N_of_ascii c).

Fixpoint scan_json_js (json : list N) (inString escaped : bool)
  (result : list N) {struct json} : res (list N) :=
  match json with
  | [] => Ok result
  | c :: rest =>
      let inString :=
        if unit_is dquote c && negb escaped then negb inString else inString in
      let escaped :=
        if unit_is "\" c && inString then negb escaped else false in
      let written := scan_json_js rest inString escaped (result ++ [c]) in
      if negb inString && unit_is "/" c then
        match rest with
        | next :: after =>
            if unit_is "/" next then
              (fix line (l : list N) : res (list N) :=
                 match l with
                 | x :: l' =>
                     if negb (unit_is "010" x || unit_is "013" x) then line l'
                     else scan_json_js l inString escaped result
                 | [] => scan_json_js l inString escaped result
                 end) after
            else if unit_is "*" next then
              (fix block (l : list N) : res (list N) :=
                 match l with
                 | x :: l' =>
                     match l' with
                     | y :: l'' =>
                         if unit_is "*" x && unit_is "/" y then
                           match l'' with
                           | _ :: _ :: _ =>
                               scan_json_js l'' inString escaped result
                           | _ => Err (Errorf "Unclosed comment")
                           end
                         else block l'
                     | [] => Err (Errorf "Unclosed comment")
                     end
                 | [] => Err (Errorf "Unclosed comment")
                 end) after
            else written
        | [] => written
        end
      else written
  end.

Definition removeCommentsFromJson_js (json : list N) : res (list N) :=
  scan_json_js json false false [].

(** The code units of a text of one-byte characters. *)
Definition units (s : list ascii) : list N := map N_of_ascii s.

(** ** The loop, one step at a time *)

(** The text from the end of a line comment on. *)
Fixpoint skip_line (l : list ascii) : list ascii :=
  match l with
  | x :: l' => if negb (is_line_end x) then skip_line l' else l
  | [] => []
  end.

(** The text after the end of a block comment, if it ends. *)
Fixpoint skip_block (l : list ascii) : option (list ascii) :=
  match l with
  | x :: l' =>
      match l' with
      | y :: l'' =>
          if Ascii.eqb x "*" && Ascii.eqb y "/" then Some l'' else skip_block l'
      | [] => None
      end
  | [] => None
  end.

Definition next_inString (c : ascii) (inString escaped : bool) : bool :=
  if Ascii.eqb c dquote && negb escaped then negb inString else inString.

Definition next_escaped (c : ascii) (inString escaped : bool) : bool :=
  if Ascii.eqb c "\" && next_inString c inString escaped
  then negb escaped else false.

Lemma scan_json_step (c : ascii) (rest : list ascii) (inString escaped : bool)
  (builder : list ascii) :
  scan_json (c :: rest) inString escaped builder
  = let inString' := next_inString c inString escaped in
    let escaped' := next_escaped c inString escaped in
    let written := scan_json rest inString' escaped' (builder ++ [c]) in
    if negb inString' && Ascii.eqb c "/" then
      match rest with
      | next :: after =>
          if Ascii.eqb next "/" then
            scan_json (skip_line after) inString' escaped' builder
          else if Ascii.eqb next "*" then
            match skip_block after with
            | Some l => scan_json l inString' escaped' builder
            | None => Err (Errorf "Unclosed comment")
            end
          else written
      | [] => written
      end
    else written.
Proof.
  cbn [scan_json]. fold (next_inString c inString escaped).
  fold (next_escaped c inString escaped). cbv zeta.
  destruct (negb (next_inString c inString escaped) && Ascii.eqb c "/");
    [| reflexivity].
  destruct rest as [| next after]; [reflexivity |].
  destruct (Ascii.eqb next "/").
  - induction after as [| x l IH]; [reflexivity |].
    cbn [skip_line]. destruct (negb (is_line_end x)); [exact IH | reflexivity].
  - destruct (Ascii.eqb next "*"); [| reflexivity].
    induction after as [| x l IH]; [reflexivity |].
    cbn [skip_block]. destruct l as [| y l'']; [reflexivity |].
    destruct (Ascii.eqb x "*" && Ascii.eqb y "/"); [reflexivity | exact IH].
Qed.

(** ** Texts made of code, strings and comments *)

(** A character of a string literal: written as it is, or after a
    backslash. *)
Inductive str_item : Type :=
| Plain (c : ascii)
| Escaped (c : ascii).

Definition str_item_ok (i : str_item) : bool :=
  match i with
  | Plain c => negb (Ascii.eqb c dquote) && negb (Ascii.eqb c "\")
  | Escaped _ => true
  end.

Definition render_item (i : str_item) : list ascii :=
  match i with
  | Plain c => [c]
  | Escaped c => ["\"%char; c]
  end.

Inductive piece : Type :=
| Code (c : ascii)
| Str (body : list str_item)
| LineComment (body : list ascii) (line_end : ascii)
| BlockComment (body : list ascii).

(** [*/] occurs in the text. *)
Fixpoint has_close (l : list ascii) : bool :=
  match l with
  | x :: l' =>
      match l' with
      | y :: _ => (Ascii.eqb x "*" && Ascii.eqb y "/") || has_close l'
      | [] => false
      end
  | [] => false
  end.

Definition piece_ok (p : piece) : bool :=
  match p with
  | Code c => negb (Ascii.eqb c dquote) && negb (Ascii.eqb c "/")
  | Str body => forallb str_item_ok body
  | LineComment body line_end =>
      forallb (fun c => negb (is_line_end c)) body && is_line_end line_end
  | BlockComment body => negb (has_close body)
  end.

Definition render (p : piece) : list ascii :=
  match p with
  | Code c => [c]
  | Str body => dquote :: flat_map render_item body ++ [dquote]
  | LineComment body line_end => "/"%char :: "/"%char :: body ++ [line_end]
  | BlockComment body => "/"%char :: "*"%char :: body ++ ["*"%char; "/"%char]
  end.

(** What is left of a piece: a comment goes, the end of its line stays. *)
Definition kept (p : piece) : list ascii :=
  match p with
  | LineComment _ line_end => [line_end]
  | BlockComment _ => []
  | _ => render p
  end.

(** How a text can end after its last piece. *)
Inductive ending : Type :=
| Complete
| OpenLineComment (body : list ascii)
| OpenBlockComment (body : list ascii).

Definition ending_ok (e : ending) : bool :=
  match e with
  | Complete => true
  | OpenLineComment body => forallb (fun c => negb (is_line_end c)) body
  | OpenBlockComment body => negb (has_close body)
  end.

Definition render_ending (e : ending) : list ascii :=
  match e with
  | Complete => []
  | OpenLineComment body => "/"%char :: "/"%char :: body
  | OpenBlockComment body => "/"%char :: "*"%char :: body
  end.

Lemma skip_line_body (body rest : list ascii) :
  forallb (fun c => negb (is_line_end c)) body = true ->
  skip_line (body ++ rest) = skip_line rest.
Proof.
  induction body as [| x body IH]; [reflexivity |].
  cbn [forallb app skip_line]. intros H. apply andb_true_iff in H.
  destruct H as [Hx Hb]. rewrite Hx. now apply IH.
Qed.

Lemma skip_block_body (body rest : list ascii) :
  has_close body = false ->
  skip_block (body ++ "*"%char :: "/"%char :: rest) = Some rest.
Proof.
  induction body as [| x body IH]; [reflexivity |].
  intros H. cbn [app skip_block].
  destruct body as [| y body].
  - cbn [app]. destruct (Ascii.eqb x "*"); cbn; reflexivity.
  - cbn [has_close] in H. apply orb_false_iff in H. destruct H as [Hxy Hb].
    cbn [app]. rewrite Hxy. apply IH. exact Hb.
Qed.

Lemma skip_block_open (body : list ascii) :
  has_close body = false -> skip_block body = None.
Proof.
  induction body as [| x body IH]; [reflexivity |].
  intros H. cbn [skip_block]. destruct body as [| y body]; [reflexivity |].
  cbn [has_close] in H. apply orb_false_iff in H. destruct H as [Hxy Hb].
  rewrite Hxy. now apply IH.
Qed.

Lemma scan_json_string_body (body : list str_item) (rest builder : list ascii) :
  forallb str_item_ok body = true ->
  scan_json (flat_map render_item body ++ rest) true false builder
  = scan_json rest true false (builder ++ flat_map render_item body).
Proof.
  revert builder. induction body as [| i body IH]; intros builder H.
  - cbn. now rewrite app_nil_r.
  - cbn [forallb] in H. apply andb_true_iff in H. destruct H as [Hi Hb].
    cbn [flat_map]. rewrite <- !app_assoc.
    destruct i as [c | c]; cbn [render_item app str_item_ok] in *.
    + apply andb_true_iff in Hi. destruct Hi as [Hq Hs].
      apply negb_true_iff in Hq. apply negb_true_iff in Hs.
      rewrite scan_json_step. unfold next_escaped, next_inString.
      rewrite Hq, Hs. cbn [andb negb]. cbv zeta.
      rewrite (IH _ Hb). now rewrite <- !app_assoc.
    + rewrite scan_json_step. unfold next_escaped, next_inString.
      cbn [Ascii.eqb andb negb]. change (Ascii.eqb "\" dquote) with false.
      change (Ascii.eqb "\" "\") with true. cbn [andb negb]. cbv zeta.
      rewrite scan_json_step. unfold next_escaped, next_inString.
      cbn [negb andb]. rewrite !andb_false_r. cbn [negb andb].
      destruct (Ascii.eqb c "\"); cbn [andb negb]; cbv zeta;
        rewrite (IH _ Hb); now rewrite <- !app_assoc.
Qed.

Lemma scan_json_piece (p : piece) (rest builder : list ascii) :
  piece_ok p = true ->
  scan_json (render p ++ rest) false false builder
  = scan_json rest false false (builder ++ kept p).
Proof.
  intros Hp. destruct p as [c | body | body line_end | body];
    cbn [piece_ok render kept app] in *.
  - apply andb_true_iff in Hp. destruct Hp as [Hq Hs].
    apply negb_true_iff in Hq. apply negb_true_iff in Hs.
    rewrite scan_json_step. unfold next_escaped, next_inString.
    rewrite Hq, Hs. cbn [andb negb]. rewrite andb_false_r. reflexivity.
  - rewrite scan_json_step. unfold next_escaped, next_inString.
    change (Ascii.eqb dquote dquote) with true.
    change (Ascii.eqb dquote "\") with false. cbn [andb negb]. cbv zeta.
    rewrite <- app_assoc, (scan_json_string_body _ _ _ Hp).
    cbn [app]. rewrite scan_json_step. unfold next_escaped, next_inString.
    change (Ascii.eqb dquote dquote) with true.
    change (Ascii.eqb dquote "\") with false.
    change (Ascii.eqb dquote "/") with false. cbn [andb negb]. cbv zeta.
    now rewrite <- !app_assoc.
  - apply andb_true_iff in Hp. destruct Hp as [Hb He].
    rewrite scan_json_step. unfold next_escaped, next_inString.
    change (Ascii.eqb "/" dquote) with false.
    change (Ascii.eqb "/" "\") with false.
    change (Ascii.eqb "/" "/") with true. cbn [andb negb]. cbv zeta.
    rewrite <- app_assoc, (skip_line_body _ _ Hb).
    cbn [app skip_line]. rewrite He. cbn [negb].
    rewrite scan_json_step. unfold next_escaped, next_inString.
    unfold is_line_end in He.
    assert (Hq : Ascii.eqb line_end dquote = false)
      by (destruct (Ascii.eqb_spec line_end dquote) as [-> |];
          [discriminate | reflexivity]).
    assert (Hs : Ascii.eqb line_end "/" = false)
      by (destruct (Ascii.eqb_spec line_end "/") as [-> |];
          [discriminate | reflexivity]).
    assert (Hbs : Ascii.eqb line_end "\" = false)
      by (destruct (Ascii.eqb_spec line_end "\") as [-> |];
          [discriminate | reflexivity]).
    rewrite Hq, Hs, Hbs. cbn [andb negb]. reflexivity.
  - apply negb_true_iff in Hp.
    rewrite scan_json_step. unfold next_escaped, next_inString.
    change (Ascii.eqb "/" dquote) with false.
    change (Ascii.eqb "/" "\") with false.
    change (Ascii.eqb "/" "/") with true.
    change (Ascii.eqb "*" "/") with false.
    change (Ascii.eqb "*" "*") with true. cbn [andb negb]. cbv zeta.
    rewrite <- app_assoc. cbn [app]. rewrite (skip_block_body _ _ Hp).
    now rewrite app_nil_r.
Qed.

Lemma scan_json_pieces (ps : list piece) (rest builder : list ascii) :
  forallb piece_ok ps = true ->
  scan_json (flat_map render ps ++ rest) false false builder
  = scan_json rest false false (builder ++ flat_map kept ps).
Proof.
  revert builder. induction ps as [| p ps IH]; intros builder H.
  - cbn. now rewrite app_nil_r.
  - cbn [forallb] in H. apply andb_true_iff in H. destruct H as [Hp Hps].
    cbn [flat_map]. rewrite <- app_assoc, (scan_json_piece _ _ _ Hp).
    rewrite (IH _ Hps). now rewrite <- app_assoc.
Qed.

(** The end of the text, after its last piece. *)
Lemma scan_json_ending (e : ending) (builder : list ascii) :
  ending_ok e = true ->
  scan_json (render_ending e) false false builder
  = match e with
    | OpenBlockComment _ => Err (Errorf "Unclosed comment")
    | _ => Ok (string_of_list_ascii builder)
    end.
Proof.
  intros He. destruct e as [| body | body]; cbn [render_ending ending_ok] in *.
  - reflexivity.
  - rewrite scan_json_step. unfold next_escaped, next_inString.
    change (Ascii.eqb "/" dquote) with false.
    change (Ascii.eqb "/" "\") with false.
    change (Ascii.eqb "/" "/") with true. cbn [andb negb]. cbv zeta.
    rewrite <- (app_nil_r body), (skip_line_body _ _ He). reflexivity.
  - apply negb_true_iff in He.
    rewrite scan_json_step. unfold next_escaped, next_inString.
    change (Ascii.eqb "/" dquote) with false.
    change (Ascii.eqb "/" "\") with false.
    change (Ascii.eqb "/" "/") with true.
    change (Ascii.eqb "*" "/") with false.
    change (Ascii.eqb "*" "*") with true. cbn [andb negb]. cbv zeta.
    now rewrite (skip_block_open _ He).
Qed.

(** X22. On a text made of characters outside strings and comments (no
    quote, no slash), string literals with their backslash escapes, line
    comments up to the end of their line and closed block comments,
    [removeCommentsFromJson] returns the text without the comments: what
    is in a string stays, comment marks included, and the line end after
    a line comment stays.  A line comment may end the text; a block
    comment that is not closed makes the error "Unclosed comment". *)
Theorem comments_are_removed (ps : list piece) (e : ending) :
  forallb piece_ok ps = true -> ending_ok e = true ->
  removeCommentsFromJson
    (string_of_list_ascii (flat_map render ps ++ render_ending e))
  = match e with
    | OpenBlockComment _ => Err (Errorf "Unclosed comment")
    | _ => Ok (string_of_list_ascii (flat_map kept ps))
    end.
Proof.
  intros Hps He. unfold removeCommentsFromJson, chars.
  rewrite list_ascii_of_string_of_list_ascii.
  rewrite (scan_json_pieces _ _ _ Hps), (scan_json_ending _ _ He).
  now destruct e.
Qed.

(** ** What the function does on any text *)

Inductive subsequence {A : Type} : list A -> list A -> Prop :=
| subsequence_nil : subsequence [] []
| subsequence_keep (x : A) (l1 l2 : list A) :
    subsequence l1 l2 -> subsequence (x :: l1) (x :: l2)
| subsequence_drop (x : A) (l1 l2 : list A) :
    subsequence l1 l2 -> subsequence l1 (x :: l2).

Lemma subsequence_refl {A : Type} (l : list A) : subsequence l l.
Proof. induction l; constructor; assumption. Qed.

Lemma subsequence_skip {A : Type} (pre k l : list A) :
  subsequence k l -> subsequence k (pre ++ l).
Proof.
  intros H. induction pre as [| x pre IH]; [exact H |].
  cbn [app]. now constructor.
Qed.

Lemma skip_line_suffix (l : list ascii) : exists pre, l = (pre ++ skip_line l)%list.
Proof.
  induction l as [| x l [pre IH]]; [now exists [] |].
  cbn [skip_line]. destruct (negb (is_line_end x)).
  - exists (x :: pre). cbn [app]. now rewrite <- IH.
  - now exists [].
Qed.

Lemma skip_block_suffix (l r : list ascii) :
  skip_block l = Some r ->
  exists pre, l = (pre ++ r)%list /\ (2 <= List.length pre)%nat.
Proof.
  revert r. induction l as [| x l IH]; intros r; [discriminate |].
  cbn [skip_block]. destruct l as [| y l'']; [discriminate |].
  destruct (Ascii.eqb x "*" && Ascii.eqb y "/").
  - intros H. injection H as <-. exists [x; y]. split; [reflexivity | cbn; lia].
  - intros H. destruct (IH r H) as (pre & E & Hlen). exists (x :: pre).
    cbn [app List.length]. rewrite <- E. split; [reflexivity | lia].
Qed.

Lemma scan_json_only_deletes (n : nat) :
  forall (json : list ascii) (inString escaped : bool) (builder : list ascii),
    (List.length json <= n)%nat ->
    match scan_json json inString escaped builder with
    | Ok out => exists k, out = string_of_list_ascii (builder ++ k)
                          /\ subsequence k json
    | Err e => e = Errorf "Unclosed comment"
    | Panic => False
    end.
Proof.
  induction n as [| n IH]; intros json inString escaped builder Hn.
  - destruct json; [| cbn in Hn; lia]. cbn. exists []. rewrite app_nil_r.
    split; [reflexivity | constructor].
  - destruct json as [| c rest].
    + cbn. exists []. rewrite app_nil_r. split; [reflexivity | constructor].
    + cbn [List.length] in Hn. rewrite scan_json_step. cbv zeta.
      assert (Hwritten :
        match scan_json rest (next_inString c inString escaped)
                        (next_escaped c inString escaped) (builder ++ [c]) with
        | Ok out => exists k, out = string_of_list_ascii (builder ++ k)
                              /\ subsequence k (c :: rest)
        | Err e => e = Errorf "Unclosed comment"
        | Panic => False
        end).
      { specialize (IH rest (next_inString c inString escaped)
                       (next_escaped c inString escaped) (builder ++ [c])%list).
        destruct (scan_json rest _ _ _) as [out | e |]; try (apply IH; lia).
        destruct IH as (k & -> & Hk); [lia |]. exists (c :: k).
        rewrite <- app_assoc. split; [reflexivity | now constructor]. }
      destruct (negb _ && Ascii.eqb c "/"); [| exact Hwritten].
      destruct rest as [| next after]; [exact Hwritten |].
      cbn [List.length] in Hn.
      destruct (Ascii.eqb next "/").
      * destruct (skip_line_suffix after) as [pre E].
        assert (Hlen : (List.length (skip_line after) <= n)%nat).
        { apply (f_equal (@List.length ascii)) in E. rewrite length_app in E. lia. }
        specialize (IH (skip_line after) (next_inString c inString escaped)
                       (next_escaped c inString escaped) builder Hlen).
        destruct (scan_json (skip_line after) _ _ _) as [out | e |];
          try exact IH.
        destruct IH as (k & -> & Hk). exists k. split; [reflexivity |].
        do 2 constructor. rewrite E. now apply subsequence_skip.
      * destruct (Ascii.eqb next "*"); [| exact Hwritten].
        destruct (skip_block after) as [r |] eqn:Hb; [| reflexivity].
        destruct (skip_block_suffix _ _ Hb) as (pre & E & Hpre).
        assert (Hlen : (List.length r <= n)%nat).
        { apply (f_equal (@List.length ascii)) in E. rewrite length_app in E. lia. }
        specialize (IH r (next_inString c inString escaped)
                       (next_escaped c inString escaped) builder Hlen).
        destruct (scan_json r _ _ _) as [out | e |]; try exact IH.
        destruct IH as (k & -> & Hk). exists k. split; [reflexivity |].
        do 2 constructor. rewrite E. now apply subsequence_skip.
Qed.

Lemma scan_json_no_slash (json : list ascii) (inString escaped : bool)
  (builder : list ascii) :
  forallb (fun c => negb (Ascii.eqb c "/")) json = true ->
  scan_json json inString escaped builder
  = Ok (string_of_list_ascii (builder ++ json)).
Proof.
  revert inString escaped builder.
  induction json as [| c rest IH]; intros inString escaped builder H.
  - cbn. now rewrite app_nil_r.
  - cbn [forallb] in H. apply andb_true_iff in H. destruct H as [Hc Hr].
    apply negb_true_iff in Hc.
    rewrite scan_json_step. cbv zeta. rewrite Hc, andb_false_r.
    rewrite (IH _ _ _ Hr). now rewrite <- app_assoc.
Qed.

(** X23. On every text, well formed or not, [removeCommentsFromJson]
    only deletes: a result is the text with some characters left out, the
    others in their order; the only error is "Unclosed comment"; and a
    text without any slash is returned as it is. *)
Theorem comment_removal_only_deletes (json : string) :
  (forall out, removeCommentsFromJson json = Ok out ->
               subsequence (chars out) (chars json))
  /\ (forall e, removeCommentsFromJson json = Err e ->
                e = Errorf "Unclosed comment")
  /\ removeCommentsFromJson json <> Panic
  /\ (forallb (fun c => negb (Ascii.eqb c "/")) (chars json) = true ->
      removeCommentsFromJson json = Ok json).
Proof.
  unfold removeCommentsFromJson.
  pose proof (scan_json_only_deletes (List.length (chars json)) (chars json)
                false false [] (le_n _)) as H.
  split; [| split; [| split]].
  - intros out E. rewrite E in H. destruct H as (k & -> & Hk).
    unfold chars at 1. now rewrite list_ascii_of_string_of_list_ascii.
  - intros e E. now rewrite E in H.
  - intros E. now rewrite E in H.
  - intros Hs. rewrite (scan_json_no_slash _ _ _ _ Hs). cbn [app].
    unfold chars. now rewrite string_of_list_ascii_of_string.
Qed.

(** ** The client's function beside the server's *)

Lemma unit_is_ascii (c x : ascii) : unit_is c (N_of_ascii x) = Ascii.eqb x c.
Proof.
  unfold unit_is. destruct (Ascii.eqb_spec x c) as [-> | Hne].
  - apply N.eqb_refl.
  - apply N.eqb_neq. intros H. apply Hne.
    rewrite <- (ascii_N_embedding x), <- (ascii_N_embedding c). now rewrite H.
Qed.

Lemma scan_json_js_step (c : ascii) (rest : list ascii)
  (inString escaped : bool) (result : list N) :
  scan_json_js (units (c :: rest)) inString escaped result
  = let inString' := next_inString c inString escaped in
    let escaped' := next_escaped c inString escaped in
    let written :=
      scan_json_js (units rest) inString' escaped' (result ++ [N_of_ascii c]) in
    if negb inString' && Ascii.eqb c "/" then
      match rest with
      | next :: after =>
          if Ascii.eqb next "/" then
            scan_json_js (units (skip_line after)) inString' escaped' result
          else if Ascii.eqb next "*" then
            match skip_block after with
            | Some l =>
                if (2 <=? List.length l)%nat
                then scan_json_js (units l) inString' escaped' result
                else Err (Errorf "Unclosed comment")
            | None => Err (Errorf "Unclosed comment")
            end
          else written
      | [] => written
      end
    else written.
Proof.
  cbn [units map scan_json_js]. rewrite !unit_is_ascii.
  fold (next_inString c inString escaped).
  fold (next_escaped c inString escaped). cbv zeta.
  destruct (negb (next_inString c inString escaped) && Ascii.eqb c "/");
    [| reflexivity].
  destruct rest as [| next after]; [reflexivity |].
  cbn [map]. rewrite !unit_is_ascii.
  destruct (Ascii.eqb next "/").
  - induction after as [| x l IH]; [reflexivity |].
    cbn [skip_line map].
    rewrite (unit_is_ascii "010" x), (unit_is_ascii "013" x).
    fold (is_line_end x).
    destruct (negb (is_line_end x)); [exact IH | reflexivity].
  - destruct (Ascii.eqb next "*"); [| reflexivity].
    induction after as [| x l IH]; [reflexivity |].
    cbn [skip_block map]. destruct l as [| y l'']; [reflexivity |].
    cbn [map]. rewrite (unit_is_ascii "*" x), (unit_is_ascii "/" y).
    destruct (Ascii.eqb x "*" && Ascii.eqb y "/"); [| exact IH].
    destruct l'' as [| a [| b l3]]; cbn [map List.length Nat.leb]; reflexivity.
Qed.

Lemma units_app (a b : list ascii) : units (a ++ b) = (units a ++ units b)%list.
Proof. apply map_app. Qed.

Lemma scan_json_js_string_body (body : list str_item) (rest : list ascii)
  (result : list N) :
  forallb str_item_ok body = true ->
  scan_json_js (units (flat_map render_item body ++ rest)) true false result
  = scan_json_js (units rest) true false
                 (result ++ units (flat_map render_item body)).
Proof.
  revert result. induction body as [| i body IH]; intros result H.
  - cbn. now rewrite app_nil_r.
  - cbn [forallb] in H. apply andb_true_iff in H. destruct H as [Hi Hb].
    cbn [flat_map]. rewrite <- !app_assoc.
    destruct i as [c | c]; cbn [render_item app str_item_ok] in *.
    + apply andb_true_iff in Hi. destruct Hi as [Hq Hs].
      apply negb_true_iff in Hq. apply negb_true_iff in Hs.
      rewrite scan_json_js_step. unfold next_escaped, next_inString.
      rewrite Hq, Hs. cbn [andb negb]. cbv zeta.
      rewrite (IH _ Hb). unfold units. cbn [map]. now rewrite <- !app_assoc.
    + rewrite scan_json_js_step. unfold next_escaped, next_inString.
      cbn [Ascii.eqb andb negb]. change (Ascii.eqb "\" dquote) with false.
      change (Ascii.eqb "\" "\") with true. cbn [andb negb]. cbv zeta.
      rewrite scan_json_js_step. unfold next_escaped, next_inString.
      cbn [negb andb]. rewrite !andb_false_r. cbn [negb andb].
      destruct (Ascii.eqb c "\"); cbn [andb negb]; cbv zeta;
        rewrite (IH _ Hb); unfold units; cbn [map];
        now rewrite <- !app_assoc.
Qed.

(** A piece with enough text after it: for a block comment, two units. *)
Lemma scan_json_js_piece (p : piece) (rest : list ascii) (result : list N) :
  piece_ok p = true ->
  match p with BlockComment _ => (2 <= List.length rest)%nat | _ => True end ->
  scan_json_js (units (render p ++ rest)) false false result
  = scan_json_js (units rest) false false (result ++ units (kept p)).
Proof.
  intros Hp Hrest. destruct p as [c | body | body line_end | body];
    cbn [piece_ok render kept app] in *.
  - apply andb_true_iff in Hp. destruct Hp as [Hq Hs].
    apply negb_true_iff in Hq. apply negb_true_iff in Hs.
    rewrite scan_json_js_step. unfold next_escaped, next_inString.
    rewrite Hq, Hs. cbn [andb negb]. rewrite andb_false_r. reflexivity.
  - rewrite scan_json_js_step. unfold next_escaped, next_inString.
    change (Ascii.eqb dquote dquote) with true.
    change (Ascii.eqb dquote "\") with false. cbn [andb negb]. cbv zeta.
    rewrite <- app_assoc, (scan_json_js_string_body _ _ _ Hp).
    cbn [app]. rewrite scan_json_js_step. unfold next_escaped, next_inString.
    change (Ascii.eqb dquote dquote) with true.
    change (Ascii.eqb dquote "\") with false.
    change (Ascii.eqb dquote "/") with false. cbn [andb negb]. cbv zeta.
    unfold units. cbn [map]. rewrite map_app. cbn [map].
    now rewrite <- !app_assoc.
  - apply andb_true_iff in Hp. destruct Hp as [Hb He].
    rewrite scan_json_js_step. unfold next_escaped, next_inString.
    change (Ascii.eqb "/" dquote) with false.
    change (Ascii.eqb "/" "\") with false.
    change (Ascii.eqb "/" "/") with true. cbn [andb negb]. cbv zeta.
    rewrite <- app_assoc, (skip_line_body _ _ Hb).
    cbn [app skip_line]. rewrite He. cbn [negb].
    rewrite scan_json_js_step. unfold next_escaped, next_inString.
    unfold is_line_end in He.
    assert (Hq : Ascii.eqb line_end dquote = false)
      by (destruct (Ascii.eqb_spec line_end dquote) as [-> |];
          [discriminate | reflexivity]).
    assert (Hs : Ascii.eqb line_end "/" = false)
      by (destruct (Ascii.eqb_spec line_end "/") as [-> |];
          [discriminate | reflexivity]).
    assert (Hbs : Ascii.eqb line_end "\" = false)
      by (destruct (Ascii.eqb_spec line_end "\") as [-> |];
          [discriminate | reflexivity]).
    rewrite Hq, Hs, Hbs. cbn [andb negb]. reflexivity.
  - apply negb_true_iff in Hp.
    rewrite scan_json_js_step. unfold next_escaped, next_inString.
    change (Ascii.eqb "/" dquote) with false.
    change (Ascii.eqb "/" "\") with false.
    change (Ascii.eqb "/" "/") with true.
    change (Ascii.eqb "*" "/") with false.
    change (Ascii.eqb "*" "*") with true. cbn [andb negb]. cbv zeta.
    rewrite <- app_assoc. cbn [app]. rewrite (skip_block_body _ _ Hp).
    rewrite (proj2 (Nat.leb_le _ _) Hrest). now rewrite app_nil_r.
Qed.

Lemma scan_json_js_block_near_end (body rest : list ascii) (result : list N) :
  has_close body = false -> (List.length rest <= 1)%nat ->
  scan_json_js (units (render (BlockComment body) ++ rest)) false false result
  = Err (Errorf "Unclosed comment").
Proof.
  intros Hp Hrest. cbn [render app].
  rewrite scan_json_js_step. unfold next_escaped, next_inString.
  change (Ascii.eqb "/" dquote) with false.
  change (Ascii.eqb "/" "\") with false.
  change (Ascii.eqb "/" "/") with true.
  change (Ascii.eqb "*" "/") with false.
  change (Ascii.eqb "*" "*") with true. cbn [andb negb]. cbv zeta.
  rewrite <- app_assoc. cbn [app]. rewrite (skip_block_body _ _ Hp).
  now replace (2 <=? List.length rest)%nat with false
    by (symmetry; apply Nat.leb_gt; lia).
Qed.

(** A block comment of the text closes with at most one character left. *)
Fixpoint closes_near_end (ps : list piece) (e : ending) : bool :=
  match ps with
  | [] => false
  | p :: ps' =>
      match p with
      | BlockComment _ =>
          (List.length (flat_map render ps' ++ render_ending e) <=? 1)%nat
      | _ => false
      end
      || closes_near_end ps' e
  end.

Lemma scan_json_js_pieces (ps : list piece) (e : ending) (result : list N) :
  forallb piece_ok ps = true ->
  scan_json_js (units (flat_map render ps ++ render_ending e)) false false result
  = if closes_near_end ps e then Err (Errorf "Unclosed comment")
    else scan_json_js (units (render_ending e)) false false
                      (result ++ units (flat_map kept ps)).
Proof.
  revert result. induction ps as [| p ps IH]; intros result H.
  - cbn. now rewrite app_nil_r.
  - cbn [forallb] in H. apply andb_true_iff in H. destruct H as [Hp Hps].
    cbn [flat_map closes_near_end]. rewrite <- app_assoc.
    assert (Hgo : forall (Hrest : match p with
                                  | BlockComment _ =>
                                      (2 <= List.length (flat_map render ps
                                                         ++ render_ending e))%nat
                                  | _ => True
                                  end),
              scan_json_js (units (render p ++ flat_map render ps
                                   ++ render_ending e)) false false result
              = if closes_near_end ps e then Err (Errorf "Unclosed comment")
                else scan_json_js (units (render_ending e)) false false
                       (result ++ units (kept p ++ flat_map kept ps))).
    { intros Hrest. rewrite (scan_json_js_piece _ _ _ Hp Hrest), (IH _ Hps).
      now rewrite units_app, <- app_assoc. }
    destruct p as [c | body | body line_end | body];
      try (cbn [orb]; apply Hgo; exact I).
    destruct (Nat.leb_spec (List.length (flat_map render ps ++ render_ending e)) 1)
      as [Hle | Hgt]; cbn [orb].
    + apply scan_json_js_block_near_end; [| exact Hle].
      cbn [piece_ok] in Hp. now apply negb_true_iff in Hp.
    + apply Hgo. lia.
Qed.

(** X24. The client's copy of the function beside the server's, on
    texts made of code, strings and comments as above, their characters
    taken as code units.  Where no block comment closes with fewer than two
    characters of text left after it, the two give the same result; where
    one does, the server's function returns the text without its comments
    and the client's throws "Unclosed comment". *)
Theorem client_copy_of_comment_removal (ps : list piece) (e : ending) :
  forallb piece_ok ps = true -> ending_ok e = true ->
  let text := (flat_map render ps ++ render_ending e)%list in
  (closes_near_end ps e = false ->
   removeCommentsFromJson_js (units text)
   = match removeCommentsFromJson (string_of_list_ascii text) with
     | Ok out => Ok (units (chars out))
     | Err err => Err err
     | Panic => Panic
     end)
  /\ (closes_near_end ps e = true ->
      removeCommentsFromJson (string_of_list_ascii text)
      = Ok (string_of_list_ascii (flat_map kept ps))
      /\ removeCommentsFromJson_js (units text)
         = Err (Errorf "Unclosed comment")).
Proof.
  intros Hps He text. unfold text.
  assert (Hgo : removeCommentsFromJson
                  (string_of_list_ascii (flat_map render ps ++ render_ending e))
                = match e with
                  | OpenBlockComment _ => Err (Errorf "Unclosed comment")
                  | _ => Ok (string_of_list_ascii (flat_map kept ps))
                  end).
  { unfold removeCommentsFromJson, chars.
    rewrite list_ascii_of_string_of_list_ascii.
    rewrite (scan_json_pieces _ _ _ Hps), (scan_json_ending _ _ He).
    now destruct e. }
  unfold removeCommentsFromJson_js.
  rewrite (scan_json_js_pieces ps e [] Hps). cbn [app].
  split; intros Hnear; rewrite Hnear.
  - rewrite Hgo.
    destruct e as [| body | body]; cbn [render_ending ending_ok] in *.
    + unfold chars. now rewrite list_ascii_of_string_of_list_ascii.
    + rewrite scan_json_js_step. unfold next_escaped, next_inString.
      change (Ascii.eqb "/" dquote) with false.
      change (Ascii.eqb "/" "\") with false.
      change (Ascii.eqb "/" "/") with true. cbn [andb negb]. cbv zeta.
      rewrite <- (app_nil_r body), (skip_line_body _ _ He). cbn.
      unfold chars. now rewrite list_ascii_of_string_of_list_ascii.
    + apply negb_true_iff in He.
      rewrite scan_json_js_step. unfold next_escaped, next_inString.
      change (Ascii.eqb "/" dquote) with false.
      change (Ascii.eqb "/" "\") with false.
      change (Ascii.eqb "/" "/") with true.
      change (Ascii.eqb "*" "/") with false.
      change (Ascii.eqb "*" "*") with true. cbn [andb negb]. cbv zeta.
      now rewrite (skip_block_open _ He).
  - split; [| reflexivity]. rewrite Hgo.
    destruct e as [| body | body]; [reflexivity | reflexivity |].
    exfalso. clear - Hnear.
    induction ps as [| p ps IH]; [discriminate |].
    cbn [closes_near_end] in Hnear. apply orb_true_iff in Hnear.
    destruct Hnear as [H | H]; [| now apply IH].
    destruct p; try discriminate.
    apply Nat.leb_le in H. rewrite length_app in H.
    cbn [render_ending List.length] in H. lia.
Qed.


(** * A reference instance

    A JSON printer and reader for lists of lists of strings that contain
    neither a quote nor a backslash — all a ledger ever stores —, a random
    stream, stand-ins for the two digests and a driver that never fails.
    They show that what the model asks of its parameters can be met, and
    they let the operations run on examples. *)

Module Reference.

Definition dquote : ascii := "034"%char.

Definition plain_char (c : ascii) : bool :=
  negb (Ascii.eqb c dquote || Ascii.eqb c "\").

Definition quote (s : string) : list ascii :=
  (dquote :: chars s ++ [dquote])%list.

(** The elements of a JSON array after the first, each behind its comma. *)
Definition more {A : Type} (print : A -> list ascii) (l : list A) : list ascii :=
  flat_map (fun x => ","%char :: print x) l.

Definition array {A : Type} (print : A -> list ascii) (l : list A) : list ascii :=
  match l with
  | [] => ["["; "]"]%char
  | x :: l' => ("["%char :: print x ++ more print l' ++ ["]"%char])%list
  end.

Definition Marshal (v : list (list string)) : string :=
  string_of_list_ascii (array (array quote) v).

(** The reader is a machine over the characters of the text. *)
Inductive state : Type :=
| Start
| OuterOpen                                           (* after the outer [ *)
| OuterNext (done : list (list string))               (* after an outer , *)
| InnerOpen (done : list (list string))               (* after an inner [ *)
| InnerNext (done : list (list string)) (inner : list string)
| InString (done : list (list string)) (inner : list string) (s : list ascii)
| AfterString (done : list (list string)) (inner : list string)
| AfterInner (done : list (list string))
| Finished (done : list (list string)).

Definition step (st : state) (c : ascii) : option state :=
  match st with
  | Start => if Ascii.eqb c "[" then Some OuterOpen else None
  | OuterOpen =>
      if Ascii.eqb c "[" then Some (InnerOpen [])
      else if Ascii.eqb c "]" then Some (Finished [])
      else None
  | OuterNext done => if Ascii.eqb c "[" then Some (InnerOpen done) else None
  | InnerOpen done =>
      if Ascii.eqb c dquote then Some (InString done [] [])
      else if Ascii.eqb c "]" then Some (AfterInner (done ++ [[]]))
      else None
  | InnerNext done inner =>
      if Ascii.eqb c dquote then Some (InString done inner []) else None
  | InString done inner s =>
      if Ascii.eqb c dquote
      then Some (AfterString done (inner ++ [string_of_list_ascii s]))
      else if Ascii.eqb c "\" then None
      else Some (InString done inner (s ++ [c]))
  | AfterString done inner =>
      if Ascii.eqb c "," then Some (InnerNext done inner)
      else if Ascii.eqb c "]" then Some (AfterInner (done ++ [inner]))
      else None
  | AfterInner done =>
      if Ascii.eqb c "," then Some (OuterNext done)
      else if Ascii.eqb c "]" then Some (Finished done)
      else None
  | Finished _ => None
  end.

Fixpoint run (st : state) (cs : list ascii) : option (list (list string)) :=
  match cs with
  | [] => match st with Finished done => Some done | _ => None end
  | c :: rest =>
      match step st c with
      | Some st' => run st' rest
      | None => None
      end
  end.

Definition Unmarshal (text : string) : option (list (list string)) :=
  run Start (chars text).

(** The other parameters. *)
Definition entropy (i : nat) : byte :=
  match Byte.of_N (N.of_nat (i * 37 + 11) mod 256) with
  | Some b => b
  | None => x00
  end.

Definition Sum256 (data : list byte) : list byte := rev data.

Definition IDKey (password salt : list byte) (_ _ _ _ : Z) : list byte :=
  (salt ++ password)%list.

Definition Join (dir name : string) : string := dir ++ "/" ++ name.

Definition no_fault (_ : nat) : option string := None.

Definition broken_at (n : nat) (i : nat) : option string :=
  if Nat.eqb i n then Some "disk I/O error"%string else None.

(** The reader reads back what the printer wrote. *)

Lemma run_string (done : list (list string)) (inner : list string)
  (s pre rest : list ascii) :
  forallb plain_char s = true ->
  run (InString done inner pre) (s ++ dquote :: rest)
  = run (AfterString done (inner ++ [string_of_list_ascii (pre ++ s)])) rest.
Proof.
  revert pre. induction s as [| c s IH]; intros pre Hs.
  - cbn. now rewrite app_nil_r.
  - cbn [forallb] in Hs. apply andb_true_iff in Hs. destruct Hs as [Hc Hs].
    unfold plain_char in Hc. apply negb_true_iff, orb_false_iff in Hc.
    destruct Hc as [Hq Hb].
    cbn [app run step]. rewrite Hq, Hb. rewrite IH by exact Hs.
    now rewrite <- app_assoc.
Qed.

Definition plain (s : string) : Prop := forallb plain_char (chars s) = true.

Lemma run_quote (st : state) (done : list (list string)) (inner : list string)
  (s : string) (rest : list ascii) :
  plain s ->
  step st dquote = Some (InString done inner []) ->
  run st (quote s ++ rest) = run (AfterString done (inner ++ [s])) rest.
Proof.
  intros Hs Hst. unfold quote. cbn [app run]. rewrite Hst.
  rewrite <- app_assoc. cbn [app]. rewrite run_string by exact Hs.
  cbn [app]. unfold chars. now rewrite string_of_list_ascii_of_string.
Qed.

Lemma run_more_strings (done : list (list string)) (ss inner : list string)
  (rest : list ascii) :
  Forall plain ss ->
  run (AfterString done inner) (more quote ss ++ rest)
  = run (AfterString done (inner ++ ss)) rest.
Proof.
  intros Hss. revert inner. induction Hss as [| s ss Hs Hss IH]; intros inner.
  - cbn. now rewrite app_nil_r.
  - unfold more. cbn [flat_map]. fold (more quote ss).
    rewrite <- ?app_assoc. cbn [app run step Ascii.eqb Bool.eqb].
    rewrite <- ?app_assoc.
    rewrite (run_quote _ done inner s) by (try exact Hs; reflexivity).
    rewrite IH. now rewrite <- app_assoc.
Qed.

Lemma run_inner_array (st : state) (done : list (list string))
  (ss : list string) (rest : list ascii) :
  Forall plain ss ->
  step st "[" = Some (InnerOpen done) ->
  run st (array quote ss ++ rest) = run (AfterInner (done ++ [ss])) rest.
Proof.
  intros Hss Hst. destruct Hss as [| s ss Hs Hss].
  - cbn [array app run]. rewrite Hst. reflexivity.
  - cbn [array app run]. rewrite Hst. rewrite <- ?app_assoc.
    rewrite (run_quote _ done [] s) by (try exact Hs; reflexivity).
    rewrite run_more_strings by exact Hss. reflexivity.
Qed.

Lemma run_more_arrays (l done : list (list string)) (rest : list ascii) :
  Forall (Forall plain) l ->
  run (AfterInner done) (more (array quote) l ++ rest)
  = run (AfterInner (done ++ l)) rest.
Proof.
  intros Hl. revert done. induction Hl as [| ss l Hss Hl IH]; intros done.
  - cbn. now rewrite app_nil_r.
  - unfold more. cbn [flat_map]. fold (more (array quote) l).
    rewrite <- ?app_assoc. cbn [app run step Ascii.eqb Bool.eqb].
    rewrite <- ?app_assoc.
    rewrite (run_inner_array _ done ss) by (try exact Hss; reflexivity).
    rewrite IH. now rewrite <- app_assoc.
Qed.

Lemma Unmarshal_Marshal_plain (l : list (list string)) :
  Forall (Forall plain) l -> Unmarshal (Marshal l) = Some l.
Proof.
  intros Hl. unfold Unmarshal, Marshal, chars.
  rewrite list_ascii_of_string_of_list_ascii.
  destruct Hl as [| ss l Hss Hl]; [reflexivity |].
  cbn [array run step Ascii.eqb Bool.eqb].
  rewrite <- ?app_assoc.
  rewrite (run_inner_array _ [] ss) by (try exact Hss; reflexivity).
  rewrite <- (app_nil_r [_]) at 1.
  rewrite run_more_arrays by exact Hl. reflexivity.
Qed.

Lemma base64_char_plain (c : ascii) :
  is_base64_char c = true -> plain_char c = true.
Proof.
  destruct c as [[|] [|] [|] [|] [|] [|] [|] [|]]; cbn; congruence.
Qed.

Lemma roundtrip (l : list (list string)) :
  Forall (Forall (fun s => base64_text s = true)) l ->
  Unmarshal (Marshal l) = Some l.
Proof.
  intros Hl. apply Unmarshal_Marshal_plain.
  eapply Forall_impl; [| exact Hl]. intros ss Hss.
  eapply Forall_impl; [| exact Hss]. intros s Hs.
  unfold plain, base64_text in *. rewrite forallb_forall in *.
  intros c Hc. apply base64_char_plain. now apply Hs.
Qed.

Lemma Marshal_nonempty (l : list (list string)) : Marshal l <> ""%string.
Proof. unfold Marshal. destruct l; discriminate. Qed.

End Reference.

(** * The properties on examples *)

Module Sample.

Import Reference.

Definition token_of (i : nat) : string := "token-" ++ itoa (Z.of_nat i).

Definition salt_of (i : nat) : string := "salt" ++ itoa (Z.of_nat i).

Definition entry_of (i : nat) : list string :=
  [hashToken Sum256 (token_of i) (salt_of i); salt_of i].

(** A ledger with [MaxTokensPerUser] entries, oldest first. *)
Definition full_ledger : list (list string) := map entry_of (seq 0 20).

Definition ammie : UserRow :=
  mkUser 1 "Ammie" (hashPassword IDKey "cats123" "c2FsdA==") "c2FsdA=="
         (Marshal full_ledger).

Definition yuri_romance : DoujinRow :=
  mkDoujin 1 "First" "one" "2024-01-01T00:00:00Z" 10
           ["yuri"; "romance"] [] [] [] ["english"] 2.

Definition drama : DoujinRow :=
  mkDoujin 2 "Second" "two" "2024-03-01T00:00:00Z" 7
           ["drama"] [] [] [] ["english"] 1.

Definition yuri_comedy : DoujinRow :=
  mkDoujin 3 "Third" "three" "2024-02-01T00:00:00Z" 3
           ["yuri"; "comedy"] [] [] [] [] 0.

Definition store : Database :=
  mkDatabase [ammie] [yuri_romance; drama; yuri_comedy]
             [mkPage 1 1 "lib/first/2.png" 2; mkPage 2 1 "lib/first/1.png" 1;
              mkPage 3 2 "lib/second/1.png" 1]
             [] 1 3 3.

Definition world : World := mkWorld store 0 0.

Definition fresh_world : World := mkWorld empty_database 0 0.

Definition meta3 : DoujinImportMetadata :=
  mkMeta "Fourth" "four" 5 "2024-04-01T00:00:00Z" [] ["yuri"] [] [] [] 3.

Definition meta10 : DoujinImportMetadata :=
  mkMeta "Fifth" "five" 1 "2024-05-01T00:00:00Z" [] [] [] [] [] 10.

(** A listing as [os.ReadDir] gives it, sorted by name: the page files,
    then a directory and the metadata file. *)
Definition entries_of (names : list string) : list DirEntry :=
  (map (fun n => mkEntry n false) names
   ++ [mkEntry "extras" true; mkEntry "metadata.json" false])%list.

Definition folder_of (names : list string) : Folder :=
  mkFolder (Decoded meta3) (Listing (entries_of names)).

End Sample.

Lemma storage_works_no_fault (n : nat) :
  storage_works_from Reference.no_fault n.
Proof. intros i. reflexivity. Defined.

(** Twenty-five logins in a row leave nineteen entries. *)
Example ledger_after_25_logins :
  res_bind
    (ToSlice Reference.Unmarshal
       (fst (run_ops Reference.entropy Reference.Sum256 Reference.Marshal
                     Reference.Unmarshal (repeat OpAppendNew 25) (""%string, 0%nat))))
    (fun l => Ok (List.length l))
  = Ok 19%nat.
Proof. vm_compute. reflexivity. Qed.

Lemma ledger_never_full_witness :
  exists l,
    ToSlice Reference.Unmarshal
      (fst (run_ops Reference.entropy Reference.Sum256 Reference.Marshal
                    Reference.Unmarshal
                    (repeat OpAppendNew 25 ++ [OpRemoveToken "unknown"])
                    (""%string, 0%nat)))
    = Ok l
    /\ Z.of_nat (List.length l) <= MaxTokensPerUser - 1.
Proof.
  exact (proj2 (ledger_never_full Reference.entropy Reference.Sum256
                  Reference.Marshal Reference.Unmarshal
                  Reference.roundtrip Reference.Marshal_nonempty)
               (repeat OpAppendNew 25 ++ [OpRemoveToken "unknown"])%list 0%nat).
Defined.



Lemma register_twice_witness :
  exists w1 w2 row,
    RegisterUser Reference.entropy Reference.IDKey Reference.no_fault
                 "Ammie" "cats123" Sample.fresh_world = (Ok tt, w1)
    /\ Users (db w1) = [row]
    /\ username row = "Ammie"%string /\ session_tokens row = ""%string
    /\ RegisterUser Reference.entropy Reference.IDKey Reference.no_fault
                    "aMMIE" "dogs456" w1
       = (Err (DbError DatabaseErrorExistentUser), w2)
    /\ db w2 = db w1.
Proof.
  apply (register_twice_existent_user
           Reference.entropy Reference.IDKey Reference.no_fault
           Sample.fresh_world "Ammie" "cats123" "aMMIE" "dogs456");
    reflexivity.
Defined.

Lemma logout_unknown_token_witness :
  exists w',
    LogoutUser Reference.Sum256 Reference.Marshal Reference.Unmarshal
               Reference.no_fault "AMMIE" "never-issued" Sample.world
    = (Err (DbError DatabaseErrorInvalidToken), w')
    /\ db w' = db Sample.world
    /\ users_named "AMMIE" (db w') = [Sample.ammie]
    /\ ToSlice Reference.Unmarshal (session_tokens Sample.ammie)
       = Ok Sample.full_ledger.
Proof.
  apply (logout_unknown_token_keeps_list
           Reference.Sum256 Reference.Marshal Reference.Unmarshal
           Reference.no_fault Sample.world "AMMIE" "never-issued"
           Sample.ammie [] Sample.full_ledger).
  - reflexivity.
  - vm_compute. reflexivity.
  - vm_compute. reflexivity.
  - reflexivity.
Defined.

Lemma ammie_scenario_witness :
  exists w1 token w2 w3,
    RegisterUser Reference.entropy Reference.IDKey Reference.no_fault
                 "Ammie" "cats123" Sample.fresh_world = (Ok tt, w1)
    /\ LoginUser Reference.entropy Reference.Sum256 Reference.IDKey
                 Reference.Marshal Reference.Unmarshal Reference.no_fault
                 "Ammie" "cats123" w1 = (Ok token, w2)
    /\ 40 <= slen token
    /\ GetUsername Reference.Sum256 Reference.Unmarshal Reference.no_fault
                   "ammie" token w2 = (Ok "Ammie"%string, w3).
Proof.
  apply (ammie_scenario
           Reference.entropy Reference.Sum256 Reference.IDKey
           Reference.Marshal Reference.Unmarshal Reference.no_fault
           Reference.roundtrip Reference.Marshal_nonempty Sample.fresh_world).
  - reflexivity.
  - intros i _. reflexivity.
Defined.


(** The two folders of the specification's example, and two more. *)
Example import_missing_pages :
  fst (RegisterDoujin Reference.Join Reference.no_fault "lib/fourth"
                      (Sample.folder_of ["1.png"; "2.png"]) Sample.world)
  = Err (Errorf "Some pages are missing in the folder (found 2 out of 3)").
Proof. vm_compute. reflexivity. Qed.

Example import_gap :
  fst (RegisterDoujin Reference.Join Reference.no_fault "lib/fourth"
                      (Sample.folder_of ["1.png"; "2.png"; "4.png"]) Sample.world)
  = Err (Errorf "The pages in the folder are not sequential (expected page 3, found 4)").
Proof. vm_compute. reflexivity. Qed.

Example import_duplicate_page :
  fst (RegisterDoujin Reference.Join Reference.no_fault "lib/fourth"
                      (Sample.folder_of ["01.jpg"; "1.png"; "2.png"]) Sample.world)
  = Err (Errorf "The pages in the folder are not sequential (expected page 2, found 1)").
Proof. vm_compute. reflexivity. Qed.

(** Ten pages: the listing has "10.png" before "2.png". *)
Example import_accepted :
  let '(r, w') :=
    RegisterDoujin Reference.Join Reference.no_fault "lib/fifth"
                   (mkFolder (Decoded Sample.meta10)
                             (Listing (Sample.entries_of
                                         ["1.png"; "10.png"; "2.png"; "3.png";
                                          "4.png"; "5.png"; "6.png"; "7.png";
                                          "8.png"; "9.png"])))
                   Sample.world in
  r = Ok tt
  /\ map page_number (filter (fun p => page_doujin_id p =? 4) (DoujinPages (db w')))
     = [1; 10; 2; 3; 4; 5; 6; 7; 8; 9].
Proof. vm_compute. split; reflexivity. Qed.

Lemma import_checks_witness :
  exists r w',
    RegisterDoujin Reference.Join Reference.no_fault "lib/fourth"
                   (Sample.folder_of ["1.png"; "2.png"; "4.png"]) Sample.world
    = (r, w')
    /\ (exists j expected pageNumber,
           expected = Z.of_nat j + 1
           /\ nth j [1; 2; 4] 0 = pageNumber
           /\ pageNumber <> expected
           /\ r = Err (Errorf ("The pages in the folder are not sequential (expected page "
                               ++ itoa expected ++ ", found " ++ itoa pageNumber ++ ")")))
    /\ DoujinPages (db w') = DoujinPages Sample.store.
Proof.
  destruct (import_checks_page_sequence
              Reference.Join Reference.no_fault Sample.world "lib/fourth"
              (Sample.folder_of ["1.png"; "2.png"; "4.png"]) Sample.meta3
              (Sample.entries_of ["1.png"; "2.png"; "4.png"]%string))
    as (r & w' & Hrun & _ & _ & Hseq & _ & _ & _ & Hkeep).
  - reflexivity.
  - reflexivity.
  - apply storage_works_no_fault.
  - destruct Hseq as (j & expected & pageNumber & _ & _ & He & Hnth & Hne & Hr).
    + reflexivity.
    + vm_compute. discriminate.
    + exists r, w'. split; [exact Hrun |]. split.
      * exists j, expected, pageNumber. repeat split; assumption.
      * apply Hkeep. rewrite Hr. discriminate.
Defined.

Lemma store_pages_have_doujins : pages_have_doujins Sample.store.
Proof.
  intros p [<- | [<- | [<- | []]]]; cbn; auto.
Qed.

(** The driver fails on the second page insert of a complete folder. *)
Lemma failed_import_witness :
  exists e w',
    RegisterDoujin Reference.Join (Reference.broken_at 3) "lib/fourth"
                   (Sample.folder_of ["1.png"; "2.png"; "3.png"]) Sample.world
    = (Err e, w')
    /\ db w' = insert_doujin Sample.meta3 Sample.store
    /\ DoujinPages (db w') = DoujinPages Sample.store
    /\ (exists row, Doujins (db w') = (Doujins Sample.store ++ [row])%list
                    /\ doujin_id row = 4 /\ pages row = 3)
    /\ filter (fun p => page_doujin_id p =? 4) (DoujinPages (db w')) = [].
Proof.
  exists (SqlFailure "disk I/O error"),
    (snd (RegisterDoujin Reference.Join (Reference.broken_at 3) "lib/fourth"
                         (Sample.folder_of ["1.png"; "2.png"; "3.png"])
                         Sample.world)).
  split; [vm_compute; reflexivity |].
  destruct (failed_import_leaves_orphan_doujin
              Reference.Join (Reference.broken_at 3) Sample.world
              (snd (RegisterDoujin Reference.Join (Reference.broken_at 3)
                                   "lib/fourth"
                                   (Sample.folder_of ["1.png"; "2.png"; "3.png"])
                                   Sample.world))
              "lib/fourth" (Sample.folder_of ["1.png"; "2.png"; "3.png"])
              Sample.meta3
              (Sample.entries_of ["1.png"; "2.png"; "3.png"]%string)
              (SqlFailure "disk I/O error"))
    as (Hdb & Hpages & Hrow & Horphan).
  - reflexivity.
  - reflexivity.
  - reflexivity.
  - reflexivity.
  - vm_compute. reflexivity.
  - split; [exact Hdb |]. split; [exact Hpages |]. split; [exact Hrow |].
    apply Horphan. exact store_pages_have_doujins.
Defined.

(** The searches of the specification's example on the sample store. *)
Example search_tag_yuri :
  res_bind (fst (SearchDoujins Reference.Sum256 Reference.Unmarshal
                               Reference.no_fault "ammie" (Sample.token_of 5)
                               "" ["yuri"] [] 21 1 Sample.world))
           (fun r => Ok (map Id (Entries r), TotalPages r))
  = Ok ([3; 1], 1).
Proof. vm_compute. reflexivity. Qed.

Example search_antitag_yuri :
  res_bind (fst (SearchDoujins Reference.Sum256 Reference.Unmarshal
                               Reference.no_fault "ammie" (Sample.token_of 5)
                               "" [] ["yuri"] 21 1 Sample.world))
           (fun r => Ok (map Id (Entries r), TotalPages r))
  = Ok ([2], 1).
Proof. vm_compute. reflexivity. Qed.

Example search_tag_yaoi :
  fst (SearchDoujins Reference.Sum256 Reference.Unmarshal
                     Reference.no_fault "ammie" (Sample.token_of 5)
                     "" ["yaoi"] [] 21 1 Sample.world)
  = Ok SearchResult_zero.
Proof. vm_compute. reflexivity. Qed.

(** The order is the one of the stored RFC 3339 text: of two dates with
    different UTC offsets the one whose text is greater comes first. *)
Example order_is_by_stored_text :
  map upload_date
      (order_by_upload_date_desc
         [mkDoujin 1 "a" "" "2023-12-31T20:00:00Z" 0 [] [] [] [] [] 0;
          mkDoujin 2 "b" "" "2024-01-01T00:00:00+09:00" 0 [] [] [] [] [] 0])
  = ["2024-01-01T00:00:00+09:00"; "2023-12-31T20:00:00Z"]%string.
Proof. vm_compute. reflexivity. Qed.

Example search_page_beyond_total :
  fst (SearchDoujins Reference.Sum256 Reference.Unmarshal
                     Reference.no_fault "ammie" (Sample.token_of 5)
                     "" [] [] 21 2 Sample.world)
  = Err (DbError DatabaseErrorInvalidPageNumber).
Proof. vm_compute. reflexivity. Qed.

Lemma tag_filters_witness :
  search_matches "" ["yuri"%string] [] Sample.yuri_romance = true
  /\ (exists pageNumber result w',
         SearchDoujins Reference.Sum256 Reference.Unmarshal Reference.no_fault
                       "ammie" (Sample.token_of 5) "" ["yuri"] [] 1 pageNumber
                       Sample.world = (Ok result, w')
         /\ In (shape_entry Sample.yuri_romance 2) (Entries result))
  /\ (forall pageSize pageNumber result w',
         SearchDoujins Reference.Sum256 Reference.Unmarshal Reference.no_fault
                       "ammie" (Sample.token_of 5) "" [] ["yuri"]
                       pageSize pageNumber Sample.world = (Ok result, w') ->
         ~ In (shape_entry Sample.yuri_romance 2) (Entries result))
  /\ (forall pageSize pageNumber result w',
         SearchDoujins Reference.Sum256 Reference.Unmarshal Reference.no_fault
                       "ammie" (Sample.token_of 5) "" ["yaoi"] []
                       pageSize pageNumber Sample.world = (Ok result, w') ->
         ~ In (shape_entry Sample.yuri_romance 2) (Entries result)).
Proof.
  destruct (tag_filters_select
              Reference.Sum256 Reference.Unmarshal Reference.no_fault
              "ammie" (Sample.token_of 5) Sample.world)
    as [_ Hd].
  destruct (Hd Sample.yuri_romance) as ((Hm & Hret) & Hanti & Hyaoi).
  - left. reflexivity.
  - reflexivity.
  - split; [exact Hm |]. split; [| split].
    + apply (Hret (tick Sample.world) 1 1).
      * vm_compute. reflexivity.
      * apply storage_works_no_fault.
      * lia.
      * vm_compute. reflexivity.
    + intros pageSize pageNumber result w'. apply Hanti.
    + intros pageSize pageNumber result w'. apply Hyaoi.
Defined.

(** [IsAuthDataValid] on the sample store. *)
Example auth_unknown_user :
  fst (IsAuthDataValid Reference.Sum256 Reference.Unmarshal Reference.no_fault
                       "nobody" (Sample.token_of 5) Sample.world) = Ok false.
Proof. vm_compute. reflexivity. Qed.

Example auth_wrong_token :
  fst (IsAuthDataValid Reference.Sum256 Reference.Unmarshal Reference.no_fault
                       "Ammie" "token-20" Sample.world) = Ok false.
Proof. vm_compute. reflexivity. Qed.

Example auth_right_token :
  fst (IsAuthDataValid Reference.Sum256 Reference.Unmarshal Reference.no_fault
                       "AMMIE" (Sample.token_of 19) Sample.world) = Ok true.
Proof. vm_compute. reflexivity. Qed.

Lemma IsAuthDataValid_witness :
  fst (IsAuthDataValid Reference.Sum256 Reference.Unmarshal Reference.no_fault
                       "nobody" "token-0" Sample.world) = Ok false
  /\ fst (IsAuthDataValid Reference.Sum256 Reference.Unmarshal Reference.no_fault
                          "ammie" "token-20" Sample.world) = Ok false
  /\ IsAuthDataValid Reference.Sum256 Reference.Unmarshal Reference.no_fault
                     "ammie" "token-7" Sample.world = (Ok true, tick Sample.world)
  /\ exists msg,
       fst (IsAuthDataValid Reference.Sum256 Reference.Unmarshal
                            (Reference.broken_at 0) "ammie" "token-7" Sample.world)
       = Err (SqlFailure msg).
Proof.
  split; [| split; [| split]].
  - apply (proj1 (IsAuthDataValid_total
                    Reference.Sum256 Reference.Unmarshal Reference.no_fault
                    Sample.world "nobody" "token-0")); reflexivity.
  - apply (proj1 (proj2 (IsAuthDataValid_total
                           Reference.Sum256 Reference.Unmarshal Reference.no_fault
                           Sample.world "ammie" "token-20")) Sample.ammie []);
      [reflexivity | reflexivity | vm_compute; reflexivity].
  - apply (proj1 (proj2 (proj2 (IsAuthDataValid_total
                                  Reference.Sum256 Reference.Unmarshal
                                  Reference.no_fault
                                  Sample.world "ammie" "token-7"))) 1).
    vm_compute. reflexivity.
  - destruct (proj2 (proj2 (proj2 (IsAuthDataValid_total
                                     Reference.Sum256 Reference.Unmarshal
                                     (Reference.broken_at 0)
                                     Sample.world "ammie" "token-7")))
                    (SqlFailure "disk I/O error")
                    (tick Sample.world))
      as [(msg & _ & E) | (row & others & _ & _ & E)].
    + vm_compute. reflexivity.
    + exists msg. vm_compute. now rewrite <- E.
    + discriminate.
Defined.

(** * The further properties on examples *)

Module Demo.

Import Reference.

(** A second user, logged in once, and three tag sets beside the doujins
    of [Sample.store]. *)
Definition mio : UserRow :=
  mkUser 2 "Mio" (hashPassword IDKey "dogs456" "c2FsdB==") "c2FsdB=="
         (Marshal [Sample.entry_of 3]).

Definition store : Database :=
  mkDatabase [Sample.ammie; mio]
             (Doujins Sample.store) (DoujinPages Sample.store)
             [mkTagSet 1 1 ["yuri"] ["drama"]; mkTagSet 2 2 ["drama"] [];
              mkTagSet 4 1 [] ["comedy"]]
             2 3 3.

Definition world : World := mkWorld store 0 0.

(** A user who is registered and not logged in. *)
Definition newcomer : UserRow :=
  mkUser 1 "Ammie" (hashPassword IDKey "cats123" "c2FsdA==") "c2FsdA==" "".

Definition lobby : World :=
  mkWorld (mkDatabase [newcomer] [] [] [] 1 0 0) 0 0.

Definition run (calls : list call) : Server :=
  run_calls entropy Sum256 IDKey Marshal Unmarshal Join no_fault calls
            (fresh_server 0 0).

(** The token of the first login after one registration. *)
Definition first_token : string := fresh_token entropy 16.

(** A history: two registrations of one name, a login, an accepted and a
    refused import, and three tag sets, one changed and one deleted. *)
Definition history : list call :=
  [CallRegisterUser "Ammie" "cats123";
   CallRegisterUser "ammie" "dogs456";
   CallLoginUser "AMMIE" "cats123";
   CallRegisterDoujin "lib/fourth" (Sample.folder_of ["1.png"; "2.png"; "3.png"]);
   CallRegisterDoujin "lib/sixth" (Sample.folder_of ["1.png"; "3.png"]);
   CallCreateTagSet "ammie" first_token ["yuri"] [];
   CallCreateTagSet "ammie" first_token [] ["drama"];
   CallChangeTagSet "ammie" first_token 1 ["yuri"; "comedy"] [];
   CallDeleteTagSet "ammie" first_token 2;
   CallCreateTagSet "ammie" first_token ["romance"] [];
   CallGetTagSets "ammie" first_token].

Definition server : Server := run history.

End Demo.

Lemma demo_reachable (calls : list call) :
  reachable Reference.entropy Reference.Sum256 Reference.IDKey
            Reference.Marshal Reference.Unmarshal Reference.Join
            Reference.no_fault (Demo.run calls).
Proof. exists calls, 0%nat, 0%nat. reflexivity. Defined.

Example demo_server_tables :
  (map username (Users (store_of Demo.server)),
   map doujin_id (Doujins (store_of Demo.server)),
   map page_number (DoujinPages (store_of Demo.server)),
   map tagset_id (TagSets (store_of Demo.server)),
   seq_TagSets Demo.server)
  = (["Ammie"%string], [1; 2], [1; 2; 3], [1; 3], 3).
Proof. vm_compute. reflexivity. Qed.

Lemma page_name_witness :
  removeExtension "cover.final.png" = "cover.final"%string
  /\ pageNameToPageNumber "4294967295.png" = 4294967295.
Proof.
  apply (page_name_round_trip 4294967295 "cover.final" "png");
    [lia | reflexivity].
Defined.

Example page_names :
  map pageNameToPageNumber
      ["1.png"; "007.jpg"; "4294967296.png"; "+1.png"; "1a.png"; ".png";
       "metadata.json"; "12"; "3.tar.gz"]%string
  = [1; 7; -1; -1; -1; -1; -1; 12; -1].
Proof. vm_compute. reflexivity. Qed.

(** A wrong password on the sample store. *)
Lemma failed_user_call_witness :
  db (snd (LoginUser Reference.entropy Reference.Sum256 Reference.IDKey
                     Reference.Marshal Reference.Unmarshal Reference.no_fault
                     "ammie" "dogs456" Sample.world))
  = db Sample.world.
Proof.
  apply (proj1 (proj2 (failed_user_call_keeps_store
                         Reference.entropy Reference.Sum256 Reference.IDKey
                         Reference.Marshal Reference.Unmarshal
                         Reference.no_fault "ammie" "dogs456" Sample.world))
               (fst (LoginUser Reference.entropy Reference.Sum256
                               Reference.IDKey Reference.Marshal
                               Reference.Unmarshal Reference.no_fault
                               "ammie" "dogs456" Sample.world))).
  - apply surjective_pairing.
  - vm_compute. reflexivity.
Defined.

Lemma lobby_ledgers_ok : ledgers_ok Reference.Unmarshal (db Demo.lobby).
Proof.
  constructor; [apply ledger_ok_empty | constructor].
Qed.

Lemma login_token_witness :
  IsAuthDataValid Reference.Sum256 Reference.Unmarshal Reference.no_fault
    "AMMIE" (fresh_token Reference.entropy 0)
    (snd (LoginUser Reference.entropy Reference.Sum256 Reference.IDKey
                    Reference.Marshal Reference.Unmarshal Reference.no_fault
                    "ammie" "cats123" Demo.lobby))
  = (Ok true,
     tick (snd (LoginUser Reference.entropy Reference.Sum256 Reference.IDKey
                          Reference.Marshal Reference.Unmarshal
                          Reference.no_fault "ammie" "cats123" Demo.lobby))).
Proof.
  destruct (login_token_authenticates
              Reference.entropy Reference.Sum256 Reference.IDKey
              Reference.Marshal Reference.Unmarshal Reference.no_fault
              Reference.roundtrip Reference.Marshal_nonempty
              "ammie" "cats123" "AMMIE" (fresh_token Reference.entropy 0)
              Demo.lobby
              (snd (LoginUser Reference.entropy Reference.Sum256
                              Reference.IDKey Reference.Marshal
                              Reference.Unmarshal Reference.no_fault
                              "ammie" "cats123" Demo.lobby)))
    as (row & others & _ & _ & Hvalid).
  - exact lobby_ledgers_ok.
  - vm_compute. reflexivity.
  - reflexivity.
  - reflexivity.
  - exact Hvalid.
Defined.

Lemma logout_undoes_login_witness :
  exists token w1 w2,
    LoginUser Reference.entropy Reference.Sum256 Reference.IDKey
              Reference.Marshal Reference.Unmarshal Reference.no_fault
              "ammie" "cats123" Demo.lobby = (Ok token, w1)
    /\ LogoutUser Reference.Sum256 Reference.Marshal Reference.Unmarshal
                  Reference.no_fault "ammie" token w1 = (Ok tt, w2)
    /\ map session_tokens (Users (db w2)) = ["[]"%string].
Proof.
  destruct (logout_undoes_login
              Reference.entropy Reference.Sum256 Reference.IDKey
              Reference.Marshal Reference.Unmarshal Reference.no_fault
              Reference.roundtrip Reference.Marshal_nonempty
              "ammie" "cats123" Demo.lobby Demo.newcomer [] [])
    as (token & w1 & w2 & Hin & Hout & Hdb & _).
  - reflexivity.
  - reflexivity.
  - reflexivity.
  - constructor.
  - vm_compute. reflexivity.
  - reflexivity.
  - apply storage_works_no_fault.
  - exists token, w1, w2. split; [exact Hin |]. split; [exact Hout |].
    rewrite Hdb. vm_compute. reflexivity.
Defined.

Lemma demo_auth :
  authenticateUser Reference.Sum256 Reference.Unmarshal Reference.no_fault
                   "ammie" (Sample.token_of 5) Demo.world
  = (Ok 1, tick Demo.world).
Proof. vm_compute. reflexivity. Qed.

Lemma read_by_id_witness :
  fst (GetDoujinMetadata Reference.Sum256 Reference.Unmarshal Reference.no_fault
                         "ammie" (Sample.token_of 5) 1 Demo.world)
  = Ok (mkDoujinResult 1 "First" "one" "2024-01-01T00:00:00Z" 10
                       ["yuri"; "romance"] [] [] [] ["english"]
                       [[2; 1]; [1; 2]])
  /\ fst (GetDoujinMetadata Reference.Sum256 Reference.Unmarshal
                            Reference.no_fault
                            "ammie" (Sample.token_of 5) 4 Demo.world)
     = Err (DbError DatabaseErrorInvalidId)
  /\ fst (GetPageFilePath Reference.Sum256 Reference.Unmarshal
                          Reference.no_fault
                          "ammie" (Sample.token_of 5) 3 Demo.world)
     = Ok "lib/second/1.png"%string.
Proof.
  split; [| split].
  - destruct (read_by_id Reference.Sum256 Reference.Unmarshal Reference.no_fault
                "ammie" (Sample.token_of 5) 1 Demo.world (tick Demo.world) 1
                demo_auth eq_refl eq_refl) as ((w' & H & _) & _).
    rewrite H. reflexivity.
  - destruct (read_by_id Reference.Sum256 Reference.Unmarshal Reference.no_fault
                "ammie" (Sample.token_of 5) 4 Demo.world (tick Demo.world) 1
                demo_auth eq_refl eq_refl) as ((w' & H & _) & _).
    rewrite H. reflexivity.
  - destruct (read_by_id Reference.Sum256 Reference.Unmarshal Reference.no_fault
                "ammie" (Sample.token_of 5) 3 Demo.world (tick Demo.world) 1
                demo_auth eq_refl eq_refl) as (_ & (w' & H & _) & _).
    rewrite H. reflexivity.
Defined.

(** The accepted import of the sample folder, read back. *)
Lemma imported_doujin_witness :
  exists doujin w3,
    GetDoujinMetadata Reference.Sum256 Reference.Unmarshal Reference.no_fault
      "ammie" (Sample.token_of 5) 4
      (snd (RegisterDoujin Reference.Join Reference.no_fault "lib/fourth"
              (Sample.folder_of ["1.png"; "2.png"; "3.png"]) Sample.world))
    = (Ok doujin, w3)
    /\ Title doujin = "Fourth"%string
    /\ map (fun pair => nth 0 pair 0) (Pages doujin) = [1; 2; 3]
    /\ exists pageId,
         In [2; pageId] (Pages doujin)
         /\ fst (GetPageFilePath Reference.Sum256 Reference.Unmarshal
                   Reference.no_fault "ammie" (Sample.token_of 5) pageId
                   (snd (RegisterDoujin Reference.Join Reference.no_fault
                           "lib/fourth"
                           (Sample.folder_of ["1.png"; "2.png"; "3.png"])
                           Sample.world)))
            = Ok "lib/fourth/2.png"%string.
Proof.
  destruct (imported_doujin_is_served
              Reference.Sum256 Reference.Unmarshal Reference.Join
              Reference.no_fault "lib/fourth"
              (Sample.folder_of ["1.png"; "2.png"; "3.png"]) Sample.meta3
              (Sample.entries_of ["1.png"; "2.png"; "3.png"]%string)
              "ammie" (Sample.token_of 5) Sample.world
              (snd (RegisterDoujin Reference.Join Reference.no_fault "lib/fourth"
                      (Sample.folder_of ["1.png"; "2.png"; "3.png"])
                      Sample.world))
              (tick (snd (RegisterDoujin Reference.Join Reference.no_fault
                            "lib/fourth"
                            (Sample.folder_of ["1.png"; "2.png"; "3.png"])
                            Sample.world)))
              1)
    as (doujin & w3 & Hget & _ & Hcols & _ & Hnumbers & _ & Hfiles).
  - reflexivity.
  - reflexivity.
  - exact store_pages_have_doujins.
  - vm_compute. reflexivity.
  - vm_compute. reflexivity.
  - reflexivity.
  - reflexivity.
  - exists doujin, w3. split; [exact Hget |].
    split; [now injection Hcols |]. split; [exact Hnumbers |].
    apply (Hfiles (mkEntry "2.png" false)).
    + right. left. reflexivity.
    + reflexivity.
Defined.

Lemma tagset_owner_witness :
  fst (DeleteTagSet Reference.Sum256 Reference.Unmarshal Reference.no_fault
                    "ammie" (Sample.token_of 5) 2 Demo.world)
  = Err (DbError DatabaseErrorUnauthorized)
  /\ fst (ChangeTagSet Reference.Sum256 Reference.Unmarshal Reference.no_fault
                       "ammie" (Sample.token_of 5) 3 ["yuri"] [] Demo.world)
     = Err (DbError DatabaseErrorInvalidId)
  /\ fst (ChangeTagSet Reference.Sum256 Reference.Unmarshal Reference.no_fault
                       "ammie" (Sample.token_of 5) 4 ["yuri"] [] Demo.world)
     = Ok tt.
Proof.
  split; [| split].
  - destruct (tagset_edit_needs_owner
                Reference.Sum256 Reference.Unmarshal Reference.no_fault
                "ammie" (Sample.token_of 5) 2 [] [] Demo.world
                (tick Demo.world) 1 demo_auth eq_refl eq_refl)
      as (wd & wc & Hd & _).
    rewrite Hd. reflexivity.
  - destruct (tagset_edit_needs_owner
                Reference.Sum256 Reference.Unmarshal Reference.no_fault
                "ammie" (Sample.token_of 5) 3 ["yuri"%string] [] Demo.world
                (tick Demo.world) 1 demo_auth eq_refl eq_refl)
      as (wd & wc & _ & Hc & _).
    rewrite Hc. reflexivity.
  - destruct (tagset_edit_needs_owner
                Reference.Sum256 Reference.Unmarshal Reference.no_fault
                "ammie" (Sample.token_of 5) 4 ["yuri"%string] [] Demo.world
                (tick Demo.world) 1 demo_auth eq_refl eq_refl)
      as (wd & wc & _ & Hc & _).
    rewrite Hc. reflexivity.
Defined.



Lemma no_service_witness :
  fst (SearchDoujins Reference.Sum256 Reference.Unmarshal Reference.no_fault
                     "ammie" "stale" "" [] [] 0 0 Demo.world)
  = Err (DbError DatabaseErrorInvalidToken)
  /\ fst (GetTagSets Reference.Sum256 Reference.Unmarshal Reference.no_fault
                     "nobody" (Sample.token_of 5) Demo.world)
     = Err (DbError DatabaseErrorInexistentUser).
Proof.
  split.
  - apply (proj2 (no_service_without_session
                    Reference.Sum256 Reference.Unmarshal Reference.no_fault
                    "ammie" "stale" "" [] [] 0 0 0 0 Demo.world)
                 (DbError DatabaseErrorInvalidToken)).
    vm_compute. reflexivity.
  - apply (proj2 (no_service_without_session
                    Reference.Sum256 Reference.Unmarshal Reference.no_fault
                    "nobody" (Sample.token_of 5) "" [] [] 0 0 0 0 Demo.world)
                 (DbError DatabaseErrorInexistentUser)).
    vm_compute. reflexivity.
Defined.

Lemma history_user_table_witness :
  (forall name,
      (List.length (users_named name (store_of Demo.server)) <= 1)%nat)
  /\ NoDup (map user_id (Users (store_of Demo.server))).
Proof.
  apply (history_keeps_user_table
           Reference.entropy Reference.Sum256 Reference.IDKey
           Reference.Marshal Reference.Unmarshal Reference.Join
           Reference.no_fault Reference.roundtrip Reference.Marshal_nonempty
           Demo.server (demo_reachable Demo.history)).
Defined.

Lemma history_library_witness :
  NoDup (map page_id (DoujinPages (store_of Demo.server)))
  /\ stored_page_numbers 1 (store_of Demo.server) = [1; 2; 3]
  /\ stored_page_numbers 2 (store_of Demo.server) = [].
Proof.
  destruct (history_keeps_library
              Reference.entropy Reference.Sum256 Reference.IDKey
              Reference.Marshal Reference.Unmarshal Reference.Join
              Reference.no_fault Reference.roundtrip Reference.Marshal_nonempty
              Demo.server (demo_reachable Demo.history))
    as (_ & Hpages & _).
  split; [exact Hpages |]. split; vm_compute; reflexivity.
Defined.

Lemma history_tagsets_witness :
  NoDup (map tagset_id (TagSets (store_of Demo.server)))
  /\ forall t, In t (TagSets (store_of Demo.server)) ->
       0 < tagset_id t <= seq_TagSets Demo.server
       /\ exists u, In u (Users (store_of Demo.server))
                    /\ user_id u = tagset_user_id t.
Proof.
  apply (history_keeps_tagsets
           Reference.entropy Reference.Sum256 Reference.IDKey
           Reference.Marshal Reference.Unmarshal Reference.Join
           Reference.no_fault Reference.roundtrip Reference.Marshal_nonempty
           Demo.server (demo_reachable Demo.history)).
Defined.

(** Tag set 1 is deleted; the next tag set gets the id 4. *)
Lemma tagset_id_witness :
  In 1 (tagset_ids Demo.server)
  /\ ~ In 1 (tagset_ids
               (run_calls Reference.entropy Reference.Sum256 Reference.IDKey
                  Reference.Marshal Reference.Unmarshal Reference.Join
                  Reference.no_fault
                  [CallCreateTagSet "ammie" Demo.first_token ["drama"] []]
                  (mkServer
                     (snd (DeleteTagSet Reference.Sum256 Reference.Unmarshal
                             Reference.no_fault "ammie" Demo.first_token 1
                             (server_world Demo.server)))
                     (seq_TagSets Demo.server)))).
Proof.
  apply (tagset_id_not_reused
           Reference.entropy Reference.Sum256 Reference.IDKey
           Reference.Marshal Reference.Unmarshal Reference.Join
           Reference.no_fault Reference.roundtrip Reference.Marshal_nonempty
           Demo.server "ammie" Demo.first_token 1).
  - exact (demo_reachable Demo.history).
  - vm_compute. reflexivity.
Defined.

Example tagset_ids_after_delete :
  tagset_ids
    (Demo.run (Demo.history
               ++ [CallDeleteTagSet "ammie" Demo.first_token 3;
                   CallCreateTagSet "ammie" Demo.first_token ["drama"] []]))
  = [1; 4].
Proof. vm_compute. reflexivity. Qed.

Lemma registered_user_witness :
  exists row token w2,
    users_named "AMMIE"
      (db (snd (RegisterUser Reference.entropy Reference.IDKey
                             Reference.no_fault "Ammie" "cats123"
                             Sample.fresh_world))) = [row]
    /\ username row = "Ammie"%string
    /\ LoginUser Reference.entropy Reference.Sum256 Reference.IDKey
                 Reference.Marshal Reference.Unmarshal Reference.no_fault
                 "AMMIE" "cats123"
                 (snd (RegisterUser Reference.entropy Reference.IDKey
                                    Reference.no_fault "Ammie" "cats123"
                                    Sample.fresh_world))
       = (Ok token, w2)
    /\ slen token = 40.
Proof.
  destruct (registered_user_can_log_in
              Reference.entropy Reference.Sum256 Reference.IDKey
              Reference.Marshal Reference.Unmarshal Reference.no_fault
              "Ammie" "cats123" "AMMIE" Sample.fresh_world
              (snd (RegisterUser Reference.entropy Reference.IDKey
                                 Reference.no_fault "Ammie" "cats123"
                                 Sample.fresh_world)))
    as (row & token & w2 & Hrow & Hname & _ & Hlogin & Hlen & _).
  - vm_compute. reflexivity.
  - reflexivity.
  - reflexivity.
  - reflexivity.
  - exists row, token, w2. auto.
Defined.

Lemma GetUsername_witness :
  exists row,
    users_named "aMMie" (store_of Demo.server) = [row]
    /\ username row = "Ammie"%string.
Proof.
  destruct (GetUsername_spelling
              Reference.entropy Reference.Sum256 Reference.IDKey
              Reference.Marshal Reference.Unmarshal Reference.Join
              Reference.no_fault Reference.roundtrip Reference.Marshal_nonempty
              Demo.server "aMMie" Demo.first_token "Ammie"
              (snd (GetUsername Reference.Sum256 Reference.Unmarshal
                                Reference.no_fault "aMMie" Demo.first_token
                                (server_world Demo.server))))
    as (row & Hrow & Hname & _).
  - exact (demo_reachable Demo.history).
  - vm_compute. reflexivity.
  - exists row. split; [exact Hrow | now rewrite <- Hname].
Defined.


(** A configuration file with comments. *)
Definition commented_config : list piece :=
  [Code "{"; LineComment (chars " the address") "010";
   Str [Plain "u"; Plain "r"; Plain "l"]; Code ":";
   Str (map Plain (chars "http://localhost/*")
        ++ [Escaped dquote; Plain "/"; Plain "/"]);
   BlockComment (chars " port * 2 "); Code "}"].

Lemma comments_removed_witness :
  removeCommentsFromJson
    (string_of_list_ascii
       (flat_map render commented_config
        ++ render_ending (OpenLineComment (chars " end"))))
  = Ok (string_of_list_ascii (flat_map kept commented_config)).
Proof.
  apply (comments_are_removed commented_config (OpenLineComment (chars " end")));
    reflexivity.
Defined.

Example commented_config_text :
  let q := String dquote "" in
  let nl := String "010" "" in
  string_of_list_ascii (flat_map render commented_config)
  = ("{// the address" ++ nl ++ q ++ "url" ++ q ++ ":"
     ++ q ++ "http://localhost/*\" ++ q ++ "//" ++ q
     ++ "/* port * 2 */}")%string
  /\ string_of_list_ascii (flat_map kept commented_config)
     = ("{" ++ nl ++ q ++ "url" ++ q ++ ":"
        ++ q ++ "http://localhost/*\" ++ q ++ "//" ++ q ++ "}")%string.
Proof. split; reflexivity. Qed.

(** The same text ending with the block comment: the server's function
    accepts it, the client's does not. *)
Lemma client_copy_witness :
  removeCommentsFromJson (string_of_list_ascii
                            (flat_map render [Code "{"; Code "}";
                                              BlockComment (chars " end ")]))
  = Ok "{}"%string
  /\ removeCommentsFromJson_js
       (units (flat_map render [Code "{"; Code "}";
                                BlockComment (chars " end ")]))
     = Err (Errorf "Unclosed comment").
Proof.
  destruct (client_copy_of_comment_removal
              [Code "{"; Code "}"; BlockComment (chars " end ")] Complete
              eq_refl eq_refl) as [_ H].
  rewrite app_nil_r in H. apply H. reflexivity.
Defined.

Example client_copy_agrees :
  removeCommentsFromJson_js
    (units (flat_map render [Code "{"; BlockComment (chars " end "); Code "}";
                             Code "010"]))
  = Ok (units (chars ("{}" ++ String "010" ""))).
Proof. vm_compute. reflexivity. Qed.

(** The driver fails on the second page insert. *)
Lemma import_all_or_nothing_witness :
  DoujinPages (db (snd (RegisterDoujin Reference.Join (Reference.broken_at 3)
                          "lib/fourth"
                          (Sample.folder_of ["1.png"; "2.png"; "3.png"])
                          Sample.world)))
  = DoujinPages Sample.store.
Proof.
  apply (import_is_all_or_nothing
           Reference.Join (Reference.broken_at 3) "lib/fourth"
           (Sample.folder_of ["1.png"; "2.png"; "3.png"]) Sample.world
           (snd (RegisterDoujin Reference.Join (Reference.broken_at 3)
                   "lib/fourth"
                   (Sample.folder_of ["1.png"; "2.png"; "3.png"])
                   Sample.world))
           (fst (RegisterDoujin Reference.Join (Reference.broken_at 3)
                   "lib/fourth"
                   (Sample.folder_of ["1.png"; "2.png"; "3.png"])
                   Sample.world))).
  - apply surjective_pairing.
  - vm_compute. reflexivity.
Defined.
